(** * nsidc_icesat2_sync: selective incremental mirroring of the NSIDC archive

    A shallow embedding of [nsidc_icesat2_sync.py] (functions
    [nsidc_icesat2_sync] and [http_pull_file]) together with the library
    behaviour the script relies on: Python's [re] (compiled with
    [re.VERBOSE], used through [match]), [str.format] for zero padded
    integers, [posixpath.join], [time.strptime] with the format
    ['%Y-%m-%d %H:%M'], [calendar.timegm], and the file-system calls
    [os.path.exists], [os.makedirs], [os.access], [os.stat], [open],
    [shutil.copyfileobj], [os.utime] and [os.chmod].

    Python [str] values are modelled as [string]: sequences of characters
    with code points 0..255.  On that range [\d] is exactly ['0'..'9'] and
    [.] (without DOTALL) is every character but the line feed. *)

From stdpp Require Import base gmap strings list.
From Stdlib Require Import ZArith QArith Ascii String List Bool Lia DecimalString.
Import ListNotations.

Local Open Scope Z_scope.

#[local] Arguments String.append !s1 s2 : simpl nomatch.
#[local] Arguments Ascii.eqb : simpl never.

(** ** Strings *)

Module Str.

(** [sep.join(parts)] *)
Fixpoint join (sep : string) (parts : list string) : string :=
  match parts with
  | [] => ""
  | [s] => s
  | s :: rest => s +:+ sep +:+ join sep rest
  end.

(** [s.startswith(p)] *)
Fixpoint startswith (p s : string) : bool :=
  match p, s with
  | EmptyString, _ => true
  | String a p', String b s' => if Ascii.eqb a b then startswith p' s' else false
  | String _ _, EmptyString => false
  end.

(** last character of a string, if any *)
Fixpoint last (s : string) : option ascii :=
  match s with
  | EmptyString => None
  | String c EmptyString => Some c
  | String _ s' => last s'
  end.

Fixpoint all (p : ascii -> bool) (s : string) : bool :=
  match s with
  | EmptyString => true
  | String c s' => p c && all p s'
  end.

(** [c in s] *)
Fixpoint mem (c : ascii) (s : string) : bool :=
  match s with
  | EmptyString => false
  | String a s' => Ascii.eqb c a || mem c s'
  end.

End Str.

(** ** Character classes of Python's [re] on code points 0..255 *)

Definition LF : ascii := Ascii.ascii_of_nat 10.

(** [\d] *)
Definition is_digit (c : ascii) : bool :=
  let n := Ascii.nat_of_ascii c in (48 <=? n)%nat && (n <=? 57)%nat.

(** [.] without [re.DOTALL] *)
Definition is_dot (c : ascii) : bool := negb (Ascii.eqb c LF).

(** ** Regular expressions: the fragment of [re] syntax the script's patterns use *)

Inductive regex : Type :=
| Void
| Eps
| Chr (c : ascii)
| Dot
| Digit
| Cat (r1 r2 : regex)
| Alt (r1 r2 : regex)
| Star (r : regex).

(** [r+], [r?] and [r{n}] *)
Definition plus (r : regex) : regex := Cat r (Star r).
Definition opt (r : regex) : regex := Alt r Eps.
Fixpoint rep (n : nat) (r : regex) : regex :=
  match n with
  | O => Eps
  | S n' => Cat r (rep n' r)
  end.

(** The strings a pattern matches in full. *)
Inductive Lang : regex -> string -> Prop :=
| L_Eps : Lang Eps ""
| L_Chr c : Lang (Chr c) (String c "")
| L_Dot c : is_dot c = true -> Lang Dot (String c "")
| L_Digit c : is_digit c = true -> Lang Digit (String c "")
| L_Cat r1 r2 s1 s2 : Lang r1 s1 -> Lang r2 s2 -> Lang (Cat r1 r2) (s1 +:+ s2)
| L_AltL r1 r2 s : Lang r1 s -> Lang (Alt r1 r2) s
| L_AltR r1 r2 s : Lang r2 s -> Lang (Alt r1 r2) s
| L_Star0 r : Lang (Star r) ""
| L_StarS r s1 s2 : Lang r s1 -> Lang (Star r) s2 -> Lang (Star r) (s1 +:+ s2).

Fixpoint nullable (r : regex) : bool :=
  match r with
  | Void | Chr _ | Dot | Digit => false
  | Eps | Star _ => true
  | Cat r1 r2 => nullable r1 && nullable r2
  | Alt r1 r2 => nullable r1 || nullable r2
  end.

Fixpoint deriv (c : ascii) (r : regex) : regex :=
  match r with
  | Void | Eps => Void
  | Chr d => if Ascii.eqb d c then Eps else Void
  | Dot => if is_dot c then Eps else Void
  | Digit => if is_digit c then Eps else Void
  | Cat r1 r2 =>
      if nullable r1 then Alt (Cat (deriv c r1) r2) (deriv c r2)
      else Cat (deriv c r1) r2
  | Alt r1 r2 => Alt (deriv c r1) (deriv c r2)
  | Star r1 => Cat (deriv c r1) (Star r1)
  end.

(** [bool(R.match(s))]: [match] anchors the pattern at the start of [s]
    only, so it succeeds as soon as some prefix of [s] is in the language.
    Greedy and lazy repeats differ in which prefix is reported, not in
    whether one exists. *)
Fixpoint re_match (r : regex) (s : string) : bool :=
  nullable r ||
  match s with
  | EmptyString => false
  | String c s' => re_match (deriv c r) s'
  end.

(** [R.match(s)] succeeds and the match ends at the end of [s]. *)
Fixpoint re_fullmatch (r : regex) (s : string) : bool :=
  match s with
  | EmptyString => nullable r
  | String c s' => re_fullmatch (deriv c r) s'
  end.

(** ** [re.compile(pattern, re.VERBOSE)]

    The pattern is read left to right, one character at a time.  A frame
    holds the finished branches of the group being read and the items of
    its current branch (most recent first); an item remembers whether it
    already is a repeat, since [re] refuses to repeat a repeat.  The
    compiler answers [None] when [re] raises [re.error] (nothing to
    repeat, multiple repeat, unbalanced parenthesis, bad escape) and also
    for syntax outside the fragment modelled here (character sets,
    anchors, [(?...)] extensions, [{m,n}], escapes other than [\d] and
    escaped punctuation).  Capturing groups only group: the script uses
    the truth value of [match] and nothing else. *)

Record frame : Type := Frame {
  branches : list regex;
  items : list (regex * bool)
}.

Inductive pmode : Type :=
| PNormal
| PAfterRepeat
| PEscape
| PBrace (n : option nat)
| PComment.

Record pstate : Type := PState {
  outer : list frame;
  inner : frame;
  mode : pmode
}.

Definition seq_of (its : list (regex * bool)) : regex :=
  fold_left (fun acc it => Cat (fst it) acc) its Eps.

Definition close_frame (f : frame) : regex :=
  fold_left (fun acc b => Alt b acc) (branches f) (seq_of (items f)).

(** [sre_parse.WHITESPACE], skipped under [re.VERBOSE] *)
Definition is_verbose_space (c : ascii) : bool :=
  match Ascii.nat_of_ascii c with
  | 9%nat | 10%nat | 11%nat | 12%nat | 13%nat | 32%nat => true
  | _ => false
  end.

Definition is_alnum (c : ascii) : bool :=
  let n := Ascii.nat_of_ascii c in
  ((48 <=? n)%nat && (n <=? 57)%nat) ||
  ((65 <=? n)%nat && (n <=? 90)%nat) ||
  ((97 <=? n)%nat && (n <=? 122)%nat).

Definition digit_val (c : ascii) : nat := (Ascii.nat_of_ascii c - 48)%nat.

Definition set_mode (m : pmode) (st : pstate) : pstate :=
  PState (outer st) (inner st) m.

Definition push_item (r : regex) (st : pstate) : pstate :=
  PState (outer st)
         (Frame (branches (inner st)) ((r, false) :: items (inner st)))
         PNormal.

Definition apply_repeat (q : regex -> regex) (st : pstate) : option pstate :=
  match items (inner st) with
  | (r, false) :: its =>
      Some (PState (outer st)
                   (Frame (branches (inner st)) ((q r, true) :: its))
                   PAfterRepeat)
  | _ => None
  end.

Definition open_group (st : pstate) : pstate :=
  PState (inner st :: outer st) (Frame [] []) PNormal.

Definition close_group (st : pstate) : option pstate :=
  match outer st with
  | f :: fs =>
      Some (PState fs
                   (Frame (branches f) ((close_frame (inner st), false) :: items f))
                   PNormal)
  | [] => None
  end.

Definition next_branch (st : pstate) : pstate :=
  PState (outer st)
         (Frame (seq_of (items (inner st)) :: branches (inner st)) [])
         PNormal.

Definition step_normal (st : pstate) (c : ascii) : option pstate :=
  if is_verbose_space c then Some (set_mode PNormal st)
  else if Ascii.eqb c "#" then Some (set_mode PComment st)
  else if Ascii.eqb c "\" then Some (set_mode PEscape st)
  else if Ascii.eqb c "(" then Some (open_group st)
  else if Ascii.eqb c ")" then close_group st
  else if Ascii.eqb c "|" then Some (next_branch st)
  else if Ascii.eqb c "*" then apply_repeat Star st
  else if Ascii.eqb c "+" then apply_repeat plus st
  else if Ascii.eqb c "?" then apply_repeat opt st
  else if Ascii.eqb c "{" then
    match items (inner st) with
    | (_, false) :: _ => Some (set_mode (PBrace None) st)
    | _ => None
    end
  else if Ascii.eqb c "." then Some (push_item Dot st)
  else if Ascii.eqb c "[" || Ascii.eqb c "^" || Ascii.eqb c "$" then None
  else Some (push_item (Chr c) st).

Definition step (st : pstate) (c : ascii) : option pstate :=
  match mode st with
  | PComment => Some (set_mode (if Ascii.eqb c LF then PNormal else PComment) st)
  | PEscape =>
      if Ascii.eqb c "d" then Some (push_item Digit st)
      else if is_alnum c then None
      else Some (push_item (Chr c) st)
  | PBrace n =>
      if is_digit c then
        Some (set_mode (PBrace (Some (10 * from_option id 0 n + digit_val c)%nat)) st)
      else if Ascii.eqb c "}" then
        match n with
        | Some k => apply_repeat (rep k) st
        | None => None
        end
      else None
  | PAfterRepeat =>
      if Ascii.eqb c "?" then Some (set_mode PNormal st) else step_normal st c
  | PNormal => step_normal st c
  end.

Fixpoint feed (st : pstate) (pattern : string) : option pstate :=
  match pattern with
  | EmptyString => Some st
  | String c rest =>
      match step st c with
      | Some st' => feed st' rest
      | None => None
      end
  end.

Definition finish (st : pstate) : option regex :=
  match outer st, mode st with
  | [], (PNormal | PAfterRepeat | PComment) => Some (close_frame (inner st))
  | _, _ => None
  end.

Definition re_compile_verbose (pattern : string) : option regex :=
  match feed (PState [] (Frame [] []) PNormal) pattern with
  | Some st => finish st
  | None => None
  end.

(** ** [str.format] of integers *)

Definition str_of_N (n : N) : string := NilZero.string_of_uint (N.to_uint n).

Fixpoint zeros (k : nat) : string :=
  match k with
  | O => ""
  | S k' => String "0" (zeros k')
  end.

(** ['{0:d}'.format(z)] *)
Definition format_d (z : Z) : string :=
  (if z <? 0 then "-" else "") +:+ str_of_N (Z.abs_N z).

(** ['{0:0wd}'.format(z)]: sign-aware zero padding to width [w] *)
Definition format_0wd (w : nat) (z : Z) : string :=
  let sign := if z <? 0 then "-" else "" in
  let digits := str_of_N (Z.abs_N z) in
  sign +:+ zeros (w - String.length sign - String.length digits) +:+ digits.

(** ** The matchers of [nsidc_icesat2_sync] *)

Definition regex_track (TRACKS : list Z) : string :=
  Str.join "|" (map (format_0wd 4) TRACKS).
Definition regex_granule (GRANULES : list Z) : string :=
  Str.join "|" (map (format_0wd 2) GRANULES).
Definition regex_version (VERSIONS : list Z) : string :=
  Str.join "|" (map (format_0wd 2) VERSIONS).
Definition regex_suffix (AUXILIARY : bool) : string :=
  if AUXILIARY then "(.*?)" else "(h5)".

(** [remote_regex_pattern.format(p, regex_track, regex_granule, RELEASE,
    regex_version, regex_suffix)]; the doubled braces of the template are
    single braces after formatting. *)
Definition remote_regex_pattern (a0 a1 a2 a3 a4 a5 : string) : string :=
  a0 +:+ "_(\d{4})(\d{2})(\d{2})(\d{2})(\d{2})(\d{2})_(" +:+ a1 +:+
  ")(\d{2})(" +:+ a2 +:+ ")_(" +:+ a3 +:+ ")_(" +:+ a4 +:+ ")(.*?)." +:+ a5.

(** [R1], the file matcher of product [p] *)
Definition R1_compile (p RELEASE : string) (VERSIONS GRANULES TRACKS : list Z)
    (AUXILIARY : bool) : option regex :=
  re_compile_verbose
    (remote_regex_pattern p (regex_track TRACKS) (regex_granule GRANULES)
       RELEASE (regex_version VERSIONS) (regex_suffix AUXILIARY)).

(** The [YEARS] argument: [None], a Python list (direct callers), or a
    numpy integer array (what [main] builds from [--year]).  A list is
    true when it is not empty.  An empty array is false, a one-element
    array has the truth value of its element, and testing a longer one
    raises [ValueError]. *)
Inductive years_arg : Type :=
| YNone
| YList (ys : list Z)
| YArray (ys : list Z).

Inductive truth : Type := Truthy | Falsy | Ambiguous.

Definition years_truth (YEARS : years_arg) : truth :=
  match YEARS with
  | YNone | YList [] | YArray [] => Falsy
  | YList _ => Truthy
  | YArray [y] => if y =? 0 then Falsy else Truthy
  | YArray _ => Ambiguous
  end.

Definition years_values (YEARS : years_arg) : list Z :=
  match YEARS with
  | YNone => []
  | YList ys | YArray ys => ys
  end.

(** Pattern source of [R2], the subdirectory matcher; [None] where the
    test of [YEARS] raises. *)
Definition R2_pattern (SUBDIRECTORY : option (list string)) (YEARS : years_arg)
  : option string :=
  match SUBDIRECTORY with
  | Some (n :: ns) => Some ("(" +:+ Str.join "|" (n :: ns) +:+ ")")
  | _ =>
      match years_truth YEARS with
      | Ambiguous => None
      | Truthy =>
          Some ("(" +:+ Str.join "|" (map format_d (years_values YEARS)) +:+
                ").(\d+).(\d+)")
      | Falsy => Some "(\d+).(\d+).(\d+)"
      end
  end.

(** ** [posixpath.join] (and [os.path.join] on a POSIX system) *)

Definition join2 (path b : string) : string :=
  if Str.startswith "/" b then b
  else
    match Str.last path with
    | None => path +:+ b
    | Some c => if Ascii.eqb c "/" then path +:+ b else path +:+ "/" +:+ b
    end.

Definition path_join (a : string) (ps : list string) : string :=
  fold_left join2 ps a.

(** ** [time.strptime(text, '%Y-%m-%d %H:%M')] and [calendar.timegm]

    [_strptime] turns the format into the regular expression
    [(?P<Y>\d\d\d\d)-(?P<m>1[0-2]|0[1-9]|[1-9])-(?P<d>3[0-1]|[1-2]\d|0[1-9]|[1-9]| [1-9])\s+(?P<H>2[0-3]|[0-1]\d|\d):(?P<M>[0-5]\d|\d)],
    takes the first match a backtracking search finds at the start of the
    text, raises [ValueError] when there is none or when text remains
    after it, and raises [ValueError] again when the fields are not a date
    of the proleptic Gregorian calendar.  A backtracking matcher with
    groups is a parser that returns its successes in order of
    preference. *)

Definition parser (A : Type) : Type := string -> list (A * string).

Definition p_ret {A : Type} (a : A) : parser A := fun s => [(a, s)].

Definition p_bind {A B : Type} (p : parser A) (k : A -> parser B) : parser B :=
  fun s => concat (map (fun '(a, rest) => k a rest) (p s)).

Definition p_or {A : Type} (p q : parser A) : parser A :=
  fun s => p s ++ q s.

(** a digit between [lo] and [hi] *)
Definition p_digit (lo hi : nat) : parser Z :=
  fun s =>
    match s with
    | String c rest =>
        if is_digit c && (lo <=? digit_val c)%nat && (digit_val c <=? hi)%nat
        then [(Z.of_nat (digit_val c), rest)]
        else []
    | EmptyString => []
    end.

Definition p_lit (c : ascii) : parser unit :=
  fun s =>
    match s with
    | String c' rest => if Ascii.eqb c c' then [(tt, rest)] else []
    | EmptyString => []
    end.

(** two digits read as a number *)
Definition p_two (hi_lo hi_hi lo_lo lo_hi : nat) : parser Z :=
  p_bind (p_digit hi_lo hi_hi) (fun a =>
  p_bind (p_digit lo_lo lo_hi) (fun b => p_ret (10 * a + b))).

(** [str.isspace] and [\s] on code points 0..255 *)
Definition is_space (c : ascii) : bool :=
  match Ascii.nat_of_ascii c with
  | 9%nat | 10%nat | 11%nat | 12%nat | 13%nat
  | 28%nat | 29%nat | 30%nat | 31%nat | 32%nat | 133%nat | 160%nat => true
  | _ => false
  end.

(** [\s+], greedy: the longest run first *)
Fixpoint p_spaces1 (s : string) : list (unit * string) :=
  match s with
  | String c rest => if is_space c then p_spaces1 rest ++ [(tt, rest)] else []
  | EmptyString => []
  end.

Definition p_Y : parser Z :=
  p_bind (p_digit 0 9) (fun a => p_bind (p_digit 0 9) (fun b =>
  p_bind (p_digit 0 9) (fun c => p_bind (p_digit 0 9) (fun d =>
  p_ret (1000 * a + 100 * b + 10 * c + d))))).

Definition p_m : parser Z :=
  p_or (p_two 1 1 0 2) (p_or (p_two 0 0 1 9) (p_digit 1 9)).

Definition p_d : parser Z :=
  p_or (p_two 3 3 0 1) (p_or (p_two 1 2 0 9) (p_or (p_two 0 0 1 9)
  (p_or (p_digit 1 9) (p_bind (p_lit " ") (fun _ => p_digit 1 9))))).

Definition p_H : parser Z :=
  p_or (p_two 2 2 0 3) (p_or (p_two 0 1 0 9) (p_digit 0 9)).

Definition p_M : parser Z :=
  p_or (p_two 0 5 0 9) (p_digit 0 9).

(** the fields [(tm_year, tm_mon, tm_mday, tm_hour, tm_min)]; [tm_sec] is 0 *)
Record struct_time : Type := StructTime {
  tm_year : Z; tm_mon : Z; tm_mday : Z; tm_hour : Z; tm_min : Z
}.

Definition format_regex : parser struct_time :=
  p_bind p_Y (fun Y => p_bind (p_lit "-") (fun _ =>
  p_bind p_m (fun m => p_bind (p_lit "-") (fun _ =>
  p_bind p_d (fun d => p_bind p_spaces1 (fun _ =>
  p_bind p_H (fun H => p_bind (p_lit ":") (fun _ =>
  p_bind p_M (fun M => p_ret (StructTime Y m d H M)))))))))).

(** [datetime] helpers *)
Definition is_leap (year : Z) : bool :=
  (year mod 4 =? 0) && (negb (year mod 100 =? 0) || (year mod 400 =? 0)).

Definition days_in_month (year month : Z) : Z :=
  if (month =? 2) && is_leap year then 29
  else nth (Z.to_nat month) [-1; 31; 28; 31; 30; 31; 30; 31; 31; 30; 31; 30; 31] (-1).

Definition days_before_year (year : Z) : Z :=
  let y := year - 1 in y * 365 + y / 4 - y / 100 + y / 400.

Definition days_before_month (year month : Z) : Z :=
  nth (Z.to_nat month) [-1; 0; 31; 59; 90; 120; 151; 181; 212; 243; 273; 304; 334] (-1)
  + (if (2 <? month) && is_leap year then 1 else 0).

(** [datetime.date(year, month, day)] is accepted *)
Definition valid_date (year month day : Z) : bool :=
  (1 <=? year) && (year <=? 9999) && (1 <=? month) && (month <=? 12) &&
  (1 <=? day) && (day <=? days_in_month year month).

(** [datetime.date(year, month, day).toordinal()] *)
Definition ymd2ord (year month day : Z) : Z :=
  days_before_year year + days_before_month year month + day.

Definition EPOCH_ORD : Z := ymd2ord 1970 1 1.

(** [time.strptime(text, '%Y-%m-%d %H:%M')]; [None] is [ValueError] *)
Definition strptime (text : string) : option struct_time :=
  match format_regex text with
  | (tm, EmptyString) :: _ =>
      if valid_date (tm_year tm) (tm_mon tm) (tm_mday tm) then Some tm else None
  | _ => None
  end.

(** [calendar.timegm(tm)] *)
Definition timegm (tm : struct_time) : Z :=
  let days := ymd2ord (tm_year tm) (tm_mon tm) 1 - EPOCH_ORD + tm_mday tm - 1 in
  let hours := days * 24 + tm_hour tm in
  let minutes := hours * 60 + tm_min tm in
  minutes * 60 + 0.

(** [text.rstrip()] *)
Fixpoint rstrip (s : string) : string :=
  match s with
  | EmptyString => EmptyString
  | String c rest =>
      match rstrip rest with
      | EmptyString => if is_space c then EmptyString else String c EmptyString
      | r => String c r
      end
  end.

(** [calendar.timegm(time.strptime(text.rstrip(), '%Y-%m-%d %H:%M'))] *)
Definition remote_mtime_of (text : string) : option Z :=
  option_map timegm (strptime (rstrip text)).

(** ** The local file system and the remote archive *)

Inductive kind : Type := KFile | KDir.

(** what [os.stat] reports of a path, and the bytes of a file *)
Record node : Type := Node {
  nkind : kind;
  st_mtime : Q;
  st_atime : Q;
  st_mode : Z;
  contents : string
}.

(** Paths are the strings the script builds; a path names at most one
    node, and two texts are two paths.  The tree is the part of the
    file system the script names.  Three things about it are not
    tracked: the missing parent directories that [os.makedirs] creates
    on the way to a directory; the times of a directory after its
    creation, which change when an entry is added to it; and the
    permissions of the process, which is taken to be allowed to create
    the directories and to open, re-time and re-mode the files it
    mirrors ([PermissionError] is not an outcome here). *)
Abbreviation FS := (gmap string node).

(** the two [xpath] results of a listing page, in document order *)
Record page : Type := Page {
  colnames : list string;
  collastmod : list string
}.

(** The body [urlopen] streams for a file, and the two ways the stream
    can break off.  [fails_after = Some k]: the stream raises once [k]
    bytes have been written to the local file.  [cut_after = Some k]:
    the connection closes after [k] bytes of the body; a [read] with a
    size then answers with no bytes, as at the end of the body
    ([http.client] raises no [IncompleteRead] for it), and the copy ends
    without an error. *)
Record download : Type := Download {
  payload : string;
  fails_after : option nat;
  cut_after : option nat
}.

(** The world around one run: what [urlopen] answers for a listing URL
    ([None]: the request or the parse of its answer raises) and for a
    file URL, the wall clock, the process umask, and the access time
    [os.stat] reports of a file once [os.utime] has been handed the
    access time it reported before (a float, which [os.utime] rounds to
    whole nanoseconds). *)
Record env : Type := Env {
  listing : string -> option page;
  body : string -> option download;
  now : Q;
  umask : Z;
  utime_atime : Q -> Q
}.

Inductive exn : Type :=
| URLError            (* urlopen or lxml.etree.parse raised *)
| IndexError
| ValueError
| IsADirectoryError
| FileNotFoundError
| TransferInterrupted (* the response stream raised while being copied *)
| PatternNotCompiled. (* re.error, or a pattern outside the modelled fragment *)

(** what the script prints to [fid] *)
Inductive line : Type :=
| LProduct (p : string)
| LRemote (remote_file : string)
| LLocal (local_file label : string).

Definition TAB : string := String (Ascii.ascii_of_nat 9) "".
Definition NL : string := String LF "".

Definition render (l : line) : string :=
  match l with
  | LProduct p => "PRODUCT=" +:+ p
  | LRemote remote_file => remote_file +:+ " --> "
  | LLocal local_file label => TAB +:+ local_file +:+ label +:+ NL
  end.

(** ** Statements that raise, print and change the file system *)

Inductive outcome (A : Type) : Type :=
| Ok (a : A)
| Raise (e : exn).
Arguments Ok {A} a.
Arguments Raise {A} e.

Definition M (A : Type) : Type := FS -> outcome A * FS * list line.

Definition ret {A : Type} (a : A) : M A := fun fs => (Ok a, fs, []).

Definition raise {A : Type} (e : exn) : M A := fun fs => (Raise e, fs, []).

Definition bind {A B : Type} (m : M A) (k : A -> M B) : M B :=
  fun fs =>
    match m fs with
    | (Ok a, fs1, out1) =>
        match k a fs1 with
        | (r, fs2, out2) => (r, fs2, out1 ++ out2)
        end
    | (Raise e, fs1, out1) => (Raise e, fs1, out1)
    end.

Notation "x <- m ;; k" := (bind m (fun x => k))
  (at level 100, m at next level, right associativity).
Notation "m ;;; k" := (bind m (fun _ => k))
  (at level 100, right associativity).

Definition print (l : line) : M unit := fun fs => (Ok tt, fs, [l]).

Definition get_fs : M FS := fun fs => (Ok fs, fs, []).

Definition put_fs (fs' : FS) : M unit := fun _ => (Ok tt, fs', []).

Definition lift {A : Type} (e : exn) (o : option A) : M A :=
  match o with
  | Some a => ret a
  | None => raise e
  end.

(** [for x in xs: body(x)] *)
Fixpoint for_each {A : Type} (xs : list A) (body : A -> M unit) : M unit :=
  match xs with
  | [] => ret tt
  | x :: rest => body x ;;; for_each rest body
  end.

(** [os.path.exists(path)] and [os.access(path, os.F_OK)] *)
Definition path_exists (fs : FS) (path : string) : bool :=
  match fs !! path with
  | Some _ => true
  | None => false
  end.

(** [os.makedirs(path, MODE)] on a path that does not exist: the
    directory is created with [MODE] less the umask.  The parents it
    creates when they are missing, and the new time of the parent, are
    not tracked. *)
Definition makedirs (E : env) (path : string) (MODE : Z) : M unit :=
  fs <- get_fs ;;
  put_fs (<[path := Node KDir (now E) (now E) (Z.ldiff MODE (umask E)) ""]> fs).

(** [os.makedirs(path, MODE) if not os.path.exists(path) else None] *)
Definition makedirs_if_absent (E : env) (path : string) (MODE : Z) : M unit :=
  fs <- get_fs ;;
  if negb (path_exists fs path) then makedirs E path MODE else ret tt.

(** [a < b] on [st_mtime] values *)
Definition Qltb (a b : Q) : bool := negb (Qle_bool b a).

Definition take (k : nat) (s : string) : string := String.substring 0 k s.

(** a change of the node at [path] *)
Definition update_node (path : string) (f : node -> node) : M unit :=
  fs <- get_fs ;;
  match fs !! path with
  | Some nd => put_fs (<[path := f nd]> fs)
  | None => raise FileNotFoundError
  end.

(** The node [open(path, 'wb')] leaves at [path]: an empty file stamped
    with the wall clock, created with mode [0o666] less the umask or
    truncated; [None] when [path] is a directory. *)
Definition opened_node (E : env) (fs : FS) (path : string) : option node :=
  match fs !! path with
  | Some nd =>
      match nkind nd with
      | KDir => None
      | KFile => Some (Node KFile (now E) (st_atime nd) (st_mode nd) "")
      end
  | None => Some (Node KFile (now E) (now E) (Z.ldiff 438 (umask E)) "")
  end.

(** [open(path, 'wb')], by a process that may write there: it raises
    only when [path] is a directory.  The new time of the parent of a
    file it creates is not tracked. *)
Definition open_wb (E : env) (path : string) : M unit :=
  fs <- get_fs ;;
  match opened_node E fs path with
  | Some nd => put_fs (<[path := nd]> fs)
  | None => raise IsADirectoryError
  end.

(** [f.write(data)] *)
Definition write (E : env) (path data : string) : M unit :=
  update_node path
    (fun nd => Node KFile (now E) (st_atime nd) (st_mode nd) (contents nd +:+ data)).

(** what the stream hands over before it ends: the whole body, or its
    first [k] bytes when the connection closes after them *)
Definition received (response : download) : string :=
  match cut_after response with
  | Some k => take k (payload response)
  | None => payload response
  end.

(** [shutil.copyfileobj(response, f, CHUNK)]: the body is copied chunk
    by chunk until a [read] answers with no bytes; when the stream
    raises, what was written stays. *)
Definition copyfileobj (E : env) (response : download) (path : string) : M unit :=
  match fails_after response with
  | Some k => write E path (take k (received response)) ;;; raise TransferInterrupted
  | None => write E path (received response)
  end.

(** [os.utime(path, (os.stat(path).st_atime, mtime))]: [mtime] is an
    integer and is stored as it is; the access time goes through a
    float, and what comes back is [utime_atime] of it *)
Definition utime (E : env) (path : string) (mtime : Z) : M unit :=
  update_node path
    (fun nd => Node (nkind nd) (inject_Z mtime) (utime_atime E (st_atime nd))
                    (st_mode nd) (contents nd)).

(** [os.chmod(path, MODE)], with [MODE] an integer *)
Definition chmod (path : string) (MODE : Z) : M unit :=
  update_node path
    (fun nd => Node (nkind nd) (st_mtime nd) (st_atime nd) MODE (contents nd)).

(** The transfer of [http_pull_file].  When the stream raises, the
    exception leaves the [with] block and neither [os.utime] nor
    [os.chmod] runs; when it ends early without raising, both run. *)
Definition transfer (E : env) (remote_file : string) (remote_mtime : Z)
    (local_file : string) (MODE : Z) : M unit :=
  response <- lift URLError (body E remote_file) ;;
  open_wb E local_file ;;;
  copyfileobj E response local_file ;;;
  utime E local_file remote_mtime ;;;
  chmod local_file MODE.

(** [TEST] and [OVERWRITE] as [http_pull_file] sets them *)
Definition pull_test (fs : FS) (remote_mtime : Z) (local_file : string)
  : bool * string :=
  match fs !! local_file with
  | Some nd =>
      if Qltb (st_mtime nd) (inject_Z remote_mtime)
      then (true, " (overwrite)")
      else (false, " (clobber)")
  | None => (true, " (new)")
  end.

Definition http_pull_file (E : env) (remote_file : string) (remote_mtime : Z)
    (local_file : string) (LIST CLOBBER : bool) (MODE : Z) : M unit :=
  fs <- get_fs ;;
  let '(TEST, OVERWRITE) := pull_test fs remote_mtime local_file in
  if TEST || CLOBBER then
    print (LRemote remote_file) ;;;
    print (LLocal local_file OVERWRITE) ;;;
    if negb LIST then transfer E remote_file remote_mtime local_file MODE
    else ret tt
  else ret tt.

(** The decision of the specification: [NEW] = local absent, [STALE] =
    local present but older than remote, [UP_TO_DATE] = local present
    and not older. *)
Inductive TransferDecision : Type := NEW | STALE | UP_TO_DATE.

Definition decision_spec (local : option Q) (remote_mtime : Z) : TransferDecision :=
  match local with
  | None => NEW
  | Some local_mtime =>
      if Qltb local_mtime (inject_Z remote_mtime) then STALE else UP_TO_DATE
  end.

(** ** [nsidc_icesat2_sync] *)

(** The arguments of [nsidc_icesat2_sync], with [LOG] off: [fid] is
    [sys.stdout] (the optional log file of lines 108-113 and 213-215 is
    bookkeeping outside the mirroring engine).  [MODE] is an integer, as
    [main] always passes one; with the [None] default of the signature
    the first [os.makedirs] or [os.chmod] raises [TypeError]. *)
Record args : Type := Args {
  ddir : string;
  PRODUCTS : list string;
  RELEASE : string;
  VERSIONS : list Z;
  GRANULES : list Z;
  TRACKS : list Z;
  YEARS : years_arg;
  SUBDIRECTORY : option (list string);
  AUXILIARY : bool;
  LIST : bool;
  MODE : Z;
  CLOBBER : bool
}.

Definition HOST : string := "https://n5eil01u.ecs.nsidc.org".

(** [[i for i,f in enumerate(colnames) if R1.match(f)]] *)
Fixpoint matching_lines (R1 : regex) (i : nat) (names : list string) : list nat :=
  match names with
  | [] => []
  | f :: rest =>
      if re_match R1 f then i :: matching_lines R1 (S i) rest
      else matching_lines R1 (S i) rest
  end.

(** the body of [for i in remote_file_lines] *)
Definition sync_file (E : env) (a : args) (d sd local_dir : string) (pg : page)
    (i : nat) : M unit :=
  name <- lift IndexError (colnames pg !! i) ;;
  let remote_file := path_join d [sd; name] in
  let local_file := path_join local_dir [name] in
  text <- lift IndexError (collastmod pg !! i) ;;
  LMD <- lift ValueError (strptime (rstrip text)) ;;
  let remote_mtime := timegm LMD in
  http_pull_file E remote_file remote_mtime local_file (LIST a) (CLOBBER a) (MODE a).

(** the body of [for sd in remote_sub] *)
Definition sync_subdirectory (E : env) (a : args) (DIRECTORY d : string)
    (R1 : regex) (sd : string) : M unit :=
  let local_dir := path_join DIRECTORY [sd] in
  makedirs_if_absent E local_dir (MODE a) ;;;
  pg <- lift URLError (listing E (path_join d [sd])) ;;
  let remote_file_lines := matching_lines R1 0 (colnames pg) in
  for_each remote_file_lines (sync_file E a d sd local_dir pg).

(** the body of [for p in PRODUCTS] *)
Definition sync_product (E : env) (a : args) (R2 : regex) (p : string) : M unit :=
  print (LProduct p) ;;;
  let DIRECTORY := path_join (ddir a) [p +:+ "." +:+ RELEASE a] in
  let d := path_join HOST ["ATLAS"; p +:+ "." +:+ RELEASE a] in
  R1 <- lift PatternNotCompiled
          (R1_compile p (RELEASE a) (VERSIONS a) (GRANULES a) (TRACKS a) (AUXILIARY a)) ;;
  pg <- lift URLError (listing E d) ;;
  let remote_sub := filter (fun sd => re_match R2 sd) (colnames pg) in
  for_each remote_sub (sync_subdirectory E a DIRECTORY d R1).

Definition R2_compile (a : args) : M regex :=
  match R2_pattern (SUBDIRECTORY a) (YEARS a) with
  | None => raise ValueError
  | Some pattern => lift PatternNotCompiled (re_compile_verbose pattern)
  end.

Definition nsidc_icesat2_sync (E : env) (a : args) : M unit :=
  makedirs_if_absent E (ddir a) (MODE a) ;;;
  R2 <- R2_compile a ;;
  for_each (PRODUCTS a) (sync_product E a R2).

(** the local files a run reported for transfer, in order *)
Definition reported (out : list line) : list string :=
  concat (map (fun l => match l with LLocal f _ => [f] | _ => [] end) out).

(** ** What the subdirectory matcher is asked with *)

(** [bool(R2.match(sd))] for the matcher built from [SUBDIRECTORY] and
    [YEARS]; [None] when building it raises. *)
Definition R2_match (SUBDIRECTORY : option (list string)) (YEARS : years_arg)
    (sd : string) : option bool :=
  match R2_pattern SUBDIRECTORY YEARS with
  | Some pattern => option_map (fun R2 => re_match R2 sd) (re_compile_verbose pattern)
  | None => None
  end.

(** [bool(R1.match(f))] for the file matcher of product [p] *)
Definition R1_match (p RELEASE : string) (VERSIONS GRANULES TRACKS : list Z)
    (AUXILIARY : bool) (f : string) : option bool :=
  option_map (fun R1 => re_match R1 f)
             (R1_compile p RELEASE VERSIONS GRANULES TRACKS AUXILIARY).

(** a non-empty run of decimal digits *)
Definition digits1 (s : string) : Prop :=
  s <> "" /\ Str.all is_digit s = true.

(** The name starts with digits, a dot, digits, a dot, digits. *)
Definition dot_separated_start (name : string) : Prop :=
  exists a b c rest,
    digits1 a /\ digits1 b /\ digits1 c /\
    name = a +:+ "." +:+ b +:+ "." +:+ c +:+ rest.

(** The name starts with digits, any character but a line feed, digits,
    any character but a line feed, digits. *)
Definition any_separated_start (name : string) : Prop :=
  exists a x b y c rest,
    digits1 a /\ is_dot x = true /\ digits1 b /\ is_dot y = true /\ digits1 c /\
    name = a +:+ String x (b +:+ String y (c +:+ rest)).


(** A character of a supplied name that [re.VERBOSE] neither skips nor
    reads as an operator: it stands for itself, except the dot. *)
Definition name_char (c : ascii) : bool :=
  negb (is_verbose_space c) && negb (Str.mem c "#\()|*+?{[^$").

Definition tame_name (n : string) : bool := Str.all name_char n.

(** [sd] starts with a string that agrees with [n] character by
    character, a dot of [n] standing for any character but a line feed. *)
Fixpoint wild_startswith (n sd : string) : bool :=
  match n with
  | EmptyString => true
  | String a n' =>
      match sd with
      | EmptyString => false
      | String b sd' =>
          (if Ascii.eqb a "." then is_dot b else Ascii.eqb a b) &&
          wild_startswith n' sd'
      end
  end.

(** what the compiler makes of a tame name *)
Definition item_of (c : ascii) : regex :=
  if Ascii.eqb c "." then Dot else Chr c.

Fixpoint name_cat (n : string) (tail : regex) : regex :=
  match n with
  | EmptyString => tail
  | String c n' => Cat (item_of c) (name_cat n' tail)
  end.

Fixpoint rev_items (n : string) (acc : list (regex * bool)) : list (regex * bool) :=
  match n with
  | EmptyString => acc
  | String c n' => rev_items n' ((item_of c, false) :: acc)
  end.


(** [s.endswith(suffix)] *)
Definition endswith (suffix s : string) : bool :=
  let n := String.length s in
  let k := String.length suffix in
  (k <=? n)%nat && String.eqb (String.substring (n - k) k s) suffix.

(** [np.arange(a, b)] *)
Definition arange (a b : Z) : list Z :=
  map (fun i => a + Z.of_nat i) (seq 0 (Z.to_nat (b - a))).

(** the numeric filters [main] uses when the caller gives none *)
Definition default_VERSIONS : list Z := arange 1 10.
Definition default_GRANULES : list Z := arange 1 15.
Definition default_TRACKS : list Z := arange 1 1388.


(** ** Last-modified texts and UTC epoch seconds *)

Definition digit_char (n : Z) : ascii := Ascii.ascii_of_nat (48 + Z.to_nat n).

Definition two_digits (n : Z) : string :=
  String (digit_char (n / 10)) (String (digit_char (n mod 10)) "").

Definition four_digits (n : Z) : string :=
  String (digit_char (n / 1000)) (String (digit_char (n / 100 mod 10))
    (two_digits (n mod 100))).

(** the text [YYYY-MM-DD HH:MM] of a listing page *)
Definition lastmod_text (Y m d H M : Z) : string :=
  four_digits Y +:+ "-" +:+ two_digits m +:+ "-" +:+ two_digits d +:+ " " +:+
  two_digits H +:+ ":" +:+ two_digits M.

(** [timegm] written with the day ordinals of [datetime.date]: 86400
    seconds for every day between the ordinal of 1970-01-01 and that of
    [Y-m-d], with no time-zone offset. *)
Definition utc_epoch (Y m d H M : Z) : Z :=
  86400 * (ymd2ord Y m d - ymd2ord 1970 1 1) + 3600 * H + 60 * M.

(** the day after [Y-m-d] *)
Definition next_day (Y m d : Z) : Z * Z * Z :=
  if d <? days_in_month Y m then (Y, m, d + 1)
  else if m <? 12 then (Y, m + 1, 1)
  else (Y + 1, 1, 1).


(** ** The civil calendar, counted day by day *)

(** Gregorian leap years: every fourth year, but of the years that end a
    century only every fourth *)
Definition leap_year (y : Z) : bool :=
  if y mod 400 =? 0 then true
  else if y mod 100 =? 0 then false
  else y mod 4 =? 0.

Definition year_length (y : Z) : Z := if leap_year y then 366 else 365.

Definition month_length (y m : Z) : Z :=
  match m with
  | 1 | 3 | 5 | 7 | 8 | 10 | 12 => 31
  | 4 | 6 | 9 | 11 => 30
  | 2 => if leap_year y then 29 else 28
  | _ => 0
  end.

(** the days of the [n] years from year [y] on *)
Fixpoint days_of_years (y : Z) (n : nat) : Z :=
  match n with
  | O => 0
  | S n' => year_length y + days_of_years (y + 1) n'
  end.

(** the days of the [n] months of year [y] from month [m] on *)
Fixpoint days_of_months (y m : Z) (n : nat) : Z :=
  match n with
  | O => 0
  | S n' => month_length y m + days_of_months y (m + 1) n'
  end.

(** The days from 1 January 1970 to the day [Y-m-d]: the years in
    between (counted backwards before 1970), the months of [Y] before
    [m], and the days of [m] before [d]. *)
Definition days_since_1970 (Y m d : Z) : Z :=
  (if 1970 <=? Y then days_of_years 1970 (Z.to_nat (Y - 1970))
   else - days_of_years Y (Z.to_nat (1970 - Y)))
  + days_of_months Y 1 (Z.to_nat (m - 1))
  + (d - 1).

(** Seconds from 1970-01-01T00:00:00Z to [Y-m-d]T[H:M]:00Z: days of
    86400 seconds, no time-zone offset. *)
Definition epoch_seconds (Y m d H M : Z) : Z :=
  86400 * days_since_1970 Y m d + 3600 * H + 60 * M.



(** ** Vocabulary of the specification *)

(** the decision warrants a transfer *)
Definition warrants_transfer (dec : TransferDecision) : bool :=
  match dec with
  | NEW | STALE => true
  | UP_TO_DATE => false
  end.

(** the label [http_pull_file] prints for a decision *)
Definition label_of (dec : TransferDecision) : string :=
  match dec with
  | NEW => " (new)"
  | STALE => " (overwrite)"
  | UP_TO_DATE => " (clobber)"
  end.

(** modification time of the local file, if it exists *)
Definition local_mtime (fs : FS) (local_file : string) : option Q :=
  option_map st_mtime (fs !! local_file).

Definition set_PRODUCTS (ps : list string) (a : args) : args :=
  Args (ddir a) ps (RELEASE a) (VERSIONS a) (GRANULES a) (TRACKS a) (YEARS a)
       (SUBDIRECTORY a) (AUXILIARY a) (LIST a) (MODE a) (CLOBBER a).

Definition set_LIST (b : bool) (a : args) : args :=
  Args (ddir a) (PRODUCTS a) (RELEASE a) (VERSIONS a) (GRANULES a) (TRACKS a)
       (YEARS a) (SUBDIRECTORY a) (AUXILIARY a) b (MODE a) (CLOBBER a).


(** ** Scenarios *)

Module Scenario.

Definition product_url (p : string) : string :=
  "https://n5eil01u.ecs.nsidc.org/ATLAS/" +:+ p +:+ ".003".

Definition subdir_url (p : string) : string :=
  product_url p +:+ "/2018.10.14/".

Definition ATL06_file : string := "ATL06_20181014001049_02350102_003_01.h5".
Definition ATL08_file : string := "ATL08_20181014001049_02350102_003_01.h5".

Definition local_ATL06 : string := "/data/ATL06.003/2018.10.14/" +:+ ATL06_file.
Definition local_ATL08 : string := "/data/ATL08.003/2018.10.14/" +:+ ATL08_file.

(** one dated subdirectory per product, one file in it, last modified
    2018-10-15 09:00; nothing is served for [ATL07] *)
Definition pages (url : string) : option page :=
  if String.eqb url (product_url "ATL06") then
    Some (Page ["2018.10.14/"] ["2018-10-15 09:00"])
  else if String.eqb url (subdir_url "ATL06") then
    Some (Page [ATL06_file] ["2018-10-15 09:00"])
  else if String.eqb url (product_url "ATL08") then
    Some (Page ["2018.10.14/"] ["2018-10-15 09:00"])
  else if String.eqb url (subdir_url "ATL08") then
    Some (Page [ATL08_file] ["2018-10-15 09:00"])
  else None.

(** the same archive, with a parent-directory row that has a name but no
    last-modified text at the head of the file listing *)
Definition pages_with_bare_row (url : string) : option page :=
  if String.eqb url (subdir_url "ATL06") then
    Some (Page ["/ATLAS/ATL06.003/"; ATL06_file] ["2018-10-15 09:00"])
  else pages url.

Definition bodies (url : string) : option download :=
  Some (Download "HDF5 bytes" None None).

(** every file body breaks after four bytes: the stream raises *)
Definition broken_bodies (url : string) : option download :=
  Some (Download "HDF5 bytes" (Some 4%nat) None).

(** the connection closes after four bytes of every file body, and the
    stream ends there without raising *)
Definition cut_bodies (url : string) : option download :=
  Some (Download "HDF5 bytes" None (Some 4%nat)).

(** the run happens on 2020-09-13, umask 022; the access times at hand
    are whole seconds, which the float round trip keeps *)
Definition world : env := Env pages bodies (1600000000 # 1) 18 (fun t => t).
Definition broken_world : env :=
  Env pages broken_bodies (1600000000 # 1) 18 (fun t => t).
Definition cut_world : env := Env pages cut_bodies (1600000000 # 1) 18 (fun t => t).
Definition bare_row_world : env :=
  Env pages_with_bare_row bodies (1600000000 # 1) 18 (fun t => t).

(** [--directory=/data --release=003 PRODUCTS], every other option at
    its default *)
Definition run_args (products : list string) (LIST CLOBBER : bool) : args :=
  Args "/data" products "003" default_VERSIONS default_GRANULES default_TRACKS
       YNone None false LIST 509 CLOBBER.

(** the same run narrowed to track 235, granule region 2, version 1 *)
Definition narrow_args (products : list string) (LIST CLOBBER : bool) : args :=
  Args "/data" products "003" [1] [2] [235] YNone None false LIST 509 CLOBBER.

Definition dir_node : node := Node KDir (1600000000 # 1) (1600000000 # 1) 493 "".

(** the local tree after [ATL06] has been fetched from [world] *)
Definition after_ATL06 : FS :=
  <[local_ATL06 := Node KFile (inject_Z 1539594000) (1600000000 # 1) 509 "HDF5 bytes"]>
    (<["/data/ATL06.003/2018.10.14/" := dir_node]> (<["/data" := dir_node]> ∅)).

(** a local copy of 2017 that the archive has a version of 2018 for, and
    the tree once that version has been fetched from [world] *)
Definition stale_tree : FS :=
  <["/data/f" := Node KFile (inject_Z 1500000000) (1500000000 # 1) 420 "old bytes"]> ∅.

Definition fetched_tree : FS :=
  <["/data/f" := Node KFile (inject_Z 1539594000) (1500000000 # 1) 509 "HDF5 bytes"]>
    stale_tree.

(** what a pull from [cut_world] leaves of the file on an empty tree *)
Definition cut_tree : FS :=
  <["/data/f" := Node KFile (inject_Z 1539594000) (1600000000 # 1) 509 "HDF5"]> ∅.


Definition report_ATL06 : list line :=
  [LProduct "ATL06";
   LRemote (subdir_url "ATL06" +:+ ATL06_file);
   LLocal local_ATL06 " (new)"].

(** the same tree after a list-only run for [ATL06] and [ATL08], and
    what that run prints *)
Definition listed_ATL08 : FS :=
  <["/data/ATL08.003/2018.10.14/" := dir_node]> after_ATL06.

Definition report_ATL08 : list line :=
  [LProduct "ATL06";
   LProduct "ATL08";
   LRemote (subdir_url "ATL08" +:+ ATL08_file);
   LLocal local_ATL08 " (new)"].

End Scenario.


(** ** Relating a list-only run to a live run *)

(** The two runs agree on every path that the live run has not yet
    reported, and have reported the same set of local files. *)
Definition agree (fsD fsL : FS) (repD repL : list string) : Prop :=
  (forall x, fsD !! x = fsL !! x \/ In x repL) /\
  (forall x, In x repD <-> In x repL).

(** Whenever the live statement completes, the list-only statement
    completes with the same value and the runs still agree. *)
Definition sim {A : Type} (mD mL : M A) : Prop :=
  forall fsD fsL repD repL a fsL' outL,
    agree fsD fsL repD repL ->
    mL fsL = (Ok a, fsL', outL) ->
    exists fsD' outD,
      mD fsD = (Ok a, fsD', outD) /\
      agree fsD' fsL' (repD ++ reported outD) (repL ++ reported outL).

(** [fs'] differs from [fs] by new directories only. *)
Definition only_new_directories (fs fs' : FS) : Prop :=
  forall path,
    fs' !! path = fs !! path \/
    (fs !! path = None /\ exists nd, fs' !! path = Some nd /\ nkind nd = KDir).

(** [fs'] differs from [fs] by directories only: every file is exactly
    as it was, every directory is still a directory, and whatever is new
    is a directory. *)
Definition files_untouched (fs fs' : FS) : Prop :=
  forall x,
    (forall nd, fs !! x = Some nd -> nkind nd = KFile -> fs' !! x = Some nd) /\
    (forall nd, fs !! x = Some nd -> nkind nd = KDir ->
       exists nd', fs' !! x = Some nd' /\ nkind nd' = KDir) /\
    (fs !! x = None ->
       fs' !! x = None \/ exists nd', fs' !! x = Some nd' /\ nkind nd' = KDir).

(** a statement that keeps a property of the file system, however it ends *)
Definition preserves {A : Type} (I : FS -> Prop) (m : M A) : Prop :=
  forall fs r fs' out, I fs -> m fs = (r, fs', out) -> I fs'.

(** ** Relating a run to the run before it *)

(** Every path of [fs] is still there in [fs'], not older than before. *)
Definition grown (fs fs' : FS) : Prop :=
  forall x nd, fs !! x = Some nd ->
    exists nd', fs' !! x = Some nd' /\ (st_mtime nd <= st_mtime nd')%Q.

(** Once [m] has completed, [m2] completes with the same value on every
    later state without changing it or reporting a file. *)
Definition settles {A : Type} (m m2 : M A) : Prop :=
  forall fs a fs' out,
    m fs = (Ok a, fs', out) ->
    grown fs fs' /\
    forall fs'', grown fs' fs'' ->
      exists out2, m2 fs'' = (Ok a, fs'', out2) /\ reported out2 = [].

(** ** What a run may change *)

(** Every path is as before, or is a directory created where nothing
    was, or is a reported file that replaces a file or nothing. *)
Definition changes_within (fs fs' : FS) (out : list line) : Prop :=
  forall x,
    fs' !! x = fs !! x \/
    (fs !! x = None /\ exists nd, fs' !! x = Some nd /\ nkind nd = KDir) \/
    (In x (reported out) /\
     (forall nd, fs !! x = Some nd -> nkind nd = KFile) /\
     exists nd', fs' !! x = Some nd' /\ nkind nd' = KFile).

(** What a run leaves of the tree it found.  Of a directory only its
    being a directory is claimed, since a directory that receives an
    entry changes with it; a file that was not reported is exactly as it
    was, a reported one is still a file; and a new path is a directory
    or a reported file. *)
Definition touches_only_reported (fs fs' : FS) (out : list line) : Prop :=
  forall x,
    (forall nd, fs !! x = Some nd -> nkind nd = KDir ->
       exists nd', fs' !! x = Some nd' /\ nkind nd' = KDir) /\
    (forall nd, fs !! x = Some nd -> nkind nd = KFile ->
       exists nd', fs' !! x = Some nd' /\ nkind nd' = KFile /\
                   (~ In x (reported out) -> nd' = nd)) /\
    (fs !! x = None ->
       forall nd', fs' !! x = Some nd' -> nkind nd' = KFile -> In x (reported out)).

(** a statement that changes the file system within these bounds,
    however it ends *)
Definition framed {A : Type} (m : M A) : Prop :=
  forall fs r fs' out, m fs = (r, fs', out) -> changes_within fs fs' out.

(** the products a run announced, in order *)
Definition products_of (out : list line) : list string :=
  concat (map (fun l => match l with LProduct p => [p] | _ => [] end) out).

(** a statement that announces no product *)
Definition announces_nothing {A : Type} (m : M A) : Prop :=
  forall fs r fs' out, m fs = (r, fs', out) -> products_of out = [].

(** ** Chronological order *)

(** [a] names an earlier minute than [b]. *)
Definition chron_lt (a b : struct_time) : Prop :=
  tm_year a < tm_year b \/
  (tm_year a = tm_year b /\
   (tm_mon a < tm_mon b \/
    (tm_mon a = tm_mon b /\
     (tm_mday a < tm_mday b \/
      (tm_mday a = tm_mday b /\
       (tm_hour a < tm_hour b \/
        (tm_hour a = tm_hour b /\ tm_min a < tm_min b))))))).

(** a date and a time of day that exist *)
Definition valid_time (t : struct_time) : Prop :=
  valid_date (tm_year t) (tm_mon t) (tm_mday t) = true /\
  0 <= tm_hour t <= 23 /\ 0 <= tm_min t <= 59.

(** the listing text of a time *)
Definition text_of (t : struct_time) : string :=
  lastmod_text (tm_year t) (tm_mon t) (tm_mday t) (tm_hour t) (tm_min t).

(** ** What the year and file matchers are asked with *)

(** A character of a supplied name that stands for itself and for
    nothing else in a verbose pattern. *)
Definition plain_char (c : ascii) : bool :=
  name_char c && negb (Ascii.eqb c ".").

Definition plain_name (n : string) : bool := Str.all plain_char n.

(** the alternatives of a group ['(' + '|'.join(names) + ')']: an empty
    list leaves the empty group *)
Definition alternatives (names : list string) : list string :=
  match names with
  | [] => [""]
  | _ => names
  end.

(** The name starts with one of the years in decimal, any character but
    a line feed, digits, any character but a line feed, digits. *)
Definition year_separated_start (years : list Z) (name : string) : Prop :=
  exists y x b z c rest,
    In y years /\ is_dot x = true /\ digits1 b /\ is_dot z = true /\ digits1 c /\
    name = format_d y +:+ String x (b +:+ String z (c +:+ rest)).

(** The name starts with the product, an underscore, fourteen digits, an
    underscore, one of the tracks on four digits, two digits, one of the
    granule regions on two digits, an underscore, the release, an
    underscore, one of the versions on two digits, any characters but
    line feeds, one more of them, and then [h5] unless auxiliary files
    are wanted. *)
Definition granule_name_start (p RELEASE : string) (VERSIONS GRANULES TRACKS : list Z)
    (AUXILIARY : bool) (f : string) : Prop :=
  exists stamp t cycle g v mid x rest,
    String.length stamp = 14%nat /\ Str.all is_digit stamp = true /\
    In t (alternatives (map (format_0wd 4) TRACKS)) /\
    String.length cycle = 2%nat /\ Str.all is_digit cycle = true /\
    In g (alternatives (map (format_0wd 2) GRANULES)) /\
    In v (alternatives (map (format_0wd 2) VERSIONS)) /\
    Str.all is_dot mid = true /\ is_dot x = true /\
    f = p +:+ "_" +:+ stamp +:+ "_" +:+ t +:+ cycle +:+ g +:+ "_" +:+
        RELEASE +:+ "_" +:+ v +:+ mid +:+
        String x ((if AUXILIARY then "" else "h5") +:+ rest).

(** what [(\d{k})], [(.*?)] and the suffix group compile to *)
Definition digits_group (k : nat) : regex := Cat (rep k Digit) Eps.

Definition lazy_group : regex := Cat (Star Dot) Eps.

Definition suffix_group (AUXILIARY : bool) : regex :=
  if AUXILIARY then lazy_group else Cat (Chr "h") (Cat (Chr "5") Eps).

(** the file pattern compiled, given what its four groups of
    alternatives compile to *)
Definition file_regex (p : string) (gT gG gR gV : regex) (AUXILIARY : bool) : regex :=
  name_cat p
    (Cat (Chr "_")
    (Cat (digits_group 4) (Cat (digits_group 2) (Cat (digits_group 2)
    (Cat (digits_group 2) (Cat (digits_group 2) (Cat (digits_group 2)
    (Cat (Chr "_")
    (Cat gT (Cat (digits_group 2) (Cat gG
    (Cat (Chr "_") (Cat gR (Cat (Chr "_") (Cat gV
    (Cat lazy_group (Cat Dot (Cat (suffix_group AUXILIARY) Eps)))))))))))))))))).

(** consecutive groups [(\d{k1})(\d{k2})...] before [r] *)
Fixpoint digit_groups (ks : list nat) (r : regex) : regex :=
  match ks with
  | [] => r
  | k :: ks' => Cat (digits_group k) (digit_groups ks' r)
  end.

(** ** What a run prints, and what a completed live run leaves *)

(** The report of a run: product lines of requested products, and files
    reported by a line with the remote address followed by a line with
    the local path, the two being the same relative path under the
    archive and under the local root. *)
Inductive mirrored (a : args) : list line -> Prop :=
| mirrored_nil : mirrored a []
| mirrored_product (p : string) (rest : list line) :
    In p (PRODUCTS a) -> mirrored a rest -> mirrored a (LProduct p :: rest)
| mirrored_file (p sd name label : string) (rest : list line) :
    In p (PRODUCTS a) ->
    In label [" (new)"; " (overwrite)"; " (clobber)"] ->
    mirrored a rest ->
    mirrored a
      (LRemote (path_join HOST ["ATLAS"; p +:+ "." +:+ RELEASE a; sd; name]) ::
       LLocal (path_join (ddir a) [p +:+ "." +:+ RELEASE a; sd; name]) label ::
       rest).

(** a statement whose output is such a report, however it ends *)
Definition prints_mirrored {A : Type} (a : args) (m : M A) : Prop :=
  forall fs r fs' out, m fs = (r, fs', out) -> mirrored a out.

(** [l] is the local copy of an entry of the archive as a completed
    transfer leaves it: [l] is the local path of a file listed, in the
    subdirectory [sd] of a requested product, under [name] with the
    last-modified text [text]; the archive serves a body at the address
    of that entry; and [l] is a regular file with mode [MODE] whose
    modification time is the time [text] names and which holds what that
    body handed over. *)
Definition delivered (E : env) (a : args) (fs : FS) (l : string) : Prop :=
  exists p sd pg i name text LMD dl nd,
    In p (PRODUCTS a) /\
    listing E (path_join HOST ["ATLAS"; p +:+ "." +:+ RELEASE a; sd]) = Some pg /\
    colnames pg !! i = Some name /\
    collastmod pg !! i = Some text /\
    strptime (rstrip text) = Some LMD /\
    l = path_join (ddir a) [p +:+ "." +:+ RELEASE a; sd; name] /\
    body E (path_join HOST ["ATLAS"; p +:+ "." +:+ RELEASE a; sd; name]) = Some dl /\
    fails_after dl = None /\
    fs !! l = Some nd /\
    nkind nd = KFile /\
    st_mode nd = MODE a /\
    st_mtime nd = inject_Z (timegm LMD) /\
    contents nd = received dl.

(** a statement that, when it completes, keeps delivered files
    delivered and has delivered every file it reported *)
Definition delivers {A : Type} (E : env) (a : args) (m : M A) : Prop :=
  forall fs x fs' out, m fs = (Ok x, fs', out) ->
    (forall l, delivered E a fs l -> delivered E a fs' l) /\
    (forall l, In l (reported out) -> delivered E a fs' l).

(** * Properties *)

(** ** Strings *)

Lemma str_app_nil_r (s : string) : s +:+ "" = s.
Proof. induction s as [|c s IH]; simpl; [reflexivity | now rewrite IH]. Qed.

Lemma str_app_assoc (s1 s2 s3 : string) :
  (s1 +:+ s2) +:+ s3 = s1 +:+ (s2 +:+ s3).
Proof. induction s1 as [|c s1 IH]; simpl; [reflexivity | now rewrite IH]. Qed.

Lemma str_app_eq_nil (s1 s2 : string) : s1 +:+ s2 = "" -> s1 = "" /\ s2 = "".
Proof. destruct s1; simpl; [auto | discriminate]. Qed.

Lemma str_app_eq_cons (s1 s2 s : string) (c : ascii) :
  s1 +:+ s2 = String c s ->
  (s1 = "" /\ s2 = String c s) \/
  (exists s1', s1 = String c s1' /\ s = s1' +:+ s2).
Proof.
  destruct s1 as [|a s1]; simpl; intros H.
  - left; auto.
  - right. inversion H; subst. now exists s1.
Qed.

Lemma startswith_spec (p s : string) :
  Str.startswith p s = true <-> exists rest, s = p +:+ rest.
Proof.
  revert s; induction p as [|a p IH]; intros s; simpl.
  - split; [intros _; now exists s | reflexivity].
  - destruct s as [|b s].
    + split; [discriminate | intros [r Hr]; discriminate].
    + destruct (Ascii.eqb_spec a b) as [->|Hab].
      * rewrite IH. split; intros [r Hr]; exists r; simpl in *; congruence.
      * split; [discriminate | intros [r Hr]; simpl in Hr; congruence].
Qed.

(** ** The matcher decides the language of the pattern *)

Section RegexSemantics.

Lemma Lang_Void_inv (s : string) : Lang Void s -> False.
Proof. inversion 1. Qed.

Lemma Lang_Eps_inv (s : string) : Lang Eps s -> s = "".
Proof. now inversion 1. Qed.

Lemma Lang_Chr_inv (c : ascii) (s : string) : Lang (Chr c) s -> s = String c "".
Proof. now inversion 1. Qed.

Lemma Lang_Dot_inv (s : string) :
  Lang Dot s -> exists c, s = String c "" /\ is_dot c = true.
Proof. inversion 1; subst; eauto. Qed.

Lemma Lang_Digit_inv (s : string) :
  Lang Digit s -> exists c, s = String c "" /\ is_digit c = true.
Proof. inversion 1; subst; eauto. Qed.

Lemma Lang_Cat_inv (r1 r2 : regex) (s : string) :
  Lang (Cat r1 r2) s ->
  exists s1 s2, s = s1 +:+ s2 /\ Lang r1 s1 /\ Lang r2 s2.
Proof. inversion 1; subst; eauto. Qed.

Lemma Lang_Alt_inv (r1 r2 : regex) (s : string) :
  Lang (Alt r1 r2) s -> Lang r1 s \/ Lang r2 s.
Proof. inversion 1; subst; auto. Qed.

Lemma Lang_cons (r1 r2 : regex) (c : ascii) (s1 s2 : string) :
  Lang r1 (String c s1) -> Lang r2 s2 -> Lang (Cat r1 r2) (String c (s1 +:+ s2)).
Proof.
  intros H1 H2. change (String c (s1 +:+ s2)) with (String c s1 +:+ s2).
  now constructor.
Qed.

Lemma nullable_spec (r : regex) : nullable r = true <-> Lang r "".
Proof.
  induction r as [| | c | | | r1 IH1 r2 IH2 | r1 IH1 r2 IH2 | r IH]; simpl.
  - split; [discriminate | intros H; inversion H].
  - split; [intros _; constructor | reflexivity].
  - split; [discriminate | intros H; inversion H].
  - split; [discriminate | intros H; inversion H].
  - split; [discriminate | intros H; inversion H].
  - rewrite andb_true_iff, IH1, IH2. split.
    + intros [H1 H2]. change "" with ("" +:+ ""). now constructor.
    + intros H. apply Lang_Cat_inv in H as (s1 & s2 & Heq & H1 & H2).
      symmetry in Heq. apply str_app_eq_nil in Heq as [-> ->]. auto.
  - rewrite orb_true_iff, IH1, IH2. split.
    + intros [H|H]; [now apply L_AltL | now apply L_AltR].
    + apply Lang_Alt_inv.
  - split; [intros _; constructor | reflexivity].
Qed.

Lemma star_cons (r : regex) (c : ascii) (s : string) :
  Lang (Star r) (String c s) ->
  exists s1 s2, s = s1 +:+ s2 /\ Lang r (String c s1) /\ Lang (Star r) s2.
Proof.
  intros H. remember (Star r) as q eqn:Hq. remember (String c s) as t eqn:Ht.
  revert s Ht.
  induction H as [| | | | | | | |r' s1 s2 H1 _ H2 IH2]; try discriminate.
  intros s Ht. injection Hq as ->.
  destruct (str_app_eq_cons _ _ _ _ Ht) as [[-> ->]|[s1' [-> ->]]].
  - now apply IH2.
  - now exists s1', s2.
Qed.

Lemma deriv_sound (r : regex) (c : ascii) (s : string) :
  Lang (deriv c r) s -> Lang r (String c s).
Proof.
  revert s.
  induction r as [| | d | | | r1 IH1 r2 IH2 | r1 IH1 r2 IH2 | r IH];
    simpl; intros s H.
  - inversion H.
  - inversion H.
  - destruct (Ascii.eqb_spec d c) as [->|]; inversion H; subst. constructor.
  - destruct (is_dot c) eqn:Hc; inversion H; subst. now constructor.
  - destruct (is_digit c) eqn:Hc; inversion H; subst. now constructor.
  - destruct (nullable r1) eqn:Hn.
    + apply Lang_Alt_inv in H as [H|H].
      * apply Lang_Cat_inv in H as (s1 & s2 & -> & H1 & H2).
        apply Lang_cons; auto.
      * change (String c s) with ("" +:+ String c s).
        constructor; [now apply nullable_spec | auto].
    + apply Lang_Cat_inv in H as (s1 & s2 & -> & H1 & H2).
      apply Lang_cons; auto.
  - apply Lang_Alt_inv in H as [H|H]; [apply L_AltL | apply L_AltR]; auto.
  - apply Lang_Cat_inv in H as (s1 & s2 & -> & H1 & H2).
    change (String c (s1 +:+ s2)) with (String c s1 +:+ s2).
    constructor; auto.
Qed.

Lemma deriv_complete (r : regex) (c : ascii) (s : string) :
  Lang r (String c s) -> Lang (deriv c r) s.
Proof.
  revert s.
  induction r as [| | d | | | r1 IH1 r2 IH2 | r1 IH1 r2 IH2 | r IH];
    simpl; intros s H.
  - inversion H.
  - inversion H.
  - apply Lang_Chr_inv in H. injection H as -> ->.
    rewrite Ascii.eqb_refl. constructor.
  - apply Lang_Dot_inv in H as (c' & Heq & Hc). injection Heq as -> ->.
    rewrite Hc. constructor.
  - apply Lang_Digit_inv in H as (c' & Heq & Hc). injection Heq as -> ->.
    rewrite Hc. constructor.
  - apply Lang_Cat_inv in H as (s1 & s2 & Heq & H1 & H2). symmetry in Heq.
    destruct (str_app_eq_cons _ _ _ _ Heq) as [[-> ->]|[s1' [-> ->]]].
    + apply nullable_spec in H1. rewrite H1. apply L_AltR. auto.
    + destruct (nullable r1).
      * apply L_AltL. constructor; auto.
      * constructor; auto.
  - apply Lang_Alt_inv in H as [H|H]; [apply L_AltL | apply L_AltR]; auto.
  - apply star_cons in H as (s1 & s2 & -> & H1 & H2).
    constructor; auto.
Qed.

Lemma re_fullmatch_spec (r : regex) (s : string) :
  re_fullmatch r s = true <-> Lang r s.
Proof.
  revert r; induction s as [|c s IH]; intros r; simpl.
  - apply nullable_spec.
  - rewrite IH. split; [apply deriv_sound | apply deriv_complete].
Qed.

Lemma re_match_spec (r : regex) (s : string) :
  re_match r s = true <-> exists pre rest, s = pre +:+ rest /\ Lang r pre.
Proof.
  revert r; induction s as [|c s IH]; intros r; simpl.
  - rewrite orb_false_r, nullable_spec. split.
    + intros H. now exists "", "".
    + intros (pre & rest & Heq & H). symmetry in Heq.
      apply str_app_eq_nil in Heq as [-> _]. exact H.
  - rewrite orb_true_iff, IH, nullable_spec. split.
    + intros [H|(pre & rest & -> & H)].
      * now exists "", (String c s).
      * exists (String c pre), rest. split; [reflexivity | now apply deriv_sound].
    + intros (pre & rest & Heq & H). symmetry in Heq.
      destruct (str_app_eq_cons _ _ _ _ Heq) as [[-> _]|[pre' [-> ->]]].
      * now left.
      * right. exists pre', rest. split; [reflexivity | now apply deriv_complete].
Qed.

End RegexSemantics.

(** ** The default subdirectory matcher *)

Lemma Lang_star_digit (s : string) :
  Lang (Star Digit) s <-> Str.all is_digit s = true.
Proof.
  split.
  - intros H. remember (Star Digit) as q eqn:Hq.
    induction H as [| | | | | | | |r s1 s2 H1 _ H2 IH2]; try discriminate.
    + reflexivity.
    + injection Hq as ->. apply Lang_Digit_inv in H1 as (c & -> & Hc).
      simpl. rewrite Hc. now apply IH2.
  - induction s as [|c s IH]; simpl; intros H.
    + constructor.
    + apply andb_true_iff in H as [Hc Hs].
      change (String c s) with (String c "" +:+ s).
      constructor; [now constructor | auto].
Qed.

Lemma Lang_plus_digit (s : string) : Lang (plus Digit) s <-> digits1 s.
Proof.
  unfold plus, digits1. split.
  - intros H. apply Lang_Cat_inv in H as (s1 & s2 & -> & H1 & H2).
    apply Lang_Digit_inv in H1 as (c & -> & Hc).
    apply Lang_star_digit in H2. simpl. rewrite Hc, H2. split; [discriminate | reflexivity].
  - intros [Hne H]. destruct s as [|c s]; [contradiction|].
    simpl in H. apply andb_true_iff in H as [Hc Hs].
    change (String c s) with (String c "" +:+ s).
    constructor; [now constructor | now apply Lang_star_digit].
Qed.

Lemma Lang_Cat_Eps (r : regex) (s : string) : Lang (Cat r Eps) s <-> Lang r s.
Proof.
  split.
  - intros H. apply Lang_Cat_inv in H as (s1 & s2 & -> & H1 & H2).
    apply Lang_Eps_inv in H2 as ->. now rewrite str_app_nil_r.
  - intros H. rewrite <- (str_app_nil_r s). constructor; [auto | constructor].
Qed.

Lemma Lang_Dot_Cat (r : regex) (s : string) :
  Lang (Cat Dot r) s <-> exists x t, is_dot x = true /\ s = String x t /\ Lang r t.
Proof.
  split.
  - intros H. apply Lang_Cat_inv in H as (s1 & s2 & -> & H1 & H2).
    apply Lang_Dot_inv in H1 as (c & -> & Hc). now exists c, s2.
  - intros (x & t & Hx & -> & Ht).
    change (String x t) with (String x "" +:+ t).
    constructor; [now constructor | auto].
Qed.

Lemma default_pattern_compiles :
  re_compile_verbose "(\d+).(\d+).(\d+)" =
  Some (Cat (Cat (plus Digit) Eps)
          (Cat Dot (Cat (Cat (plus Digit) Eps)
             (Cat Dot (Cat (Cat (plus Digit) Eps) Eps))))).
Proof. reflexivity. Qed.

Lemma default_language (s : string) :
  Lang (Cat (Cat (plus Digit) Eps)
          (Cat Dot (Cat (Cat (plus Digit) Eps)
             (Cat Dot (Cat (Cat (plus Digit) Eps) Eps))))) s <->
  exists a x b y c,
    digits1 a /\ is_dot x = true /\ digits1 b /\ is_dot y = true /\ digits1 c /\
    s = a +:+ String x (b +:+ String y c).
Proof.
  split.
  - intros H.
    apply Lang_Cat_inv in H as (a & t1 & -> & Ha & H).
    apply Lang_Cat_Eps, Lang_plus_digit in Ha.
    apply Lang_Dot_Cat in H as (x & t2 & Hx & -> & H).
    apply Lang_Cat_inv in H as (b & t3 & -> & Hb & H).
    apply Lang_Cat_Eps, Lang_plus_digit in Hb.
    apply Lang_Dot_Cat in H as (y & t4 & Hy & -> & H).
    apply Lang_Cat_Eps, Lang_Cat_Eps, Lang_plus_digit in H.
    now exists a, x, b, y, t4.
  - intros (a & x & b & y & c & Ha & Hx & Hb & Hy & Hc & ->).
    constructor; [now apply Lang_Cat_Eps, Lang_plus_digit|].
    apply Lang_Dot_Cat. exists x, (b +:+ String y c). repeat split; [assumption|].
    constructor; [now apply Lang_Cat_Eps, Lang_plus_digit|].
    apply Lang_Dot_Cat. exists y, c. repeat split; [assumption|].
    now apply Lang_Cat_Eps, Lang_Cat_Eps, Lang_plus_digit.
Qed.

(** C10 (as amended): with no explicit subdirectory names and no years,
    the subdirectory matcher is built and accepts exactly the names that
    start with a run of digits, one character other than a line feed, a
    run of digits, one character other than a line feed, and a run of
    digits; the two separators need not be dots. *)
Theorem default_subdirectory_matcher (name : string) :
  R2_match None YNone name = Some true <-> any_separated_start name.
Proof.
  unfold R2_match. simpl R2_pattern. cbv iota beta.
  rewrite default_pattern_compiles. simpl option_map.
  split.
  - intros H. injection H as H. apply re_match_spec in H as (pre & rest & -> & H).
    apply default_language in H as (a & x & b & y & c & Ha & Hx & Hb & Hy & Hc & ->).
    exists a, x, b, y, c, rest.
    do 5 (split; [assumption|]).
    repeat (rewrite str_app_assoc; simpl). reflexivity.
  - intros (a & x & b & y & c & rest & Ha & Hx & Hb & Hy & Hc & ->).
    f_equal. apply re_match_spec.
    exists (a +:+ String x (b +:+ String y c)), rest. split.
    + repeat (rewrite str_app_assoc; simpl). reflexivity.
    + apply default_language. now exists a, x, b, y, c.
Qed.

Lemma mem_app_cons (c : ascii) (a rest : string) : Str.mem c (a +:+ String c rest) = true.
Proof.
  induction a as [|x a IH]; simpl.
  - now rewrite Ascii.eqb_refl.
  - rewrite IH. apply orb_true_r.
Qed.

(** C10 (as stated) fails: [12345] has no dot, yet the default matcher
    accepts it. *)
Lemma default_subdirectory_matcher_not_dotted :
  R2_match None YNone "12345" = Some true /\ ~ dot_separated_start "12345".
Proof.
  split; [reflexivity|].
  intros (a & b & c & rest & _ & _ & _ & H).
  assert (Hm : Str.mem "." "12345" = true).
  { rewrite H. apply (mem_app_cons "." a (b +:+ "." +:+ c +:+ rest)). }
  discriminate Hm.
Qed.

(** ** The matcher built from explicit subdirectory names *)

Section ExplicitNames.

Lemma step_name_char (st : pstate) (c : ascii) :
  name_char c = true -> mode st = PNormal ->
  step st c = Some (push_item (item_of c) st).
Proof.
  unfold name_char, step, step_normal, item_of. intros H ->.
  apply andb_true_iff in H as [Hs Hm].
  apply negb_true_iff in Hs. apply negb_true_iff in Hm.
  simpl in Hm. repeat (apply orb_false_iff in Hm as [? Hm]).
  rewrite Hs.
  repeat match goal with
         | E : Ascii.eqb c _ = false |- _ => rewrite E; clear E
         end.
  simpl. now destruct (Ascii.eqb c ".").
Qed.

Lemma feed_name (n rest : string) (st : pstate) :
  tame_name n = true -> mode st = PNormal ->
  feed st (n +:+ rest) =
  feed (PState (outer st)
               (Frame (branches (inner st)) (rev_items n (items (inner st))))
               PNormal) rest.
Proof.
  unfold tame_name. revert st.
  induction n as [|c n IH]; intros st Hn Hm; simpl.
  - destruct st as [o [bs its] m]; simpl in *. now subst.
  - simpl in Hn. apply andb_true_iff in Hn as [Hc Hn].
    rewrite (step_name_char st c Hc Hm).
    rewrite IH; [reflexivity | assumption | reflexivity].
Qed.

Lemma seq_of_rev_items (n : string) (its : list (regex * bool)) (acc : regex) :
  fold_left (fun a it => Cat (fst it) a) (rev_items n its) acc =
  fold_left (fun a it => Cat (fst it) a) its (name_cat n acc).
Proof.
  revert its acc. induction n as [|c n IH]; intros its acc; simpl.
  - reflexivity.
  - now rewrite IH.
Qed.

Lemma seq_of_name (n : string) : seq_of (rev_items n []) = name_cat n Eps.
Proof. unfold seq_of. now rewrite seq_of_rev_items. Qed.

Lemma Lang_branches (bs : list regex) (r0 : regex) (s : string) :
  Lang (fold_left (fun acc b => Alt b acc) bs r0) s <->
  (exists b, In b bs /\ Lang b s) \/ Lang r0 s.
Proof.
  revert r0. induction bs as [|b bs IH]; intros r0; simpl.
  - split; [now right | intros [(b & [] & _)|H]; exact H].
  - rewrite IH. split.
    + intros [(b' & Hin & H)|H].
      * left. exists b'. auto.
      * apply Lang_Alt_inv in H as [H|H]; [left; exists b; auto | now right].
    + intros [(b' & [<-|Hin] & H)|H].
      * right. now apply L_AltL.
      * left. now exists b'.
      * right. now apply L_AltR.
Qed.

Lemma Lang_name_cat (n : string) (s : string) :
  Lang (name_cat n Eps) s <->
  String.length s = String.length n /\ wild_startswith n s = true.
Proof.
  revert s. induction n as [|a n IH]; intros s; simpl.
  - split.
    + intros H. apply Lang_Eps_inv in H as ->. auto.
    + intros [H _]. destruct s; [constructor | discriminate].
  - split.
    + intros H. apply Lang_Cat_inv in H as (s1 & s2 & -> & H1 & H2).
      apply IH in H2 as [Hlen Hw]. unfold item_of in H1.
      destruct (Ascii.eqb a ".") eqn:Ha.
      * apply Lang_Dot_inv in H1 as (b & -> & Hb). simpl.
        rewrite Hb, Hw, Hlen. auto.
      * apply Lang_Chr_inv in H1 as ->. simpl.
        rewrite Ascii.eqb_refl, Hw, Hlen. auto.
    + intros [Hlen Hw]. destruct s as [|b s]; [discriminate|].
      apply andb_true_iff in Hw as [Hb Hw]. simpl in Hlen.
      change (String b s) with (String b "" +:+ s).
      constructor.
      * unfold item_of. destruct (Ascii.eqb a ".").
        -- now constructor.
        -- apply Ascii.eqb_eq in Hb as ->. constructor.
      * apply IH. split; [lia | assumption].
Qed.

Lemma wild_startswith_spec (n sd : string) :
  wild_startswith n sd = true <->
  exists pre rest, sd = pre +:+ rest /\ Lang (name_cat n Eps) pre.
Proof.
  split.
  - revert sd. induction n as [|a n IH]; intros sd H; simpl in *.
    + exists "", sd. split; [reflexivity | constructor].
    + destruct sd as [|b sd]; [discriminate|].
      apply andb_true_iff in H as [Hb Hw].
      destruct (IH sd Hw) as (pre & rest & -> & Hpre).
      exists (String b pre), rest. split; [reflexivity|].
      apply Lang_name_cat in Hpre as [Hlen Hpre].
      apply (Lang_name_cat (String a n) (String b pre)). simpl.
      rewrite Hb, Hpre, Hlen. auto.
  - intros (pre & rest & -> & H). apply Lang_name_cat in H as [_ H].
    revert pre H. induction n as [|a n IH]; intros pre H; simpl in *.
    + reflexivity.
    + destruct pre as [|b pre]; [discriminate|]. simpl.
      apply andb_true_iff in H as [Hb Hw]. rewrite Hb. simpl. now apply IH.
Qed.

(** Feeding [n1|n2|...|nk] into an empty branch adds one branch per name. *)
Lemma feed_join (ns : list string) (n rest : string) (st : pstate) :
  forallb tame_name (n :: ns) = true ->
  mode st = PNormal -> items (inner st) = [] ->
  exists st',
    feed st (Str.join "|" (n :: ns) +:+ rest) = feed st' rest /\
    outer st' = outer st /\ mode st' = PNormal /\
    forall s, Lang (close_frame (inner st')) s <->
              (exists b, In b (branches (inner st)) /\ Lang b s) \/
              (exists m, In m (n :: ns) /\ Lang (name_cat m Eps) s).
Proof.
  revert n st. induction ns as [|n' ns IH]; intros n st Ht Hm Hi.
  - simpl in Ht. rewrite andb_true_r in Ht. simpl Str.join.
    rewrite (feed_name n rest st Ht Hm), Hi.
    eexists. split; [reflexivity|]. split; [reflexivity|]. split; [reflexivity|].
    intros s. unfold close_frame. simpl. rewrite Lang_branches, seq_of_name.
    split; (intros [H|H]; [now left | right]).
    + exists n. auto.
    + destruct H as (m & [<-|[]] & H). exact H.
  - change (forallb tame_name (n :: n' :: ns)) with
      (tame_name n && forallb tame_name (n' :: ns)) in Ht.
    apply andb_true_iff in Ht as [Hn Ht].
    change (Str.join "|" (n :: n' :: ns)) with
      (n +:+ "|" +:+ Str.join "|" (n' :: ns)).
    rewrite !str_app_assoc. rewrite (feed_name n _ st Hn Hm), Hi.
    change ("|" +:+ Str.join "|" (n' :: ns) +:+ rest) with
      (String "|" (Str.join "|" (n' :: ns) +:+ rest)).
    cbn [feed]. unfold step at 1. cbn [mode].
    change (step_normal ?st "|") with (Some (next_branch st)).
    cbn iota beta.
    edestruct (IH n' (next_branch
                 (PState (outer st)
                    (Frame (branches (inner st)) (rev_items n [])) PNormal)))
      as (st' & Hfeed & Hout & Hmode & Hlang);
      [exact Ht | reflexivity | reflexivity |].
    exists st'. split; [exact Hfeed|]. split; [exact Hout|]. split; [exact Hmode|].
    intros s. rewrite Hlang. cbn [next_branch inner branches items].
    rewrite seq_of_name. split.
    + intros [(b & [<-|Hin] & H)|(m & Hin & H)].
      * right. exists n. split; [now left | exact H].
      * left. now exists b.
      * right. exists m. split; [now right | exact H].
    + intros [(b & Hin & H)|(m & [<-|Hin] & H)].
      * left. exists b. split; [now right | exact H].
      * left. exists (name_cat n Eps). split; [now left | exact H].
      * right. now exists m.
Qed.

Lemma explicit_names_compile (n : string) (ns : list string) :
  forallb tame_name (n :: ns) = true ->
  exists R2,
    re_compile_verbose ("(" +:+ Str.join "|" (n :: ns) +:+ ")") = Some R2 /\
    forall s, Lang R2 s <-> exists m, In m (n :: ns) /\ Lang (name_cat m Eps) s.
Proof.
  intros Ht. unfold re_compile_verbose.
  change ("(" +:+ Str.join "|" (n :: ns) +:+ ")") with
    (String "(" (Str.join "|" (n :: ns) +:+ ")")).
  cbn [feed]. unfold step at 1. cbn [mode].
  change (step_normal ?st "(") with (Some (open_group st)). cbn iota beta.
  destruct (feed_join ns n ")" (open_group (PState [] (Frame [] []) PNormal)) Ht)
    as (st' & Hfeed & Hout & Hmode & Hlang); [reflexivity | reflexivity |].
  rewrite Hfeed. destruct st' as [o f m]. simpl in Hout, Hmode. subst o m.
  exists (Cat (close_frame f) Eps). split; [reflexivity|].
  intros s. rewrite Lang_Cat_Eps. simpl in Hlang. rewrite Hlang.
  split; [intros [(b & [] & _)|H]; exact H | now right].
Qed.

End ExplicitNames.

(** C7 (as amended): when explicit subdirectory names are supplied, each
    made of characters that stand for themselves in a verbose pattern and
    of dots, the matcher accepts a candidate exactly when the candidate
    starts with a string that agrees with one of the supplied names
    character by character, a dot of the supplied name standing for any
    character but a line feed.  The match is anchored at the start only
    and the names are read as patterns. *)
Theorem explicit_subdirectory_matcher
    (n : string) (ns : list string) (YEARS : years_arg) (sd : string) :
  forallb tame_name (n :: ns) = true ->
  R2_match (Some (n :: ns)) YEARS sd =
  Some (existsb (fun m => wild_startswith m sd) (n :: ns)).
Proof.
  intros Ht. unfold R2_match, R2_pattern.
  destruct (explicit_names_compile n ns Ht) as (R2 & -> & Hlang).
  cbn [option_map]. f_equal.
  apply eq_true_iff_eq. rewrite re_match_spec, existsb_exists. split.
  - intros (pre & rest & -> & H). apply Hlang in H as (m & Hin & H).
    exists m. split; [exact Hin|]. apply wild_startswith_spec. now exists pre, rest.
  - intros (m & Hin & H). apply wild_startswith_spec in H as (pre & rest & -> & H).
    exists pre, rest. split; [reflexivity|]. apply Hlang. now exists m.
Qed.

Lemma explicit_subdirectory_matcher_witness :
  R2_match (Some ["2018.10.14"; "2018.10.15"]) YNone "2018.10.15/" =
  Some (existsb (fun m => wild_startswith m "2018.10.15/") ["2018.10.14"; "2018.10.15"]).
Proof. apply explicit_subdirectory_matcher. reflexivity. Defined.

(** C7 (as stated) fails: with the single supplied name [2018.10.14] the
    matcher accepts [2018.10.14/] and [2018x10y14], neither of which is
    the supplied name. *)
Lemma explicit_subdirectory_matcher_not_exact :
  R2_match (Some ["2018.10.14"]) YNone "2018.10.14/" = Some true /\
  ~ In "2018.10.14/" ["2018.10.14"] /\
  R2_match (Some ["2018.10.14"]) YNone "2018x10y14" = Some true /\
  ~ In "2018x10y14" ["2018.10.14"].
Proof.
  repeat split; try reflexivity; intros [H|[]]; discriminate H.
Qed.

(** ** The file matcher *)

(** The pattern of product [ATL06], release [003], with the default
    numeric filters and auxiliary files off. *)
Lemma file_pattern_ATL06 :
  remote_regex_pattern "ATL06" (regex_track [235]) (regex_granule [2]) "003"
    (regex_version [1]) (regex_suffix false) =
  "ATL06_(\d{4})(\d{2})(\d{2})(\d{2})(\d{2})(\d{2})_(0235)(\d{2})(02)_(003)_(01)(.*?).(h5)".
Proof. reflexivity. Qed.

Lemma file_matcher_accepts_h5 :
  R1_match "ATL06" "003" default_VERSIONS default_GRANULES default_TRACKS false
    "ATL06_20181014001049_02350102_003_01.h5" = Some true.
Proof. vm_compute. reflexivity. Qed.

Lemma file_matcher_filters_track :
  R1_match "ATL06" "003" default_VERSIONS default_GRANULES [236] false
    "ATL06_20181014001049_02350102_003_01.h5" = Some false.
Proof. vm_compute. reflexivity. Qed.

(** C4: with auxiliary files off the file matcher is meant to accept
    [.h5] names only, yet it accepts the companion metadata file
    [ATL06_20181014001049_02350102_003_01.h5.iso.xml], whose suffix is not
    [.h5], and a name in which a letter stands where the dot should be:
    the pattern ends in [.(h5)] with the dot unescaped and nothing
    anchoring its end. *)
Theorem file_matcher_accepts_non_h5 :
  R1_match "ATL06" "003" default_VERSIONS default_GRANULES default_TRACKS false
    "ATL06_20181014001049_02350102_003_01.h5.iso.xml" = Some true /\
  endswith ".h5" "ATL06_20181014001049_02350102_003_01.h5.iso.xml" = false /\
  R1_match "ATL06" "003" default_VERSIONS default_GRANULES default_TRACKS false
    "ATL06_20181014001049_02350102_003_01xh5" = Some true /\
  endswith ".h5" "ATL06_20181014001049_02350102_003_01xh5" = false.
Proof. vm_compute. repeat split; reflexivity. Qed.

(** ** Parsing the last-modified text *)

Section Strptime.

#[local] Arguments Ascii.eqb : simpl nomatch.
#[local] Arguments is_space : simpl never.

(** case analysis on an integer known to lie between two literals *)
Ltac enum_cases n lo hi tac :=
  let rec go k :=
    let over := eval compute in (hi <? k) in
    lazymatch over with
    | true => exfalso; lia
    | false =>
        let E := fresh "E" in
        destruct (Z.eq_dec n k) as [E|E];
        [ subst n; tac
        | let k' := eval compute in (k + 1) in go k' ]
    end in
  go lo.

Lemma p_digit_char (a : Z) (rest : string) :
  0 <= a <= 9 -> p_digit 0 9 (String (digit_char a) rest) = [(a, rest)].
Proof.
  intros Ha.
  assert (H : a = 0 \/ a = 1 \/ a = 2 \/ a = 3 \/ a = 4 \/ a = 5 \/ a = 6 \/
              a = 7 \/ a = 8 \/ a = 9) by lia.
  repeat destruct H as [->|H]; try subst a; reflexivity.
Qed.

Lemma is_space_digit_char (a : Z) : 0 <= a <= 9 -> is_space (digit_char a) = false.
Proof.
  intros Ha.
  assert (H : a = 0 \/ a = 1 \/ a = 2 \/ a = 3 \/ a = 4 \/ a = 5 \/ a = 6 \/
              a = 7 \/ a = 8 \/ a = 9) by lia.
  repeat destruct H as [->|H]; try subst a; reflexivity.
Qed.

Lemma p_Y_lit (Y : Z) (rest : string) {A : Type} (k : Z -> parser A) :
  0 <= Y <= 9999 ->
  p_bind p_Y (fun v => p_bind (p_lit "-") (fun _ => k v))
         (four_digits Y +:+ String "-" rest) = k Y rest.
Proof.
  intros HY. unfold four_digits, two_digits, p_Y. cbn [String.append].
  unfold p_bind at 1 2 3 4 5.
  rewrite p_digit_char by (Z.div_mod_to_equations; lia).
  cbn [map concat app].
  rewrite p_digit_char by (Z.div_mod_to_equations; lia).
  cbn [map concat app].
  rewrite p_digit_char by (Z.div_mod_to_equations; lia).
  cbn [map concat app].
  rewrite p_digit_char by (Z.div_mod_to_equations; lia).
  cbn [map concat app p_ret]. unfold p_bind, p_lit. cbn [map concat app].
  rewrite Ascii.eqb_refl. cbn [map concat app]. rewrite !app_nil_r.
  f_equal. Z.div_mod_to_equations. lia.
Qed.

Ltac run_field :=
  match goal with
  | |- context [two_digits ?n] =>
      let t := eval vm_compute in (two_digits n) in
      change (two_digits n) with t
  end;
  unfold p_m, p_d, p_H, p_M, p_or, p_two, p_bind, p_digit, p_lit, p_ret;
  simpl.

Lemma is_space_SP : is_space " " = true.
Proof. reflexivity. Qed.

Lemma p_m_lit (m : Z) (rest : string) {A : Type} (k : Z -> parser A) :
  1 <= m <= 12 ->
  p_bind p_m (fun v => p_bind (p_lit "-") (fun _ => k v))
         (two_digits m +:+ String "-" rest) = k m rest.
Proof.
  intros Hm.
  enum_cases m 1 12 ltac:(run_field; rewrite ?app_nil_r; reflexivity).
Qed.

Lemma p_d_spaces (d : Z) (c : ascii) (rest : string) {A : Type} (k : Z -> parser A) :
  1 <= d <= 31 -> is_space c = false ->
  p_bind p_d (fun v => p_bind p_spaces1 (fun _ => k v))
         (two_digits d +:+ String " " (String c rest)) = k d (String c rest).
Proof.
  intros Hd Hc.
  enum_cases d 1 31
    ltac:(run_field; rewrite ?is_space_SP, ?Hc; simpl; rewrite ?app_nil_r; reflexivity).
Qed.

Lemma p_H_lit (H : Z) (rest : string) {A : Type} (k : Z -> parser A) :
  0 <= H <= 23 ->
  p_bind p_H (fun v => p_bind (p_lit ":") (fun _ => k v))
         (two_digits H +:+ String ":" rest) = k H rest.
Proof.
  intros HH.
  enum_cases H 0 23 ltac:(run_field; rewrite ?app_nil_r; reflexivity).
Qed.

Lemma p_M_end (M : Z) {A : Type} (f : Z -> A) :
  0 <= M <= 59 ->
  exists tl, p_bind p_M (fun v => p_ret (f v)) (two_digits M) = (f M, "") :: tl.
Proof.
  intros HM.
  enum_cases M 0 59 ltac:(run_field; eexists; reflexivity).
Qed.

Lemma p_d_spaces_H (d H : Z) (rest : string) {A : Type} (k : Z -> parser A) :
  1 <= d <= 31 -> 0 <= H <= 23 ->
  p_bind p_d (fun v => p_bind p_spaces1 (fun _ => k v))
         (two_digits d +:+ String " " (two_digits H +:+ rest)) =
  k d (two_digits H +:+ rest).
Proof.
  intros Hd HH.
  apply (p_d_spaces d (digit_char (H / 10))
           (String (digit_char (H mod 10)) rest) k Hd).
  apply is_space_digit_char. Z.div_mod_to_equations. lia.
Qed.

Lemma days_in_month_le (Y m : Z) : 1 <= m <= 12 -> 28 <= days_in_month Y m <= 31.
Proof.
  intros Hm. unfold days_in_month.
  enum_cases m 1 12 ltac:(destruct (is_leap Y); simpl; lia).
Qed.

Lemma valid_date_bounds (Y m d : Z) :
  valid_date Y m d = true ->
  1 <= Y <= 9999 /\ 1 <= m <= 12 /\ 1 <= d <= days_in_month Y m /\ d <= 31.
Proof.
  unfold valid_date. rewrite !andb_true_iff, !Z.leb_le.
  intros [[[[[? ?] ?] ?] ?] ?].
  pose proof (days_in_month_le Y m ltac:(lia)). lia.
Qed.

Lemma format_regex_lastmod (Y m d H M : Z) :
  valid_date Y m d = true -> 0 <= H <= 23 -> 0 <= M <= 59 ->
  exists tl,
    format_regex (lastmod_text Y m d H M) = (StructTime Y m d H M, "") :: tl.
Proof.
  intros Hv HH HM. apply valid_date_bounds in Hv as (HY & Hm & Hd & Hd').
  unfold format_regex, lastmod_text.
  repeat change ("-" +:+ ?x) with (String "-" x).
  change (" " +:+ ?x) with (String " " x).
  change (":" +:+ ?x) with (String ":" x).
  rewrite p_Y_lit by lia. cbv beta. rewrite p_m_lit by lia. cbv beta.
  rewrite p_d_spaces_H by lia. cbv beta. rewrite p_H_lit by lia. cbv beta.
  apply (p_M_end M (fun v => StructTime Y m d H v) HM).
Qed.

Lemma strptime_lastmod (Y m d H M : Z) :
  valid_date Y m d = true -> 0 <= H <= 23 -> 0 <= M <= 59 ->
  strptime (lastmod_text Y m d H M) = Some (StructTime Y m d H M).
Proof.
  intros Hv HH HM. unfold strptime.
  destruct (format_regex_lastmod Y m d H M Hv HH HM) as (tl & ->).
  cbn [tm_year tm_mon tm_mday]. now rewrite Hv.
Qed.

Lemma rstrip_spaces (ws : string) : Str.all is_space ws = true -> rstrip ws = "".
Proof.
  induction ws as [|c ws IH]; simpl; [reflexivity|].
  intros H. apply andb_true_iff in H as [Hc Hws]. now rewrite IH, Hc.
Qed.

Lemma rstrip_app_spaces (s ws : string) :
  Str.all is_space ws = true -> rstrip (s +:+ ws) = rstrip s.
Proof.
  intros Hws. induction s as [|c s IH]; simpl.
  - now apply rstrip_spaces.
  - now rewrite IH.
Qed.

Lemma rstrip_lastmod (Y m d H M : Z) :
  0 <= M <= 59 -> rstrip (lastmod_text Y m d H M) = lastmod_text Y m d H M.
Proof.
  intros HM. unfold lastmod_text, four_digits, two_digits.
  cbn [String.append rstrip].
  rewrite (is_space_digit_char (M mod 10)) by (Z.div_mod_to_equations; lia).
  reflexivity.
Qed.

Lemma timegm_utc (Y m d H M : Z) :
  timegm (StructTime Y m d H M) = utc_epoch Y m d H M.
Proof.
  unfold timegm, utc_epoch, EPOCH_ORD, ymd2ord. cbn [tm_year tm_mon tm_mday tm_hour tm_min].
  lia.
Qed.

(** The last-modified text of a listing, with whatever white space
    trails it, is read as the UTC time it spells. *)
Lemma remote_mtime_of_lastmod (Y m d H M : Z) (ws : string) :
  valid_date Y m d = true -> 0 <= H <= 23 -> 0 <= M <= 59 ->
  Str.all is_space ws = true ->
  remote_mtime_of (lastmod_text Y m d H M +:+ ws) = Some (utc_epoch Y m d H M).
Proof.
  intros Hv HH HM Hws. unfold remote_mtime_of.
  rewrite rstrip_app_spaces, rstrip_lastmod, strptime_lastmod by assumption.
  cbn [option_map]. now rewrite timegm_utc.
Qed.

(** The ordinal of [datetime.date] counts civil days: the day after
    [Y-m-d] has the next ordinal, so [utc_epoch] advances by 86400. *)
Lemma days_before_next_year (Y : Z) :
  days_before_year (Y + 1) = days_before_year Y + (if is_leap Y then 366 else 365).
Proof.
  unfold days_before_year, is_leap.
  replace (Y + 1 - 1) with Y by lia.
  destruct (Y mod 4 =? 0) eqn:E4; destruct (Y mod 100 =? 0) eqn:E100;
    destruct (Y mod 400 =? 0) eqn:E400; cbn [andb orb negb];
    rewrite ?Z.eqb_eq, ?Z.eqb_neq in *;
    Z.div_mod_to_equations; lia.
Qed.

Lemma ymd2ord_next_day (Y m d : Z) :
  valid_date Y m d = true ->
  let '(Y', m', d') := next_day Y m d in
  ymd2ord Y' m' d' = ymd2ord Y m d + 1.
Proof.
  intros Hv. apply valid_date_bounds in Hv as (HY & Hm & Hd & _).
  unfold next_day.
  destruct (d <? days_in_month Y m) eqn:Hlt.
  - unfold ymd2ord. lia.
  - apply Z.ltb_ge in Hlt. assert (d = days_in_month Y m) as -> by lia.
    destruct (m <? 12) eqn:Hm12.
    + apply Z.ltb_lt in Hm12. unfold ymd2ord, days_before_month, days_in_month.
      enum_cases m 1 11 ltac:(destruct (is_leap Y); simpl; lia).
    + apply Z.ltb_ge in Hm12. assert (m = 12) as -> by lia.
      unfold ymd2ord. rewrite days_before_next_year.
      unfold days_before_month, days_in_month.
      destruct (is_leap Y); simpl; lia.
Qed.

(** [utc_epoch] is 0 at the epoch, grows by 60 with the minute, by 3600
    with the hour and by 86400 with the civil day. *)
Lemma utc_epoch_steps (Y m d H M : Z) :
  valid_date Y m d = true ->
  utc_epoch 1970 1 1 0 0 = 0 /\
  utc_epoch Y m d H (M + 1) = utc_epoch Y m d H M + 60 /\
  utc_epoch Y m d (H + 1) M = utc_epoch Y m d H M + 3600 /\
  (let '(Y', m', d') := next_day Y m d in
   utc_epoch Y' m' d' H M = utc_epoch Y m d H M + 86400).
Proof.
  intros Hv. split; [reflexivity|].
  split; [unfold utc_epoch; lia|]. split; [unfold utc_epoch; lia|].
  pose proof (ymd2ord_next_day Y m d Hv) as Hn.
  destruct (next_day Y m d) as [[Y' m'] d']. unfold utc_epoch. lia.
Qed.

End Strptime.

(** ** Running statements *)

Section Running.

Lemma Qltb_lt (a b : Q) : Qltb a b = true <-> (a < b)%Q.
Proof.
  unfold Qltb. rewrite negb_true_iff. split.
  - intros H. apply Qnot_le_lt. intros Hle.
    apply Qle_bool_iff in Hle. congruence.
  - intros H. destruct (Qle_bool b a) eqn:E; [|reflexivity].
    apply Qle_bool_iff in E. exfalso. exact (Qlt_not_le _ _ H E).
Qed.

Lemma Qltb_irrefl (a : Q) : Qltb a a = false.
Proof.
  destruct (Qltb a a) eqn:E; [|reflexivity].
  apply Qltb_lt in E. exfalso. exact (Qlt_irrefl _ E).
Qed.

Lemma bind_ok {A B : Type} (m : M A) (k : A -> M B) (fs fs1 : FS)
    (a : A) (out1 : list line) :
  m fs = (Ok a, fs1, out1) ->
  bind m k fs = (let '(r, fs2, out2) := k a fs1 in (r, fs2, out1 ++ out2)).
Proof. intros H. unfold bind. rewrite H. now destruct (k a fs1) as [[r fs2] out2]. Qed.

Lemma bind_raise {A B : Type} (m : M A) (k : A -> M B) (fs fs1 : FS)
    (e : exn) (out1 : list line) :
  m fs = (Raise e, fs1, out1) -> bind m k fs = (Raise e, fs1, out1).
Proof. intros H. unfold bind. now rewrite H. Qed.

Lemma bind_ext {A B : Type} (m : M A) (k k' : A -> M B) (fs : FS) :
  (forall a fs', k a fs' = k' a fs') -> bind m k fs = bind m k' fs.
Proof.
  intros H. unfold bind. destruct (m fs) as [[[a|e] fs1] out1]; [|reflexivity].
  now rewrite H.
Qed.

Lemma bind_assoc {A B C : Type} (m : M A) (k : A -> M B) (h : B -> M C) (fs : FS) :
  bind (bind m k) h fs = bind m (fun a => bind (k a) h) fs.
Proof.
  unfold bind. destruct (m fs) as [[[a|e] fs1] out1]; [|reflexivity].
  destruct (k a fs1) as [[[b|e] fs2] out2]; [|reflexivity].
  destruct (h b fs2) as [[r fs3] out3]. now rewrite app_assoc.
Qed.

Lemma bind_get {B : Type} (k : FS -> M B) (fs : FS) :
  bind get_fs k fs = k fs fs.
Proof. unfold bind, get_fs. now destruct (k fs fs) as [[r fs2] out2]. Qed.

Lemma bind_raise_l {A B : Type} (e : exn) (k : A -> M B) (fs : FS) :
  bind (raise e) k fs = (Raise e, fs, []).
Proof. reflexivity. Qed.

Lemma bind_ret_l {A B : Type} (a : A) (k : A -> M B) (fs : FS) :
  bind (ret a) k fs = k a fs.
Proof. unfold bind, ret. now destruct (k a fs) as [[r fs2] out2]. Qed.

Lemma for_each_app {A : Type} (xs ys : list A) (body : A -> M unit) (fs : FS) :
  for_each (xs ++ ys) body fs = (for_each xs body ;;; for_each ys body) fs.
Proof.
  revert fs. induction xs as [|x xs IH]; intros fs; simpl.
  - now rewrite bind_ret_l.
  - rewrite bind_assoc. apply bind_ext. intros _ fs'. apply IH.
Qed.

Lemma for_each_ext {A : Type} (xs : list A) (body body' : A -> M unit) (fs : FS) :
  (forall x fs', In x xs -> body x fs' = body' x fs') ->
  for_each xs body fs = for_each xs body' fs.
Proof.
  revert fs. induction xs as [|x xs IH]; intros fs H; simpl; [reflexivity|].
  unfold bind. rewrite (H x fs) by now left.
  destruct (body' x fs) as [[[[]|e] fs1] out1]; [|reflexivity].
  rewrite IH; [reflexivity|]. intros y fs' Hy. apply H. now right.
Qed.

End Running.

(** ** The transfer decision *)

Section Decision.

Variables (fs : FS) (local_file : string) (remote_mtime : Z).

Local Abbreviation dec := (decision_spec (local_mtime fs local_file) remote_mtime).

Lemma decision_new : dec = NEW <-> fs !! local_file = None.
Proof.
  unfold local_mtime, decision_spec.
  destruct (fs !! local_file) as [nd|]; cbn [option_map].
  - destruct (Qltb _ _); split; discriminate.
  - split; reflexivity.
Qed.

Lemma decision_stale :
  dec = STALE <->
  exists nd, fs !! local_file = Some nd /\ (st_mtime nd < inject_Z remote_mtime)%Q.
Proof.
  unfold local_mtime, decision_spec.
  destruct (fs !! local_file) as [nd|]; cbn [option_map].
  - destruct (Qltb (st_mtime nd) (inject_Z remote_mtime)) eqn:Hlt.
    + apply Qltb_lt in Hlt. split; [intros _; now exists nd | reflexivity].
    + split; [discriminate|]. intros (nd' & Heq & Hlt'). injection Heq as <-.
      apply Qltb_lt in Hlt'. congruence.
  - split; [discriminate | intros (nd' & Heq & _); discriminate].
Qed.

Lemma decision_up_to_date :
  dec = UP_TO_DATE <->
  exists nd, fs !! local_file = Some nd /\ ~ (st_mtime nd < inject_Z remote_mtime)%Q.
Proof.
  unfold local_mtime, decision_spec.
  destruct (fs !! local_file) as [nd|]; cbn [option_map].
  - destruct (Qltb (st_mtime nd) (inject_Z remote_mtime)) eqn:Hlt.
    + apply Qltb_lt in Hlt. split; [discriminate|].
      intros (nd' & Heq & Hn). injection Heq as <-. contradiction.
    + split; [|reflexivity]. intros _. exists nd. split; [reflexivity|].
      intros H. apply Qltb_lt in H. congruence.
  - split; [discriminate | intros (nd' & Heq & _); discriminate].
Qed.

Lemma pull_test_decision :
  pull_test fs remote_mtime local_file = (warrants_transfer dec, label_of dec).
Proof.
  unfold pull_test, local_mtime, decision_spec.
  destruct (fs !! local_file) as [nd|]; cbn [option_map]; [|reflexivity].
  now destruct (Qltb (st_mtime nd) (inject_Z remote_mtime)).
Qed.

Lemma selected_iff (CLOBBER : bool) :
  warrants_transfer dec || CLOBBER = true <->
  dec = NEW \/ dec = STALE \/ CLOBBER = true.
Proof.
  destruct dec, CLOBBER; cbn; split; auto; intros [H|[H|H]]; congruence.
Qed.

Lemma http_pull_file_unfold (E : env) (remote_file : string)
    (LIST CLOBBER : bool) (MODE : Z) :
  http_pull_file E remote_file remote_mtime local_file LIST CLOBBER MODE fs =
    if warrants_transfer dec || CLOBBER
    then (print (LRemote remote_file) ;;;
          print (LLocal local_file (label_of dec)) ;;;
          if LIST then ret tt
          else transfer E remote_file remote_mtime local_file MODE) fs
    else (Ok tt, fs, []).
Proof.
  unfold http_pull_file. rewrite bind_get, pull_test_decision.
  destruct (warrants_transfer dec || CLOBBER); [|reflexivity].
  now destruct LIST.
Qed.

End Decision.

(** ** The transfer primitive *)

Section Transfer.

Lemma lift_some {A : Type} (e : exn) (a : A) : lift e (Some a) = ret a.
Proof. reflexivity. Qed.

Lemma makedirs_if_absent_run (E : env) (path : string) (MODE : Z) (fs : FS) :
  makedirs_if_absent E path MODE fs =
  match fs !! path with
  | Some _ => (Ok tt, fs, [])
  | None =>
      (Ok tt, <[path := Node KDir (now E) (now E) (Z.ldiff MODE (umask E)) ""]> fs, [])
  end.
Proof.
  unfold makedirs_if_absent, path_exists, makedirs. rewrite bind_get.
  destruct (fs !! path); cbn [negb]; [reflexivity | now rewrite bind_get].
Qed.

Lemma update_node_run (path : string) (f : node -> node) (fs : FS) (nd : node) :
  fs !! path = Some nd ->
  update_node path f fs = (Ok tt, <[path := f nd]> fs, []).
Proof. intros H. unfold update_node. now rewrite bind_get, H. Qed.

Lemma opened_node_empty (E : env) (fs : FS) (path : string) (nd : node) :
  opened_node E fs path = Some nd -> contents nd = "".
Proof.
  unfold opened_node. destruct (fs !! path) as [nd0|].
  - destruct (nkind nd0); [|discriminate]. now intros [= <-].
  - now intros [= <-].
Qed.

(** what the statements of the transfer add up to *)
Lemma transfer_run (E : env) (remote_file local_file : string)
    (remote_mtime MODE : Z) (fs : FS) :
  transfer E remote_file remote_mtime local_file MODE fs =
  match body E remote_file with
  | None => (Raise URLError, fs, [])
  | Some dl =>
      match opened_node E fs local_file with
      | None => (Raise IsADirectoryError, fs, [])
      | Some nd =>
          match fails_after dl with
          | Some k =>
              (Raise TransferInterrupted,
               <[local_file := Node KFile (now E) (st_atime nd) (st_mode nd)
                                    (take k (received dl))]> fs,
               [])
          | None =>
              (Ok tt,
               <[local_file := Node KFile (inject_Z remote_mtime)
                                    (utime_atime E (st_atime nd)) MODE
                                    (received dl)]> fs,
               [])
          end
      end
  end.
Proof.
  unfold transfer. destruct (body E remote_file) as [dl|]; [|reflexivity].
  rewrite lift_some, bind_ret_l. unfold open_wb at 1.
  rewrite bind_assoc, bind_get.
  destruct (opened_node E fs local_file) as [nd|] eqn:Ho; [|reflexivity].
  apply opened_node_empty in Ho.
  unfold bind at 1, put_fs at 1. unfold copyfileobj, write.
  destruct (fails_after dl) as [k|].
  - rewrite !bind_assoc.
    rewrite (bind_ok _ _ _ _ _ _
               (update_node_run local_file _ _ nd (lookup_insert_eq _ _ _))).
    rewrite insert_insert_eq, bind_raise_l, Ho. reflexivity.
  - rewrite (bind_ok _ _ _ _ _ _
               (update_node_run local_file _ _ nd (lookup_insert_eq _ _ _))).
    rewrite insert_insert_eq, Ho. unfold utime.
    rewrite (bind_ok _ _ _ _ _ _
               (update_node_run local_file _ _ _ (lookup_insert_eq _ _ _))).
    rewrite insert_insert_eq. unfold chmod.
    rewrite (update_node_run local_file _ _ _ (lookup_insert_eq _ _ _)).
    rewrite insert_insert_eq. reflexivity.
Qed.

Lemma opened_node_file (E : env) (fs : FS) (local_file : string) :
  (forall nd, fs !! local_file = Some nd -> nkind nd = KFile) ->
  exists nd, opened_node E fs local_file = Some nd.
Proof.
  intros Hk. unfold opened_node. destruct (fs !! local_file) as [nd|].
  - rewrite (Hk nd eq_refl). eauto.
  - eauto.
Qed.

Lemma transfer_completes (E : env) (remote_file local_file : string)
    (remote_mtime MODE : Z) (fs : FS) (dl : download) :
  body E remote_file = Some dl -> fails_after dl = None ->
  (forall nd, fs !! local_file = Some nd -> nkind nd = KFile) ->
  exists atime,
    transfer E remote_file remote_mtime local_file MODE fs =
    (Ok tt,
     <[local_file := Node KFile (inject_Z remote_mtime) atime MODE (received dl)]> fs,
     []).
Proof.
  intros Hb Hf Hk. rewrite transfer_run, Hb, Hf.
  destruct (opened_node_file E fs local_file Hk) as (nd & ->). eauto.
Qed.

Lemma transfer_interrupted (E : env) (remote_file local_file : string)
    (remote_mtime MODE : Z) (fs : FS) (dl : download) (k : nat) :
  body E remote_file = Some dl -> fails_after dl = Some k ->
  (forall nd, fs !! local_file = Some nd -> nkind nd = KFile) ->
  exists atime mode,
    transfer E remote_file remote_mtime local_file MODE fs =
    (Raise TransferInterrupted,
     <[local_file := Node KFile (now E) atime mode (take k (received dl))]> fs,
     []).
Proof.
  intros Hb Hf Hk. rewrite transfer_run, Hb, Hf.
  destruct (opened_node_file E fs local_file Hk) as (nd & ->). eauto.
Qed.

Lemma transfer_ok_mtime (E : env) (remote_file local_file : string)
    (remote_mtime MODE : Z) (fs fs' : FS) (out : list line) :
  transfer E remote_file remote_mtime local_file MODE fs = (Ok tt, fs', out) ->
  out = [] /\
  exists nd, fs' = <[local_file := nd]> fs /\ st_mtime nd = inject_Z remote_mtime.
Proof.
  rewrite transfer_run. destruct (body E remote_file) as [dl|]; [|discriminate].
  destruct (opened_node E fs local_file) as [nd|]; [|discriminate].
  destruct (fails_after dl); [discriminate|].
  intros H. injection H as <- <-. split; [reflexivity|].
  eexists. split; reflexivity.
Qed.

Lemma http_pull_file_new (E : env) (remote_file local_file : string)
    (remote_mtime MODE : Z) (CLOBBER : bool) (fs : FS) (dl : download) :
  body E remote_file = Some dl -> fails_after dl = None ->
  fs !! local_file = None ->
  http_pull_file E remote_file remote_mtime local_file false CLOBBER MODE fs =
  (Ok tt,
   <[local_file := Node KFile (inject_Z remote_mtime) (utime_atime E (now E)) MODE
                        (received dl)]> fs,
   [LRemote remote_file; LLocal local_file " (new)"]).
Proof.
  intros Hb Hf Hl. unfold http_pull_file, pull_test.
  rewrite bind_get, Hl. cbn [orb negb].
  unfold bind at 1 2, print. rewrite transfer_run, Hb, Hf.
  unfold opened_node. now rewrite Hl.
Qed.

End Transfer.

(** ** What a pull does *)

(** the result of [http_pull_file], statement by statement *)
Lemma http_pull_file_run (E : env) (remote_file local_file : string)
    (remote_mtime MODE : Z) (LIST CLOBBER : bool) (fs : FS) :
  http_pull_file E remote_file remote_mtime local_file LIST CLOBBER MODE fs =
  let dec := decision_spec (local_mtime fs local_file) remote_mtime in
  let lines := [LRemote remote_file; LLocal local_file (label_of dec)] in
  if warrants_transfer dec || CLOBBER then
    if LIST then (Ok tt, fs, lines)
    else
      match body E remote_file with
      | None => (Raise URLError, fs, lines)
      | Some dl =>
          match opened_node E fs local_file with
          | None => (Raise IsADirectoryError, fs, lines)
          | Some nd =>
              match fails_after dl with
              | Some k =>
                  (Raise TransferInterrupted,
                   <[local_file := Node KFile (now E) (st_atime nd) (st_mode nd)
                                        (take k (received dl))]> fs,
                   lines)
              | None =>
                  (Ok tt,
                   <[local_file := Node KFile (inject_Z remote_mtime)
                                        (utime_atime E (st_atime nd)) MODE
                                        (received dl)]> fs,
                   lines)
              end
          end
      end
  else (Ok tt, fs, []).
Proof.
  rewrite http_pull_file_unfold. cbv zeta.
  destruct (warrants_transfer _ || CLOBBER); [|reflexivity].
  unfold bind at 1 2, print. destruct LIST; [reflexivity|].
  rewrite transfer_run.
  destruct (body E remote_file) as [dl|]; [|reflexivity].
  destruct (opened_node E fs local_file) as [nd|]; [|reflexivity].
  now destruct (fails_after dl).
Qed.

(** C1 (as amended): the decision compares the remote last-modified
    epoch seconds with the modification time of the local file: NEW when
    there is no local file, STALE when there is one and its modification
    time is strictly less than the remote timestamp, UP_TO_DATE
    otherwise.  A file is selected exactly when the decision is NEW or
    STALE or the clobber flag is set.  A file that is not selected is
    neither reported nor touched.  A selected file is reported with the
    label of its decision.  In a list-only run that is all: nothing is
    written.  In a live run, a pull that returns without an exception
    has transferred the file: the local file holds what arrived of the
    body and carries the remote timestamp and [MODE]. *)
Theorem transfer_decision
    (E : env) (fs fs' : FS) (remote_file local_file : string) (remote_mtime : Z)
    (LIST CLOBBER : bool) (MODE : Z) (r : outcome unit) (out : list line) :
  http_pull_file E remote_file remote_mtime local_file LIST CLOBBER MODE fs =
    (r, fs', out) ->
  (decision_spec (local_mtime fs local_file) remote_mtime = NEW <->
     fs !! local_file = None) /\
  (decision_spec (local_mtime fs local_file) remote_mtime = STALE <->
     exists nd, fs !! local_file = Some nd /\
                (st_mtime nd < inject_Z remote_mtime)%Q) /\
  (decision_spec (local_mtime fs local_file) remote_mtime = UP_TO_DATE <->
     exists nd, fs !! local_file = Some nd /\
                ~ (st_mtime nd < inject_Z remote_mtime)%Q) /\
  (~ (decision_spec (local_mtime fs local_file) remote_mtime = NEW \/
      decision_spec (local_mtime fs local_file) remote_mtime = STALE \/
      CLOBBER = true) ->
   r = Ok tt /\ fs' = fs /\ out = []) /\
  (decision_spec (local_mtime fs local_file) remote_mtime = NEW \/
   decision_spec (local_mtime fs local_file) remote_mtime = STALE \/
   CLOBBER = true ->
   out = [LRemote remote_file;
          LLocal local_file
            (label_of (decision_spec (local_mtime fs local_file) remote_mtime))] /\
   (LIST = true -> r = Ok tt /\ fs' = fs) /\
   (LIST = false -> r = Ok tt ->
    exists dl nd,
      body E remote_file = Some dl /\ fs' = <[local_file := nd]> fs /\
      nkind nd = KFile /\ contents nd = received dl /\
      st_mtime nd = inject_Z remote_mtime /\ st_mode nd = MODE)).
Proof.
  intros Hrun.
  split; [apply decision_new|].
  split; [apply decision_stale|].
  split; [apply decision_up_to_date|].
  rewrite <- (selected_iff fs local_file remote_mtime CLOBBER).
  rewrite http_pull_file_run in Hrun. cbv zeta in Hrun.
  destruct (warrants_transfer _ || CLOBBER).
  2:{ injection Hrun as <- <- <-. split; [auto | discriminate]. }
  split; [intros Hn; now destruct Hn|]. intros _.
  destruct LIST.
  { injection Hrun as <- <- <-. repeat split; discriminate. }
  destruct (body E remote_file) as [dl|] eqn:Hb.
  2:{ injection Hrun as <- <- <-. repeat split; discriminate. }
  destruct (opened_node E fs local_file) as [nd0|].
  2:{ injection Hrun as <- <- <-. repeat split; discriminate. }
  destruct (fails_after dl).
  { injection Hrun as <- <- <-. repeat split; discriminate. }
  injection Hrun as <- <- <-.
  split; [reflexivity|]. split; [discriminate|]. intros _ _.
  eexists dl, _. repeat split.
Qed.

Lemma transfer_decision_witness :
  (decision_spec (local_mtime Scenario.stale_tree "/data/f") 1539594000 = NEW <->
     Scenario.stale_tree !! "/data/f" = None) /\
  (decision_spec (local_mtime Scenario.stale_tree "/data/f") 1539594000 = STALE <->
     exists nd, Scenario.stale_tree !! "/data/f" = Some nd /\
                (st_mtime nd < inject_Z 1539594000)%Q) /\
  (decision_spec (local_mtime Scenario.stale_tree "/data/f") 1539594000 = UP_TO_DATE <->
     exists nd, Scenario.stale_tree !! "/data/f" = Some nd /\
                ~ (st_mtime nd < inject_Z 1539594000)%Q) /\
  (~ (decision_spec (local_mtime Scenario.stale_tree "/data/f") 1539594000 = NEW \/
      decision_spec (local_mtime Scenario.stale_tree "/data/f") 1539594000 = STALE \/
      false = true) ->
   Ok tt = Ok tt /\ Scenario.fetched_tree = Scenario.stale_tree /\
   [LRemote "u"; LLocal "/data/f" " (overwrite)"] = []) /\
  (decision_spec (local_mtime Scenario.stale_tree "/data/f") 1539594000 = NEW \/
   decision_spec (local_mtime Scenario.stale_tree "/data/f") 1539594000 = STALE \/
   false = true ->
   [LRemote "u"; LLocal "/data/f" " (overwrite)"] =
   [LRemote "u";
    LLocal "/data/f"
      (label_of (decision_spec (local_mtime Scenario.stale_tree "/data/f")
                   1539594000))] /\
   (false = true -> Ok tt = Ok tt /\ Scenario.fetched_tree = Scenario.stale_tree) /\
   (false = false -> Ok tt = Ok tt ->
    exists dl nd,
      body Scenario.world "u" = Some dl /\
      Scenario.fetched_tree = <["/data/f" := nd]> Scenario.stale_tree /\
      nkind nd = KFile /\ contents nd = received dl /\
      st_mtime nd = inject_Z 1539594000 /\ st_mode nd = 509)).
Proof.
  apply (transfer_decision Scenario.world Scenario.stale_tree Scenario.fetched_tree
           "u" "/data/f" 1539594000 false false 509 (Ok tt)
           [LRemote "u"; LLocal "/data/f" " (overwrite)"]).
  reflexivity.
Defined.

(** C1 (as stated) fails: in a list-only run the decision for an absent
    file is NEW and the file is reported, yet it is not transferred. *)
Lemma listed_file_not_transferred :
  let '(r, fs', out) :=
    http_pull_file Scenario.world "u" 1539594000 "/data/f" true false 509 ∅ in
  decision_spec (local_mtime ∅ "/data/f") 1539594000 = NEW /\
  r = Ok tt /\
  out = [LRemote "u"; LLocal "/data/f" " (new)"] /\
  fs' !! "/data/f" = None.
Proof. vm_compute. repeat split; reflexivity. Qed.

(** ** From the last-modified text to the local modification time *)

Section Calendar.

Ltac enum_cases n lo hi tac :=
  let rec go k :=
    let over := eval compute in (hi <? k) in
    lazymatch over with
    | true => exfalso; lia
    | false =>
        let E := fresh "E" in
        destruct (Z.eq_dec n k) as [E|E];
        [ subst n; tac
        | let k' := eval compute in (k + 1) in go k' ]
    end in
  go lo.









End Calendar.


(** the text of the end-to-end scenario *)
Lemma lastmod_2018_10_15 :
  remote_mtime_of "2018-10-15 09:00" = Some 1539594000 /\
  epoch_seconds 2018 10 15 9 0 = 1539594000.
Proof. split; reflexivity. Qed.


(** the end-to-end scenario: exactly one transfer, written below the
    local root with the remote time as its modification time *)
Lemma end_to_end_scenario :
  let '(r, fs, out) :=
    nsidc_icesat2_sync Scenario.world (Scenario.run_args ["ATL06"] false false) ∅ in
  r = Ok tt /\
  reported out = [Scenario.local_ATL06] /\
  option_map st_mtime (fs !! Scenario.local_ATL06) = Some (inject_Z 1539594000) /\
  option_map contents (fs !! Scenario.local_ATL06) = Some "HDF5 bytes".
Proof. vm_compute. repeat split; reflexivity. Qed.

(** ** Interrupted transfers *)

(** C6 (as amended): when a transfer is interrupted mid-write the
    partial file stays in place; it is never removed.  When the
    interruption raises in the copy, the partial file is left without
    the modification-time fix-up, stamped with the wall-clock time of
    the write, and the decision of a subsequent run for it is STALE, and
    the transfer retried, exactly when that wall-clock time is strictly
    less than the remote timestamp.  When the connection closes early
    and the copy ends without an error, the fix-up is applied to the
    partial file and the decision of a subsequent run is UP_TO_DATE.
    Whenever the decision is UP_TO_DATE a run with the clobber flag off
    leaves the partial file as it is. *)
Theorem interrupted_transfer_decision
    (E E2 : env) (remote_file local_file : string) (remote_mtime MODE : Z)
    (CLOBBER LIST2 : bool) (fs fs1 : FS) (r : outcome unit) (out : list line) :
  warrants_transfer (decision_spec (local_mtime fs local_file) remote_mtime)
    || CLOBBER = true ->
  http_pull_file E remote_file remote_mtime local_file false CLOBBER MODE fs =
    (r, fs1, out) ->
  (r = Raise TransferInterrupted ->
   exists dl k nd,
     body E remote_file = Some dl /\ fails_after dl = Some k /\
     fs1 !! local_file = Some nd /\ nkind nd = KFile /\
     contents nd = take k (received dl) /\ st_mtime nd = now E /\
     decision_spec (local_mtime fs1 local_file) remote_mtime =
       (if Qltb (now E) (inject_Z remote_mtime) then STALE else UP_TO_DATE)) /\
  (r = Ok tt ->
   exists dl nd,
     body E remote_file = Some dl /\
     fs1 !! local_file = Some nd /\ nkind nd = KFile /\
     (forall k, cut_after dl = Some k -> contents nd = take k (payload dl)) /\
     (cut_after dl = None -> contents nd = payload dl) /\
     st_mtime nd = inject_Z remote_mtime /\
     decision_spec (local_mtime fs1 local_file) remote_mtime = UP_TO_DATE) /\
  (decision_spec (local_mtime fs1 local_file) remote_mtime = STALE ->
   exists r2 fs2,
     http_pull_file E2 remote_file remote_mtime local_file LIST2 false MODE fs1 =
       (r2, fs2, [LRemote remote_file; LLocal local_file " (overwrite)"])) /\
  (decision_spec (local_mtime fs1 local_file) remote_mtime = UP_TO_DATE ->
   http_pull_file E2 remote_file remote_mtime local_file LIST2 false MODE fs1 =
     (Ok tt, fs1, [])).
Proof.
  intros Hw Hrun. rewrite http_pull_file_run in Hrun. cbv zeta in Hrun.
  rewrite Hw in Hrun.
  assert (Hnext :
    (decision_spec (local_mtime fs1 local_file) remote_mtime = STALE ->
     exists r2 fs2,
       http_pull_file E2 remote_file remote_mtime local_file LIST2 false MODE fs1 =
         (r2, fs2, [LRemote remote_file; LLocal local_file " (overwrite)"])) /\
    (decision_spec (local_mtime fs1 local_file) remote_mtime = UP_TO_DATE ->
     http_pull_file E2 remote_file remote_mtime local_file LIST2 false MODE fs1 =
       (Ok tt, fs1, []))).
  { split; intros Hd; rewrite http_pull_file_run; cbv zeta; rewrite Hd;
      cbn [warrants_transfer orb label_of]; [|reflexivity].
    destruct LIST2; [now eexists _, _|].
    destruct (body E2 remote_file) as [dl2|]; [|now eexists _, _].
    destruct (opened_node E2 fs1 local_file); [|now eexists _, _].
    destruct (fails_after dl2); now eexists _, _. }
  destruct (body E remote_file) as [dl|] eqn:Hb.
  2:{ injection Hrun as <- <- <-. repeat split; try discriminate; apply Hnext. }
  destruct (opened_node E fs local_file) as [nd0|].
  2:{ injection Hrun as <- <- <-. repeat split; try discriminate; apply Hnext. }
  destruct (fails_after dl) as [k|] eqn:Hf; injection Hrun as <- <- <-.
  - split; [|split; [discriminate | exact Hnext]]. intros _.
    eexists dl, k, _. split; [reflexivity|]. split; [exact Hf|].
    split; [apply lookup_insert_eq|]. do 3 (split; [reflexivity|]).
    unfold local_mtime. now rewrite lookup_insert_eq.
  - split; [discriminate|]. split; [|exact Hnext]. intros _.
    eexists dl, _. split; [reflexivity|].
    split; [apply lookup_insert_eq|]. split; [reflexivity|].
    split; [|split]; cbn [contents]; unfold received.
    + now intros k ->.
    + now intros ->.
    + split; [reflexivity|]. unfold local_mtime. rewrite lookup_insert_eq. cbn.
      now rewrite Qltb_irrefl.
Qed.

Lemma interrupted_transfer_decision_witness :
  (Ok tt = Raise TransferInterrupted ->
   exists dl k nd,
     body Scenario.cut_world "u" = Some dl /\ fails_after dl = Some k /\
     Scenario.cut_tree !! "/data/f" = Some nd /\ nkind nd = KFile /\
     contents nd = take k (received dl) /\ st_mtime nd = now Scenario.cut_world /\
     decision_spec (local_mtime Scenario.cut_tree "/data/f") 1539594000 =
       (if Qltb (now Scenario.cut_world) (inject_Z 1539594000)
        then STALE else UP_TO_DATE)) /\
  (Ok tt = Ok tt ->
   exists dl nd,
     body Scenario.cut_world "u" = Some dl /\
     Scenario.cut_tree !! "/data/f" = Some nd /\ nkind nd = KFile /\
     (forall k, cut_after dl = Some k -> contents nd = take k (payload dl)) /\
     (cut_after dl = None -> contents nd = payload dl) /\
     st_mtime nd = inject_Z 1539594000 /\
     decision_spec (local_mtime Scenario.cut_tree "/data/f") 1539594000 = UP_TO_DATE) /\
  (decision_spec (local_mtime Scenario.cut_tree "/data/f") 1539594000 = STALE ->
   exists r2 fs2,
     http_pull_file Scenario.world "u" 1539594000 "/data/f" false false 509
       Scenario.cut_tree =
       (r2, fs2, [LRemote "u"; LLocal "/data/f" " (overwrite)"])) /\
  (decision_spec (local_mtime Scenario.cut_tree "/data/f") 1539594000 = UP_TO_DATE ->
   http_pull_file Scenario.world "u" 1539594000 "/data/f" false false 509
     Scenario.cut_tree =
     (Ok tt, Scenario.cut_tree, [])).
Proof.
  apply (interrupted_transfer_decision Scenario.cut_world Scenario.world
           "u" "/data/f" 1539594000 509 false false ∅ Scenario.cut_tree (Ok tt)
           [LRemote "u"; LLocal "/data/f" " (new)"]);
    reflexivity.
Defined.

(** C6 (as stated) fails twice.  A download of 2018 that raises in 2020
    leaves four bytes of the file behind, stamped 2020: the next run
    decides UP_TO_DATE, reports nothing and leaves them as they are.  A
    download whose connection closes after four bytes completes without
    an error and stamps them with the remote time: the next run decides
    UP_TO_DATE too. *)
Lemma interrupted_transfer_left_up_to_date :
  (let '(r1, fs1, _) :=
     nsidc_icesat2_sync Scenario.broken_world
       (Scenario.run_args ["ATL06"] false false) ∅ in
   let '(r2, fs2, out2) :=
     nsidc_icesat2_sync Scenario.world (Scenario.run_args ["ATL06"] false false) fs1 in
   r1 = Raise TransferInterrupted /\
   option_map contents (fs1 !! Scenario.local_ATL06) = Some "HDF5" /\
   decision_spec (local_mtime fs1 Scenario.local_ATL06) 1539594000 = UP_TO_DATE /\
   r2 = Ok tt /\ reported out2 = [] /\
   option_map contents (fs2 !! Scenario.local_ATL06) = Some "HDF5") /\
  (let '(r1, fs1, _) :=
     nsidc_icesat2_sync Scenario.cut_world
       (Scenario.run_args ["ATL06"] false false) ∅ in
   let '(r2, fs2, out2) :=
     nsidc_icesat2_sync Scenario.world (Scenario.run_args ["ATL06"] false false) fs1 in
   r1 = Ok tt /\
   option_map contents (fs1 !! Scenario.local_ATL06) = Some "HDF5" /\
   option_map st_mtime (fs1 !! Scenario.local_ATL06) = Some (inject_Z 1539594000) /\
   decision_spec (local_mtime fs1 Scenario.local_ATL06) 1539594000 = UP_TO_DATE /\
   r2 = Ok tt /\ reported out2 = [] /\
   option_map contents (fs2 !! Scenario.local_ATL06) = Some "HDF5").
Proof. vm_compute. repeat split; reflexivity. Qed.

(** ** A failing listing *)

Section ListingFailure.

Lemma bind_ok_inv {A B : Type} (m : M A) (k : A -> M B) (fs fs2 : FS)
    (b : B) (out : list line) :
  bind m k fs = (Ok b, fs2, out) ->
  exists a fs1 out1 out2,
    m fs = (Ok a, fs1, out1) /\ k a fs1 = (Ok b, fs2, out2) /\ out = out1 ++ out2.
Proof.
  unfold bind. destruct (m fs) as [[[a|e] fs1] out1]; [|discriminate].
  destruct (k a fs1) as [[r fs3] out2] eqn:Hk. intros H. injection H as -> -> <-.
  now exists a, fs1, out1, out2.
Qed.

Lemma sync_product_listing_fails (E : env) (a : args) (R2 R1 : regex) (p : string)
    (fs : FS) :
  R1_compile p (RELEASE a) (VERSIONS a) (GRANULES a) (TRACKS a) (AUXILIARY a) = Some R1 ->
  listing E (path_join HOST ["ATLAS"; p +:+ "." +:+ RELEASE a]) = None ->
  sync_product E a R2 p fs = (Raise URLError, fs, [LProduct p]).
Proof.
  intros HR1 Hl. unfold sync_product. rewrite HR1, Hl. reflexivity.
Qed.

Lemma R2_compile_set_PRODUCTS (ps : list string) (a : args) :
  R2_compile (set_PRODUCTS ps a) = R2_compile a.
Proof. reflexivity. Qed.

Lemma sync_product_set_PRODUCTS (E : env) (ps : list string) (a : args) :
  sync_product E (set_PRODUCTS ps a) = sync_product E a.
Proof. reflexivity. Qed.

End ListingFailure.

(** C3 (as amended): when fetching or parsing the listing of one product
    fails, the run aborts there.  The products before it have been
    processed, the failure propagates as the result of the run, and no
    later product is processed. *)
Theorem listing_failure_aborts_run
    (E : env) (a : args) (pre post : list string) (p : string) (R1 : regex)
    (fs fs1 : FS) (out1 : list line) :
  PRODUCTS a = pre ++ p :: post ->
  nsidc_icesat2_sync E (set_PRODUCTS pre a) fs = (Ok tt, fs1, out1) ->
  R1_compile p (RELEASE a) (VERSIONS a) (GRANULES a) (TRACKS a) (AUXILIARY a) = Some R1 ->
  listing E (path_join HOST ["ATLAS"; p +:+ "." +:+ RELEASE a]) = None ->
  nsidc_icesat2_sync E a fs = (Raise URLError, fs1, out1 ++ [LProduct p]).
Proof.
  intros HP Hpre HR1 Hl. unfold nsidc_icesat2_sync in *.
  rewrite R2_compile_set_PRODUCTS, sync_product_set_PRODUCTS in Hpre.
  cbn [set_PRODUCTS ddir MODE PRODUCTS] in Hpre. rewrite HP.
  apply bind_ok_inv in Hpre as ([] & fs' & o1 & o23 & Hm & Hrest & ->).
  apply bind_ok_inv in Hrest as (R2 & fs'' & o2 & o3 & HR2 & Hloop & ->).
  rewrite (bind_ok _ _ _ _ _ _ Hm), (bind_ok _ _ _ _ _ _ HR2).
  rewrite for_each_app, (bind_ok _ _ _ _ _ _ Hloop).
  cbn [for_each].
  rewrite (bind_raise _ _ _ _ _ _
             (sync_product_listing_fails E a R2 R1 p fs1 HR1 Hl)).
  now rewrite !app_assoc.
Qed.

Lemma listing_failure_aborts_run_witness :
  nsidc_icesat2_sync Scenario.world
    (Scenario.narrow_args ["ATL06"; "ATL07"; "ATL08"] false false) ∅ =
  (Raise URLError, Scenario.after_ATL06,
   Scenario.report_ATL06 ++ [LProduct "ATL07"]).
Proof.
  apply (listing_failure_aborts_run Scenario.world
           (Scenario.narrow_args ["ATL06"; "ATL07"; "ATL08"] false false)
           ["ATL06"] ["ATL08"] "ATL07"
           (from_option id Void (R1_compile "ATL07" "003" [1] [2] [235] false))).
  - reflexivity.
  - vm_compute. reflexivity.
  - vm_compute. reflexivity.
  - reflexivity.
Defined.

(** C3 (as stated) fails: the listing of [ATL07] cannot be fetched, and
    the run over [ATL07] and [ATL08] ends with the error before [ATL08]
    is looked at, although a run over [ATL08] alone has a file to
    fetch. *)
Lemma listing_failure_skips_remaining_products :
  let '(r, fs, out) :=
    nsidc_icesat2_sync Scenario.world
      (Scenario.run_args ["ATL07"; "ATL08"] false false) ∅ in
  let '(r', fs', out') :=
    nsidc_icesat2_sync Scenario.world (Scenario.run_args ["ATL08"] false false) ∅ in
  r = Raise URLError /\ ~ In (LProduct "ATL08") out /\
  fs !! Scenario.local_ATL08 = None /\
  r' = Ok tt /\ reported out' = [Scenario.local_ATL08].
Proof.
  vm_compute. repeat split; try reflexivity.
  intros [H|[]]. discriminate H.
Qed.

(** ** Rows of a listing page *)

Section Rows.

Lemma matching_lines_spec (R1 : regex) (names : list string) (k i : nat) :
  In i (matching_lines R1 k names) <->
  exists name, (k <= i)%nat /\ names !! (i - k)%nat = Some name /\
               re_match R1 name = true.
Proof.
  revert k. induction names as [|f names IH]; intros k; simpl.
  - split; [intros [] | intros (name & _ & H & _); discriminate H].
  - assert (Hrest :
      In i (matching_lines R1 (S k) names) <->
      exists name, (k < i)%nat /\ (f :: names) !! (i - k)%nat = Some name /\
                   re_match R1 name = true).
    { rewrite IH. split; intros (name & Hk & Hn & Hm); exists name.
      - split; [lia|]. split; [|exact Hm].
        replace (i - k)%nat with (S (i - S k)) by lia. exact Hn.
      - split; [lia|]. split; [|exact Hm].
        replace (i - k)%nat with (S (i - S k)) in Hn by lia. exact Hn. }
    destruct (re_match R1 f) eqn:Hf.
    + simpl. rewrite Hrest. split.
      * intros [<-|(name & Hk & Hn & Hm)].
        -- exists f. rewrite Nat.sub_diag. auto.
        -- exists name. split; [lia | auto].
      * intros (name & Hk & Hn & Hm).
        destruct (Nat.eq_dec k i) as [->|Hne]; [now left|].
        right. exists name. split; [lia | auto].
    + rewrite Hrest. split.
      * intros (name & Hk & Hn & Hm). exists name. split; [lia | auto].
      * intros (name & Hk & Hn & Hm). exists name. split; [|auto].
        destruct (Nat.eq_dec k i) as [->|Hne]; [|lia].
        rewrite Nat.sub_diag in Hn. injection Hn as ->. congruence.
Qed.

End Rows.

(** C8 (as amended): a row whose name does not satisfy the file matcher
    is never a file candidate and its last-modified text is never read,
    so whatever stands there is tolerated; and when the last-modified
    sequence is at least as long as the name sequence, the lookup for a
    matched file stays inside it. *)
Theorem unmatched_rows_tolerated
    (E : env) (a : args) (d sd local_dir : string) (R1 : regex) (pg pg' : page)
    (fs : FS) :
  colnames pg' = colnames pg ->
  (forall i name, colnames pg !! i = Some name -> re_match R1 name = true ->
                  collastmod pg' !! i = collastmod pg !! i) ->
  (forall i, In i (matching_lines R1 0 (colnames pg)) <->
             exists name, colnames pg !! i = Some name /\ re_match R1 name = true) /\
  for_each (matching_lines R1 0 (colnames pg')) (sync_file E a d sd local_dir pg') fs =
  for_each (matching_lines R1 0 (colnames pg)) (sync_file E a d sd local_dir pg) fs /\
  ((length (colnames pg) <= length (collastmod pg))%nat ->
   forall i, In i (matching_lines R1 0 (colnames pg)) ->
             exists text, collastmod pg !! i = Some text).
Proof.
  intros Hc Ht.
  assert (Hspec : forall i, In i (matching_lines R1 0 (colnames pg)) <->
             exists name, colnames pg !! i = Some name /\ re_match R1 name = true).
  { intros i. rewrite matching_lines_spec. rewrite Nat.sub_0_r.
    split; intros (name & H); exists name; [tauto | split; [lia | tauto]]. }
  split; [exact Hspec|]. split.
  - rewrite Hc. apply for_each_ext. intros i fs' Hi.
    apply Hspec in Hi as (name & Hn & Hm).
    unfold sync_file. rewrite Hc, (Ht i name Hn Hm). reflexivity.
  - intros Hlen i Hi. apply Hspec in Hi as (name & Hn & _).
    apply lookup_lt_Some in Hn.
    destruct (collastmod pg !! i) as [text|] eqn:Hl; [now exists text|].
    apply lookup_ge_None in Hl. lia.
Qed.

Lemma unmatched_rows_tolerated_witness :
  (forall i, In i (matching_lines Dot 0 ["x"; ""]) <->
             exists name, ["x"; ""] !! i = Some name /\ re_match Dot name = true) /\
  for_each (matching_lines Dot 0 ["x"; ""])
    (sync_file Scenario.world (Scenario.run_args [] true false) "d" "sd" "l"
       (Page ["x"; ""] ["2018-10-15 09:00"])) ∅ =
  for_each (matching_lines Dot 0 ["x"; ""])
    (sync_file Scenario.world (Scenario.run_args [] true false) "d" "sd" "l"
       (Page ["x"; ""] ["2018-10-15 09:00"; "-"])) ∅ /\
  ((length ["x"; ""] <= length ["2018-10-15 09:00"; "-"])%nat ->
   forall i, In i (matching_lines Dot 0 ["x"; ""]) ->
             exists text, ["2018-10-15 09:00"; "-"] !! i = Some text).
Proof.
  apply (unmatched_rows_tolerated Scenario.world (Scenario.run_args [] true false)
           "d" "sd" "l" Dot (Page ["x"; ""] ["2018-10-15 09:00"; "-"])
           (Page ["x"; ""] ["2018-10-15 09:00"]) ∅).
  - reflexivity.
  - intros [|[|i]] name Hn Hm; simpl in Hn.
    + reflexivity.
    + injection Hn as <-. discriminate Hm.
    + discriminate Hn.
Defined.

(** C8 (as stated) fails: a parent-directory row with a name and no
    last-modified text makes the last-modified sequence one shorter than
    the name sequence; the lookup for the matched file at index 1 runs
    past its end, and the run ends with IndexError instead of fetching
    the file. *)
Lemma bare_row_breaks_lookup :
  let pg := Page ["/ATLAS/ATL06.003/"; Scenario.ATL06_file] ["2018-10-15 09:00"] in
  Scenario.pages_with_bare_row (Scenario.subdir_url "ATL06") = Some pg /\
  option_map (fun R1 => matching_lines R1 0 (colnames pg))
    (R1_compile "ATL06" "003" default_VERSIONS default_GRANULES default_TRACKS false)
    = Some [1%nat] /\
  collastmod pg !! 1%nat = None /\
  let '(r, fs, out) :=
    nsidc_icesat2_sync Scenario.bare_row_world
      (Scenario.run_args ["ATL06"] false false) ∅ in
  r = Raise IndexError /\ reported out = [] /\ fs !! Scenario.local_ATL06 = None.
Proof. vm_compute. repeat split; reflexivity. Qed.

(** ** A list-only run against a live run *)

Section DryRun.

Lemma reported_app (o1 o2 : list line) :
  reported (o1 ++ o2) = reported o1 ++ reported o2.
Proof. unfold reported. now rewrite map_app, concat_app. Qed.

Lemma preserves_bind {A B : Type} (I : FS -> Prop) (m : M A) (k : A -> M B) :
  preserves I m -> (forall a, preserves I (k a)) -> preserves I (bind m k).
Proof.
  intros Hm Hk fs r fs' out HI. unfold bind.
  destruct (m fs) as [[[a|e] fs1] out1] eqn:E1.
  - destruct (k a fs1) as [[r2 fs2] out2] eqn:E2. intros H. injection H as <- <- <-.
    exact (Hk a fs1 r2 fs2 out2 (Hm fs (Ok a) fs1 out1 HI E1) E2).
  - intros H. injection H as <- <- <-. exact (Hm fs (Raise e) fs1 out1 HI E1).
Qed.

Lemma preserves_for_each {A : Type} (I : FS -> Prop) (xs : list A)
    (body : A -> M unit) :
  (forall x, preserves I (body x)) -> preserves I (for_each xs body).
Proof.
  intros Hb. induction xs as [|x xs IH]; simpl.
  - intros fs r fs' out HI H. injection H as <- <- <-. exact HI.
  - apply preserves_bind; [apply Hb | intros _; exact IH].
Qed.

Lemma preserves_lift {A : Type} (I : FS -> Prop) (e : exn) (o : option A) :
  preserves I (lift e o).
Proof.
  intros fs r fs' out HI. destruct o; intros H; injection H as <- <- <-; exact HI.
Qed.

Lemma preserves_print (I : FS -> Prop) (l : line) : preserves I (print l).
Proof. intros fs r fs' out HI H. injection H as <- <- <-. exact HI. Qed.

Lemma only_new_directories_refl (fs : FS) : only_new_directories fs fs.
Proof. intros path. now left. Qed.

Lemma makedirs_only_new_directories (E : env) (fs0 : FS) (path : string) (MODE : Z) :
  preserves (only_new_directories fs0) (makedirs_if_absent E path MODE).
Proof.
  intros fs r fs' out HI. rewrite makedirs_if_absent_run.
  destruct (fs !! path) as [nd|] eqn:Hp; intros H; injection H as <- <- <-.
  - exact HI.
  - intros x. destruct (decide (path = x)) as [<-|Hne].
    + rewrite lookup_insert_eq. destruct (HI path) as [Heq|[Hnone _]].
      * right. split; [congruence|]. eexists. split; reflexivity.
      * right. split; [exact Hnone|]. eexists. split; reflexivity.
    + rewrite lookup_insert_ne by exact Hne. apply HI.
Qed.

Lemma http_pull_file_list_only (E : env) (remote_file local_file : string)
    (remote_mtime MODE : Z) (CLOBBER : bool) (I : FS -> Prop) :
  preserves I (http_pull_file E remote_file remote_mtime local_file true CLOBBER MODE).
Proof.
  intros fs r fs' out HI. unfold http_pull_file. rewrite bind_get.
  destruct (pull_test fs remote_mtime local_file) as [TEST OVERWRITE].
  destruct (TEST || CLOBBER); intros H; injection H as <- <- <-; exact HI.
Qed.

(** A list-only run leaves every existing path as it is and creates
    directories only, however it ends. *)
Lemma list_only_run_frame (E : env) (a : args) (fs : FS) :
  LIST a = true ->
  preserves (only_new_directories fs) (nsidc_icesat2_sync E a).
Proof.
  intros HL. unfold nsidc_icesat2_sync.
  apply preserves_bind; [apply makedirs_only_new_directories|]. intros _.
  apply preserves_bind.
  { unfold R2_compile. destruct (R2_pattern _ _); [apply preserves_lift|].
    intros fs1 r fs' out HI H. injection H as <- <- <-. exact HI. }
  intros R2. apply preserves_for_each. intros p. unfold sync_product.
  apply preserves_bind; [apply preserves_print|]. intros _.
  apply preserves_bind; [apply preserves_lift|]. intros R1.
  apply preserves_bind; [apply preserves_lift|]. intros pg.
  apply preserves_for_each. intros sd. unfold sync_subdirectory.
  apply preserves_bind; [apply makedirs_only_new_directories|]. intros _.
  apply preserves_bind; [apply preserves_lift|]. intros pg'.
  apply preserves_for_each. intros i. unfold sync_file.
  apply preserves_bind; [apply preserves_lift|]. intros name.
  apply preserves_bind; [apply preserves_lift|]. intros text.
  apply preserves_bind; [apply preserves_lift|]. intros LMD.
  rewrite HL. apply http_pull_file_list_only.
Qed.

Lemma sim_bind {A B : Type} (mD mL : M A) (kD kL : A -> M B) :
  sim mD mL -> (forall a, sim (kD a) (kL a)) -> sim (bind mD kD) (bind mL kL).
Proof.
  intros Hm Hk fsD fsL repD repL b fsL' outL Hagree HL.
  apply bind_ok_inv in HL as (a & fs1 & o1 & o2 & H1 & H2 & ->).
  destruct (Hm _ _ _ _ _ _ _ Hagree H1) as (fsD1 & oD1 & HD1 & Hagree1).
  destruct (Hk a _ _ _ _ _ _ _ Hagree1 H2) as (fsD2 & oD2 & HD2 & Hagree2).
  exists fsD2, (oD1 ++ oD2). split.
  - rewrite (bind_ok _ _ _ _ _ _ HD1), HD2. reflexivity.
  - rewrite !reported_app, !app_assoc. exact Hagree2.
Qed.

Lemma sim_pure {A : Type} (m : M A) (r : outcome A) (out : list line) :
  (forall fs, m fs = (r, fs, out)) -> sim m m.
Proof.
  intros Hm fsD fsL repD repL a fsL' outL Hagree HL.
  rewrite Hm in HL. injection HL as -> <- <-.
  exists fsD, out. split; [apply Hm|].
  destruct Hagree as [H1 H2]. split.
  - intros x. rewrite in_app_iff. destruct (H1 x); auto.
  - intros x. rewrite !in_app_iff, H2. reflexivity.
Qed.

Lemma sim_lift {A : Type} (e : exn) (o : option A) : sim (lift e o) (lift e o).
Proof. destruct o as [a|]; [now apply (sim_pure _ (Ok a) []) | now apply (sim_pure _ (Raise e) [])]. Qed.

Lemma sim_print (l : line) : sim (print l) (print l).
Proof. now apply (sim_pure _ (Ok tt) [l]). Qed.

Lemma sim_for_each {A : Type} (xs : list A) (bD bL : A -> M unit) :
  (forall x, sim (bD x) (bL x)) -> sim (for_each xs bD) (for_each xs bL).
Proof.
  intros Hb. induction xs as [|x xs IH]; simpl.
  - now apply (sim_pure _ (Ok tt) []).
  - apply sim_bind; [apply Hb | intros _; exact IH].
Qed.

Lemma sim_makedirs (E : env) (path : string) (MODE : Z) :
  sim (makedirs_if_absent E path MODE) (makedirs_if_absent E path MODE).
Proof.
  intros fsD fsL repD repL [] fsL' outL [H1 H2] HL.
  rewrite makedirs_if_absent_run in *.
  assert (Hrep : forall x, In x (repD ++ reported []) <-> In x (repL ++ reported [])).
  { intros x. cbn. rewrite !app_nil_r. apply H2. }
  assert (Hgoal : forall fsD',
            (forall x, x <> path -> fsD' !! x = fsD !! x) ->
            (forall x, x <> path -> fsL' !! x = fsL !! x) ->
            (fsD' !! path = fsL' !! path \/ In path repL) ->
            agree fsD' fsL' (repD ++ reported []) (repL ++ reported [])).
  { intros fsD' HD HL' Hp. split; [|exact Hrep].
    intros x. cbn. rewrite app_nil_r.
    destruct (decide (x = path)) as [->|Hne]; [exact Hp|].
    rewrite (HD x Hne), (HL' x Hne). apply H1. }
  destruct (H1 path) as [Heq|Hin].
  - rewrite Heq. destruct (fsL !! path) as [nd|] eqn:Hp;
      injection HL as <- <-; eexists _, _; (split; [reflexivity|]).
    + apply Hgoal; auto.
    + apply Hgoal.
      * intros x Hne. now rewrite lookup_insert_ne.
      * intros x Hne. now rewrite lookup_insert_ne.
      * left. now rewrite !lookup_insert_eq.
  - assert (HLne : forall x, x <> path -> fsL' !! x = fsL !! x).
    { intros x Hne. destruct (fsL !! path); injection HL as <- <-;
        [reflexivity | now rewrite lookup_insert_ne]. }
    assert (Hout : outL = []).
    { destruct (fsL !! path); now injection HL as <- <-. }
    subst outL.
    destruct (fsD !! path) as [nd|] eqn:Hp; eexists _, _; (split; [reflexivity|]).
    + apply Hgoal; auto.
    + apply Hgoal; auto. intros x Hne. now rewrite lookup_insert_ne.
Qed.

Lemma http_pull_file_dry (E : env) (remote_file local_file : string)
    (remote_mtime MODE : Z) (CLOBBER : bool) (fs : FS) :
  exists out,
    http_pull_file E remote_file remote_mtime local_file true CLOBBER MODE fs =
      (Ok tt, fs, out) /\
    reported out =
      if warrants_transfer (decision_spec (local_mtime fs local_file) remote_mtime)
         || CLOBBER
      then [local_file] else [].
Proof.
  rewrite http_pull_file_unfold.
  destruct (warrants_transfer _ || CLOBBER); eexists; split; reflexivity.
Qed.

Lemma http_pull_file_live_ok (E : env) (remote_file local_file : string)
    (remote_mtime MODE : Z) (CLOBBER : bool) (fs fs' : FS) (out : list line) :
  http_pull_file E remote_file remote_mtime local_file false CLOBBER MODE fs =
    (Ok tt, fs', out) ->
  (forall x, x <> local_file -> fs' !! x = fs !! x) /\
  (warrants_transfer (decision_spec (local_mtime fs local_file) remote_mtime)
     || CLOBBER = false -> fs' = fs) /\
  reported out =
    (if warrants_transfer (decision_spec (local_mtime fs local_file) remote_mtime)
        || CLOBBER
     then [local_file] else []).
Proof.
  rewrite http_pull_file_unfold.
  destruct (warrants_transfer _ || CLOBBER).
  - unfold bind at 1 2, print.
    destruct (transfer E remote_file remote_mtime local_file MODE fs)
      as [[[[]|e] fs2] out2] eqn:Ht; [|discriminate].
    apply transfer_ok_mtime in Ht as (-> & nd & -> & _).
    intros H. injection H as <- <-.
    split; [|split; [discriminate | reflexivity]].
    intros x Hne. now rewrite lookup_insert_ne.
  - intros H. injection H as <- <-. repeat split; reflexivity.
Qed.

Lemma sim_http_pull_file (E : env) (remote_file local_file : string)
    (remote_mtime MODE : Z) (CLOBBER : bool) :
  sim (http_pull_file E remote_file remote_mtime local_file true CLOBBER MODE)
      (http_pull_file E remote_file remote_mtime local_file false CLOBBER MODE).
Proof.
  intros fsD fsL repD repL [] fsL' outL [H1 H2] HL.
  apply http_pull_file_live_ok in HL as (Hframe & Hsame & HrepL).
  destruct (http_pull_file_dry E remote_file local_file remote_mtime MODE CLOBBER fsD)
    as (outD & HD & HrepD).
  exists fsD, outD. split; [exact HD|].
  rewrite HrepD, HrepL. clear HD HrepD HrepL.
  destruct (H1 local_file) as [Heq|Hin].
  - unfold local_mtime in *. rewrite Heq.
    destruct (warrants_transfer _ || CLOBBER); split.
    + intros x. rewrite in_app_iff. destruct (decide (x = local_file)) as [->|Hne].
      * right. right. now left.
      * rewrite (Hframe x Hne). destruct (H1 x); auto.
    + intros x. rewrite !in_app_iff, H2. reflexivity.
    + intros x. rewrite app_nil_r. destruct (decide (x = local_file)) as [->|Hne].
      * left. now rewrite (Hsame eq_refl).
      * rewrite (Hframe x Hne). apply H1.
    + intros x. rewrite !app_nil_r. apply H2.
  - split.
    + intros x. rewrite in_app_iff. destruct (decide (x = local_file)) as [->|Hne].
      * right. now left.
      * rewrite (Hframe x Hne). destruct (H1 x); auto.
    + intros x. rewrite !in_app_iff, H2.
      assert (HD : forall l : list string,
                (l = [local_file] \/ l = []) ->
                (In x repL \/ In x l <-> In x repL)).
      { intros l [-> | ->]; simpl; [|tauto].
        split; [intros [H|[<- | []]]; auto | auto]. }
      rewrite !HD; [reflexivity | |];
        match goal with
        | |- context [if ?b then _ else _] => destruct b
        end; auto.
Qed.

End DryRun.


Lemma sim_sync (E : env) (a : args) :
  sim (nsidc_icesat2_sync E (set_LIST true a))
      (nsidc_icesat2_sync E (set_LIST false a)).
Proof.
  unfold nsidc_icesat2_sync. cbn [set_LIST ddir MODE PRODUCTS].
  apply sim_bind; [apply sim_makedirs|]. intros _.
  apply sim_bind.
  { change (R2_compile (set_LIST true a)) with (R2_compile a).
    change (R2_compile (set_LIST false a)) with (R2_compile a).
    unfold R2_compile. destruct (R2_pattern _ _); [apply sim_lift|].
    now apply (sim_pure _ (Raise ValueError) []). }
  intros R2. apply sim_for_each. intros p. unfold sync_product.
  cbn [set_LIST ddir RELEASE VERSIONS GRANULES TRACKS AUXILIARY].
  apply sim_bind; [apply sim_print|]. intros _.
  apply sim_bind; [apply sim_lift|]. intros R1.
  apply sim_bind; [apply sim_lift|]. intros pg.
  apply sim_for_each. intros sd. unfold sync_subdirectory.
  cbn [set_LIST MODE].
  apply sim_bind; [apply sim_makedirs|]. intros _.
  apply sim_bind; [apply sim_lift|]. intros pg'.
  apply sim_for_each. intros i. unfold sync_file.
  apply sim_bind; [apply sim_lift|]. intros name.
  apply sim_bind; [apply sim_lift|]. intros text.
  apply sim_bind; [apply sim_lift|]. intros LMD.
  cbn [set_LIST LIST CLOBBER MODE]. apply sim_http_pull_file.
Qed.

(** ** The directories of a list-only run *)

Section DryRunDirectories.

Lemma only_new_directories_files (fs fs' : FS) :
  only_new_directories fs fs' -> files_untouched fs fs'.
Proof.
  intros H x. destruct (H x) as [Heq|(Hnone & nd' & Hsome & Hk)].
  - rewrite Heq. split; [auto|]. split; [eauto | now left].
  - rewrite Hnone. split; [discriminate|]. split; [discriminate|].
    right. eauto.
Qed.

Lemma makedirs_makes (E : env) (path : string) (MODE : Z) (fs fs' : FS)
    (r : outcome unit) (out : list line) :
  makedirs_if_absent E path MODE fs = (r, fs', out) -> path_exists fs' path = true.
Proof.
  rewrite makedirs_if_absent_run. unfold path_exists.
  destruct (fs !! path) eqn:Hp; intros H; injection H as <- <- <-.
  - now rewrite Hp.
  - now rewrite lookup_insert_eq.
Qed.

Lemma stays_makedirs (E : env) (path z : string) (MODE : Z) :
  preserves (fun f => path_exists f z = true) (makedirs_if_absent E path MODE).
Proof.
  intros fs r fs' out Hz. rewrite makedirs_if_absent_run.
  destruct (fs !! path) eqn:Hp; intros H; injection H as <- <- <-; [exact Hz|].
  unfold path_exists in *. destruct (decide (path = z)) as [<-|Hne].
  - now rewrite lookup_insert_eq.
  - now rewrite lookup_insert_ne.
Qed.

Lemma stays_sync_subdirectory (E : env) (a : args) (D d : string) (R1 : regex)
    (sd z : string) :
  LIST a = true ->
  preserves (fun f => path_exists f z = true) (sync_subdirectory E a D d R1 sd).
Proof.
  intros HL. unfold sync_subdirectory.
  apply preserves_bind; [apply stays_makedirs|]. intros _.
  apply preserves_bind; [apply preserves_lift|]. intros pg'.
  apply preserves_for_each. intros i. unfold sync_file.
  apply preserves_bind; [apply preserves_lift|]. intros name.
  apply preserves_bind; [apply preserves_lift|]. intros text.
  apply preserves_bind; [apply preserves_lift|]. intros LMD.
  rewrite HL. apply http_pull_file_list_only.
Qed.

Lemma stays_sync_product (E : env) (a : args) (R2 : regex) (p z : string) :
  LIST a = true ->
  preserves (fun f => path_exists f z = true) (sync_product E a R2 p).
Proof.
  intros HL. unfold sync_product.
  apply preserves_bind; [apply preserves_print|]. intros _.
  apply preserves_bind; [apply preserves_lift|]. intros R1.
  apply preserves_bind; [apply preserves_lift|]. intros pg.
  apply preserves_for_each. intros sd. now apply stays_sync_subdirectory.
Qed.

(** in a loop that completes, every turn completes, and what exists
    after it still exists at the end *)
Lemma for_each_ok_member {A : Type} (xs : list A) (body : A -> M unit) (x : A)
    (fs fs' : FS) (out : list line) :
  (forall y z, preserves (fun f => path_exists f z = true) (body y)) ->
  for_each xs body fs = (Ok tt, fs', out) -> In x xs ->
  exists fs0 fs1 out1,
    body x fs0 = (Ok tt, fs1, out1) /\
    forall z, path_exists fs1 z = true -> path_exists fs' z = true.
Proof.
  intros Hb. revert fs out. induction xs as [|y xs IH]; intros fs out Hrun Hin.
  - destruct Hin.
  - cbn [for_each] in Hrun.
    apply bind_ok_inv in Hrun as ([] & f1 & o1 & o2 & Hy & Hrest & ->).
    destruct Hin as [<-|Hin].
    + exists fs, f1, o1. split; [exact Hy|]. intros z Hz.
      exact (preserves_for_each _ xs body (fun y' => Hb y' z) f1 (Ok tt) fs' o2 Hz Hrest).
    + exact (IH f1 o2 Hrest Hin).
Qed.

Lemma R2_compile_ok (a : args) (R2 : regex) (fs fs' : FS) (out : list line)
    (sd : string) :
  R2_compile a fs = (Ok R2, fs', out) ->
  fs' = fs /\
  (R2_match (SUBDIRECTORY a) (YEARS a) sd = Some true -> re_match R2 sd = true).
Proof.
  unfold R2_compile, R2_match.
  destruct (R2_pattern _ _) as [pat|]; [|discriminate].
  destruct (re_compile_verbose pat) as [R|]; [|discriminate].
  intros H. injection H as <- <-. split; [reflexivity|].
  cbn [option_map]. now intros [= ->].
Qed.

End DryRunDirectories.

(** C2 (as amended): however a list-only run ends, it has written no
    byte to any local file, and has created, removed or replaced no
    file: every file is as it was, every directory is still a directory,
    and whatever is new is a directory.  It does create directories:
    when it completes, the local root exists, and so does the local
    directory of every remote subdirectory that the subdirectory matcher
    accepts in the listing of a requested product, created if it was
    absent.  Whenever the live run against the same remote state and the
    same local tree completes, the list-only run completes too and
    reports the same set of local files. *)
Theorem dry_run_against_live_run (E : env) (a : args) (fs : FS) :
  let '(rD, fsD, outD) := nsidc_icesat2_sync E (set_LIST true a) fs in
  files_untouched fs fsD /\
  (rD = Ok tt ->
   path_exists fsD (ddir a) = true /\
   forall p pg sd,
     In p (PRODUCTS a) ->
     listing E (path_join HOST ["ATLAS"; p +:+ "." +:+ RELEASE a]) = Some pg ->
     In sd (colnames pg) ->
     R2_match (SUBDIRECTORY a) (YEARS a) sd = Some true ->
     path_exists fsD (path_join (ddir a) [p +:+ "." +:+ RELEASE a; sd]) = true) /\
  (forall fsL outL,
     nsidc_icesat2_sync E (set_LIST false a) fs = (Ok tt, fsL, outL) ->
     rD = Ok tt /\ forall f, In f (reported outD) <-> In f (reported outL)).
Proof.
  destruct (nsidc_icesat2_sync E (set_LIST true a) fs) as [[rD fsD] outD] eqn:HD.
  split.
  { apply only_new_directories_files.
    exact (list_only_run_frame E (set_LIST true a) fs eq_refl
             fs rD fsD outD (only_new_directories_refl fs) HD). }
  split.
  - intros ->. unfold nsidc_icesat2_sync in HD.
    cbn [set_LIST ddir MODE PRODUCTS] in HD.
    apply bind_ok_inv in HD as ([] & f1 & o1 & o23 & Hm & Hrest & ->).
    apply bind_ok_inv in Hrest as (R2 & f2 & o2 & o3 & HR2 & Hloop & ->).
    change (R2_compile (set_LIST true a)) with (R2_compile a) in HR2.
    destruct (R2_compile_ok a R2 f1 f2 o2 "" HR2) as [-> _].
    assert (Hstay : forall y z,
              preserves (fun f => path_exists f z = true)
                (sync_product E (set_LIST true a) R2 y)).
    { intros y z. now apply stays_sync_product. }
    split.
    + apply makedirs_makes in Hm.
      exact (preserves_for_each _ _ _ (fun y => Hstay y (ddir a))
               f1 (Ok tt) fsD o3 Hm Hloop).
    + intros p pg sd Hp Hl Hsd Hmatch.
      destruct (R2_compile_ok a R2 f1 f1 o2 sd HR2) as [_ HR2m].
      specialize (HR2m Hmatch).
      destruct (for_each_ok_member _ _ p f1 fsD o3 Hstay Hloop Hp)
        as (fa & fb & oa & Hprod & Hend).
      apply Hend. clear Hend Hloop.
      unfold sync_product in Hprod.
      cbn [set_LIST ddir RELEASE VERSIONS GRANULES TRACKS AUXILIARY] in Hprod.
      apply bind_ok_inv in Hprod as ([] & g1 & p1 & p2 & _ & Hprod & _).
      apply bind_ok_inv in Hprod as (R1 & g2 & p3 & p4 & _ & Hprod & _).
      apply bind_ok_inv in Hprod as (pg0 & g3 & p5 & p6 & Hpg & Hsubs & _).
      rewrite Hl in Hpg. injection Hpg as <- _ _.
      assert (Hin : In sd (filter (fun sd => re_match R2 sd) (colnames pg))).
      { apply filter_In. now split. }
      destruct (for_each_ok_member _ _ sd g3 fb p6
                  (fun y z => stays_sync_subdirectory E (set_LIST true a) _ _ R1 y z
                                eq_refl)
                  Hsubs Hin)
        as (ha & hb & oh & Hsub & Hend).
      apply Hend. clear Hend Hsubs.
      unfold sync_subdirectory in Hsub. cbn [set_LIST MODE] in Hsub.
      apply bind_ok_inv in Hsub as ([] & h1 & q1 & q2 & Hmk & Hfiles & _).
      apply makedirs_makes in Hmk.
      match type of Hfiles with
      | ?m h1 = _ =>
          assert (Hp' : preserves
                          (fun f => path_exists f
                             (path_join (ddir a) [p +:+ "." +:+ RELEASE a; sd]) = true) m)
      end.
      { apply preserves_bind; [apply preserves_lift|]. intros pg'.
        apply preserves_for_each. intros i. unfold sync_file.
        apply preserves_bind; [apply preserves_lift|]. intros name.
        apply preserves_bind; [apply preserves_lift|]. intros text.
        apply preserves_bind; [apply preserves_lift|]. intros LMD.
        apply http_pull_file_list_only. }
      exact (Hp' h1 (Ok tt) hb q2 Hmk Hfiles).
  - intros fsL outL HL.
    assert (Hagree : agree fs fs [] []).
    { split; [now left | reflexivity]. }
    destruct (sim_sync E a fs fs [] [] tt fsL outL Hagree HL)
      as (fsD' & outD' & HD' & _ & Hrep).
    rewrite HD in HD'. injection HD' as -> <- <-. split; [reflexivity | exact Hrep].
Qed.

Lemma dry_run_against_live_run_witness :
  files_untouched Scenario.after_ATL06 Scenario.listed_ATL08 /\
  (Ok tt = Ok tt ->
   path_exists Scenario.listed_ATL08 "/data" = true /\
   forall p pg sd,
     In p ["ATL06"; "ATL08"] ->
     listing Scenario.world (path_join HOST ["ATLAS"; p +:+ "." +:+ "003"]) = Some pg ->
     In sd (colnames pg) ->
     R2_match None YNone sd = Some true ->
     path_exists Scenario.listed_ATL08 (path_join "/data" [p +:+ "." +:+ "003"; sd])
       = true) /\
  (forall fsL outL,
     nsidc_icesat2_sync Scenario.world
       (set_LIST false (Scenario.narrow_args ["ATL06"; "ATL08"] false false))
       Scenario.after_ATL06 = (Ok tt, fsL, outL) ->
     Ok tt = Ok tt /\
     forall f, In f (reported Scenario.report_ATL08) <-> In f (reported outL)).
Proof.
  pose proof (dry_run_against_live_run Scenario.world
                (Scenario.narrow_args ["ATL06"; "ATL08"] false false)
                Scenario.after_ATL06) as H.
  assert (Hrun : nsidc_icesat2_sync Scenario.world
                   (set_LIST true (Scenario.narrow_args ["ATL06"; "ATL08"] false false))
                   Scenario.after_ATL06 =
                 (Ok tt, Scenario.listed_ATL08, Scenario.report_ATL08)).
  { vm_compute. reflexivity. }
  rewrite Hrun in H. exact H.
Defined.

(** C2 (as stated) fails: on an empty local tree the list-only run
    creates the local root and the directory of the matched remote
    subdirectory. *)
Lemma dry_run_creates_directories :
  let '(r, fs, out) :=
    nsidc_icesat2_sync Scenario.world (Scenario.run_args ["ATL06"] true false) ∅ in
  r = Ok tt /\
  (∅ : FS) !! "/data/ATL06.003/2018.10.14/" = None /\
  option_map nkind (fs !! "/data") = Some KDir /\
  option_map nkind (fs !! "/data/ATL06.003/2018.10.14/") = Some KDir /\
  fs !! Scenario.local_ATL06 = None /\
  reported out = [Scenario.local_ATL06].
Proof. vm_compute. repeat split; reflexivity. Qed.

(** ** A second run against an unchanged archive *)

Section SecondRun.

Lemma grown_refl (fs : FS) : grown fs fs.
Proof. intros x nd H. exists nd. split; [exact H | apply Qle_refl]. Qed.

Lemma grown_trans (fs1 fs2 fs3 : FS) : grown fs1 fs2 -> grown fs2 fs3 -> grown fs1 fs3.
Proof.
  intros H12 H23 x nd H. destruct (H12 x nd H) as (nd2 & H2 & Hle2).
  destruct (H23 x nd2 H2) as (nd3 & H3 & Hle3).
  exists nd3. split; [exact H3 | exact (Qle_trans _ _ _ Hle2 Hle3)].
Qed.

Lemma settles_bind {A B : Type} (m m2 : M A) (k k2 : A -> M B) :
  settles m m2 -> (forall a, settles (k a) (k2 a)) -> settles (bind m k) (bind m2 k2).
Proof.
  intros Hm Hk fs b fs' out H.
  apply bind_ok_inv in H as (a & fs1 & o1 & o2 & H1 & H2 & ->).
  destruct (Hm _ _ _ _ H1) as [Hg1 Hq1]. destruct (Hk a _ _ _ _ H2) as [Hg2 Hq2].
  split; [exact (grown_trans _ _ _ Hg1 Hg2)|].
  intros fs'' Hg.
  destruct (Hq1 fs'' (grown_trans _ _ _ Hg2 Hg)) as (p1 & Hp1 & Hr1).
  destruct (Hq2 fs'' Hg) as (p2 & Hp2 & Hr2).
  exists (p1 ++ p2). split.
  - rewrite (bind_ok _ _ _ _ _ _ Hp1), Hp2. reflexivity.
  - now rewrite reported_app, Hr1, Hr2.
Qed.

Lemma settles_pure {A : Type} (m : M A) (r : outcome A) (out : list line) :
  (forall fs, m fs = (r, fs, out)) -> reported out = [] -> settles m m.
Proof.
  intros Hm Hr fs a fs' out' H. rewrite Hm in H. injection H as -> <- <-.
  split; [apply grown_refl|]. intros fs'' _. exists out. now rewrite Hm.
Qed.

Lemma settles_lift {A : Type} (e : exn) (o : option A) : settles (lift e o) (lift e o).
Proof.
  destruct o as [a|];
    [now apply (settles_pure _ (Ok a) []) | now apply (settles_pure _ (Raise e) [])].
Qed.

Lemma settles_for_each {A : Type} (xs : list A) (b b2 : A -> M unit) :
  (forall x, settles (b x) (b2 x)) -> settles (for_each xs b) (for_each xs b2).
Proof.
  intros Hb. induction xs as [|x xs IH]; simpl.
  - now apply (settles_pure _ (Ok tt) []).
  - apply settles_bind; [apply Hb | intros _; exact IH].
Qed.

Lemma settles_makedirs (E E2 : env) (path : string) (MODE : Z) :
  settles (makedirs_if_absent E path MODE) (makedirs_if_absent E2 path MODE).
Proof.
  intros fs [] fs' out H. rewrite makedirs_if_absent_run in H.
  assert (Hpresent : exists nd, fs' !! path = Some nd).
  { destruct (fs !! path) as [nd|] eqn:Hp; injection H as <- <-.
    - now exists nd.
    - eexists. apply lookup_insert_eq. }
  assert (Hg : grown fs fs').
  { destruct (fs !! path) as [nd|] eqn:Hp; injection H as <- <-.
    - apply grown_refl.
    - intros x nd Hx. exists nd. split; [|apply Qle_refl].
      rewrite lookup_insert_ne; [exact Hx | congruence]. }
  split; [exact Hg|]. intros fs'' Hg'.
  destruct Hpresent as (nd & Hnd). destruct (Hg' path nd Hnd) as (nd' & Hnd' & _).
  exists []. rewrite makedirs_if_absent_run, Hnd'. split; reflexivity.
Qed.

Lemma up_to_date_quiet (E2 : env) (remote_file local_file : string)
    (remote_mtime MODE : Z) (LIST2 : bool) (fs : FS) (nd : node) :
  fs !! local_file = Some nd -> (inject_Z remote_mtime <= st_mtime nd)%Q ->
  http_pull_file E2 remote_file remote_mtime local_file LIST2 false MODE fs =
  (Ok tt, fs, []).
Proof.
  intros Hl Hle.
  pose proof (decision_up_to_date fs local_file remote_mtime) as Hup.
  pose proof (http_pull_file_unfold fs local_file remote_mtime E2 remote_file
                LIST2 false MODE) as Hrun.
  assert (Hdec : decision_spec (local_mtime fs local_file) remote_mtime = UP_TO_DATE).
  { apply Hup. exists nd. split; [exact Hl|]. now apply Qle_not_lt. }
  rewrite Hdec in Hrun. exact Hrun.
Qed.

Lemma settles_http_pull_file (E E2 : env) (remote_file local_file : string)
    (remote_mtime MODE : Z) (LIST2 : bool) :
  settles (http_pull_file E remote_file remote_mtime local_file false false MODE)
          (http_pull_file E2 remote_file remote_mtime local_file LIST2 false MODE).
Proof.
  intros fs [] fs' out H.
  pose proof (decision_stale fs local_file remote_mtime) as Hstale.
  pose proof (decision_up_to_date fs local_file remote_mtime) as Hup.
  rewrite http_pull_file_unfold in H.
  assert (Hlater : forall nd, fs' !! local_file = Some nd ->
                     (inject_Z remote_mtime <= st_mtime nd)%Q ->
                     forall fs'', grown fs' fs'' ->
                     exists out2,
                       http_pull_file E2 remote_file remote_mtime local_file
                         LIST2 false MODE fs'' = (Ok tt, fs'', out2) /\
                       reported out2 = []).
  { intros nd Hnd Hle fs'' Hg. destruct (Hg _ _ Hnd) as (nd'' & Hnd'' & Hle'').
    exists []. split; [|reflexivity].
    apply (up_to_date_quiet E2 _ _ _ _ _ fs'' nd'' Hnd'').
    exact (Qle_trans _ _ _ Hle Hle''). }
  destruct (decision_spec (local_mtime fs local_file) remote_mtime) eqn:Hdec;
    cbn [warrants_transfer orb] in H.
  - (* NEW *)
    unfold bind at 1 2, print in H.
    destruct (transfer E remote_file remote_mtime local_file MODE fs)
      as [[[[]|e] fs2] out2] eqn:Ht; [|discriminate].
    apply transfer_ok_mtime in Ht as (_ & nd & -> & Hm). injection H as <- <-.
    assert (Hnone : fs !! local_file = None).
    { unfold local_mtime, decision_spec in Hdec.
      destruct (fs !! local_file) as [nd0|]; [|reflexivity].
      cbn in Hdec. destruct (Qltb _ _); discriminate. }
    split.
    + intros x nd0 Hx. exists nd0. split; [|apply Qle_refl].
      rewrite lookup_insert_ne; [exact Hx | congruence].
    + apply (Hlater nd); [apply lookup_insert_eq | rewrite Hm; apply Qle_refl].
  - (* STALE *)
    unfold bind at 1 2, print in H.
    destruct (transfer E remote_file remote_mtime local_file MODE fs)
      as [[[[]|e] fs2] out2] eqn:Ht; [|discriminate].
    apply transfer_ok_mtime in Ht as (_ & nd & -> & Hm). injection H as <- <-.
    destruct (proj1 Hstale eq_refl) as (nd0 & Hnd0 & Hlt).
    split.
    + intros x ndx Hx. destruct (decide (local_file = x)) as [<-|Hne].
      * exists nd. split; [apply lookup_insert_eq|].
        rewrite Hm. apply Qlt_le_weak. congruence.
      * exists ndx. split; [|apply Qle_refl]. now rewrite lookup_insert_ne.
    + apply (Hlater nd); [apply lookup_insert_eq | rewrite Hm; apply Qle_refl].
  - (* UP_TO_DATE *)
    injection H as <- <-.
    destruct (proj1 Hup eq_refl) as (nd0 & Hnd0 & Hnlt).
    split; [apply grown_refl|].
    apply (Hlater nd0 Hnd0). now apply Qnot_lt_le.
Qed.

Lemma settles_sync (E E2 : env) (a : args) :
  LIST a = false -> CLOBBER a = false ->
  (forall url, listing E2 url = listing E url) ->
  settles (nsidc_icesat2_sync E a) (nsidc_icesat2_sync E2 a).
Proof.
  intros HL HC Hsame. unfold nsidc_icesat2_sync.
  apply settles_bind; [apply settles_makedirs|]. intros _.
  apply settles_bind.
  { unfold R2_compile. destruct (R2_pattern _ _); [apply settles_lift|].
    now apply (settles_pure _ (Raise ValueError) []). }
  intros R2. apply settles_for_each. intros p. unfold sync_product.
  apply settles_bind; [now apply (settles_pure _ (Ok tt) [LProduct p])|]. intros _.
  apply settles_bind; [apply settles_lift|]. intros R1.
  rewrite Hsame.
  apply settles_bind; [apply settles_lift|]. intros pg.
  apply settles_for_each. intros sd. unfold sync_subdirectory.
  apply settles_bind; [apply settles_makedirs|]. intros _.
  rewrite Hsame.
  apply settles_bind; [apply settles_lift|]. intros pg'.
  apply settles_for_each. intros i. unfold sync_file.
  apply settles_bind; [apply settles_lift|]. intros name.
  apply settles_bind; [apply settles_lift|]. intros text.
  apply settles_bind; [apply settles_lift|]. intros LMD.
  rewrite HL, HC. apply settles_http_pull_file.
Qed.

End SecondRun.

(** C5 (as amended): with the clobber flag off, after a live run has
    completed, a second run against an unchanged remote archive, at
    whatever wall-clock time, completes, transfers zero files and leaves
    the local tree as it is: every file is at least as recent as the
    remote's reported last-modified time, because a successful transfer
    set the local modification time to that time. *)
Theorem second_run_transfers_nothing
    (E E2 : env) (a : args) (fs fs1 : FS) (out1 : list line) :
  LIST a = false -> CLOBBER a = false ->
  (forall url, listing E2 url = listing E url) ->
  nsidc_icesat2_sync E a fs = (Ok tt, fs1, out1) ->
  exists out2,
    nsidc_icesat2_sync E2 a fs1 = (Ok tt, fs1, out2) /\ reported out2 = [].
Proof.
  intros HL HC Hsame H1.
  destruct (settles_sync E E2 a HL HC Hsame fs tt fs1 out1 H1) as [_ Hq].
  exact (Hq fs1 (grown_refl fs1)).
Qed.

Lemma second_run_transfers_nothing_witness :
  exists out2,
    nsidc_icesat2_sync Scenario.broken_world
      (Scenario.narrow_args ["ATL06"] false false) Scenario.after_ATL06 =
      (Ok tt, Scenario.after_ATL06, out2) /\
    reported out2 = [].
Proof.
  apply (second_run_transfers_nothing Scenario.world Scenario.broken_world
           (Scenario.narrow_args ["ATL06"] false false) ∅ Scenario.after_ATL06
           Scenario.report_ATL06).
  - reflexivity.
  - reflexivity.
  - reflexivity.
  - vm_compute. reflexivity.
Defined.

(** C5 (as stated) fails: with the clobber flag set the second run
    decides UP_TO_DATE for the file and transfers it again. *)
Lemma clobber_run_transfers_again :
  let '(r1, fs1, out1) :=
    nsidc_icesat2_sync Scenario.world (Scenario.run_args ["ATL06"] false true) ∅ in
  let '(r2, fs2, out2) :=
    nsidc_icesat2_sync Scenario.world (Scenario.run_args ["ATL06"] false true) fs1 in
  r1 = Ok tt /\ r2 = Ok tt /\
  decision_spec (local_mtime fs1 Scenario.local_ATL06) 1539594000 = UP_TO_DATE /\
  reported out2 = [Scenario.local_ATL06] /\
  In (LLocal Scenario.local_ATL06 " (clobber)") out2.
Proof. vm_compute. repeat split; try reflexivity. right. right. now left. Qed.

(** * Further properties of the run *)

(** ** What a run changes and what it leaves alone *)

Section Frame.

Lemma changes_within_refl (fs : FS) (out : list line) : changes_within fs fs out.
Proof. intros x. now left. Qed.

Lemma changes_within_trans (fs fs1 fs2 : FS) (out1 out2 : list line) :
  changes_within fs fs1 out1 -> changes_within fs1 fs2 out2 ->
  changes_within fs fs2 (out1 ++ out2).
Proof.
  intros H1 H2 x. rewrite reported_app.
  destruct (H1 x) as [E1|[(N1 & nd1 & S1 & K1)|(I1 & F1 & nd1 & S1 & K1)]];
    destruct (H2 x) as [E2|[(N2 & nd2 & S2 & K2)|(I2 & F2 & nd2 & S2 & K2)]].
  - left. congruence.
  - right. left. split; [congruence | eauto].
  - right. right. split; [apply in_or_app; now right|].
    split; [intros nd Hnd; apply F2; congruence | eauto].
  - right. left. split; [exact N1|]. exists nd1. split; [congruence | exact K1].
  - congruence.
  - specialize (F2 nd1 S1). congruence.
  - right. right. split; [apply in_or_app; now left|].
    split; [exact F1|]. exists nd1. split; [congruence | exact K1].
  - congruence.
  - right. right. split; [apply in_or_app; now left|].
    split; [exact F1 | eauto].
Qed.

Lemma framed_bind {A B : Type} (m : M A) (k : A -> M B) :
  framed m -> (forall a, framed (k a)) -> framed (bind m k).
Proof.
  intros Hm Hk fs r fs' out. unfold bind.
  destruct (m fs) as [[[a|e] fs1] out1] eqn:E1.
  - destruct (k a fs1) as [[r2 fs2] out2] eqn:E2. intros H. injection H as <- <- <-.
    exact (changes_within_trans _ _ _ _ _ (Hm _ _ _ _ E1) (Hk a _ _ _ _ E2)).
  - intros H. injection H as <- <- <-. exact (Hm _ _ _ _ E1).
Qed.

Lemma framed_for_each {A : Type} (xs : list A) (body : A -> M unit) :
  (forall x, framed (body x)) -> framed (for_each xs body).
Proof.
  intros Hb. induction xs as [|x xs IH]; simpl.
  - intros fs r fs' out H. injection H as <- <- <-. apply changes_within_refl.
  - apply framed_bind; [apply Hb | intros _; exact IH].
Qed.

Lemma framed_lift {A : Type} (e : exn) (o : option A) : framed (lift e o).
Proof.
  intros fs r fs' out. destruct o; intros H; injection H as <- <- <-;
    apply changes_within_refl.
Qed.

Lemma framed_print (l : line) : framed (print l).
Proof. intros fs r fs' out H. injection H as <- <- <-. apply changes_within_refl. Qed.

Lemma framed_makedirs (E : env) (path : string) (MODE : Z) :
  framed (makedirs_if_absent E path MODE).
Proof.
  intros fs r fs' out. rewrite makedirs_if_absent_run.
  destruct (fs !! path) as [nd|] eqn:Hp; intros H; injection H as <- <- <-.
  - apply changes_within_refl.
  - intros x. destruct (decide (path = x)) as [<-|Hne].
    + right. left. split; [exact Hp|]. rewrite lookup_insert_eq. eauto.
    + left. now rewrite lookup_insert_ne.
Qed.

(** where a transfer leaves the file system, however it ends *)
Lemma transfer_frame (E : env) (remote_file local_file : string)
    (remote_mtime MODE : Z) (fs fs' : FS) (r : outcome unit) (out : list line) :
  transfer E remote_file remote_mtime local_file MODE fs = (r, fs', out) ->
  out = [] /\
  (fs' = fs \/
   exists nd', fs' = <[local_file := nd']> fs /\ nkind nd' = KFile /\
               forall nd, fs !! local_file = Some nd -> nkind nd = KFile).
Proof.
  rewrite transfer_run. destruct (body E remote_file) as [dl|].
  2:{ intros H. injection H as <- <- <-. auto. }
  destruct (opened_node E fs local_file) as [nd0|] eqn:Ho.
  2:{ intros H. injection H as <- <- <-. auto. }
  assert (Hk : forall nd, fs !! local_file = Some nd -> nkind nd = KFile).
  { intros nd Hnd. unfold opened_node in Ho. rewrite Hnd in Ho.
    destruct (nkind nd); [reflexivity | discriminate]. }
  destruct (fails_after dl); intros H; injection H as <- <- <-;
    (split; [reflexivity|]); right; eexists; split; eauto.
Qed.

Lemma framed_http_pull_file (E : env) (remote_file local_file : string)
    (remote_mtime MODE : Z) (LIST CLOBBER : bool) :
  framed (http_pull_file E remote_file remote_mtime local_file LIST CLOBBER MODE).
Proof.
  intros fs r fs' out. rewrite http_pull_file_unfold.
  destruct (warrants_transfer _ || CLOBBER).
  2:{ intros H. injection H as <- <- <-. apply changes_within_refl. }
  unfold bind at 1 2, print. destruct LIST.
  { intros H. injection H as <- <- <-. apply changes_within_refl. }
  destruct (transfer E remote_file remote_mtime local_file MODE fs)
    as [[r2 fs2] out2] eqn:Ht.
  apply transfer_frame in Ht as (-> & [->|(nd' & -> & Hk' & Hk)]).
  - destruct r2; intros H; injection H as <- <- <-; apply changes_within_refl.
  - assert (Hgoal : forall o : list line,
              In local_file (reported o) ->
              changes_within fs (<[local_file := nd']> fs) o).
    { intros o Hin x. destruct (decide (local_file = x)) as [<-|Hne].
      - right. right. split; [exact Hin|]. split; [exact Hk|].
        rewrite lookup_insert_eq. eauto.
      - left. now rewrite lookup_insert_ne. }
    destruct r2; intros H; injection H as <- <- <-; apply Hgoal; cbn; auto.
Qed.

Lemma framed_sync (E : env) (a : args) : framed (nsidc_icesat2_sync E a).
Proof.
  unfold nsidc_icesat2_sync.
  apply framed_bind; [apply framed_makedirs|]. intros _.
  apply framed_bind.
  { unfold R2_compile. destruct (R2_pattern _ _); [apply framed_lift|].
    intros fs r fs' out H. injection H as <- <- <-. apply changes_within_refl. }
  intros R2. apply framed_for_each. intros p. unfold sync_product.
  apply framed_bind; [apply framed_print|]. intros _.
  apply framed_bind; [apply framed_lift|]. intros R1.
  apply framed_bind; [apply framed_lift|]. intros pg.
  apply framed_for_each. intros sd. unfold sync_subdirectory.
  apply framed_bind; [apply framed_makedirs|]. intros _.
  apply framed_bind; [apply framed_lift|]. intros pg'.
  apply framed_for_each. intros i. unfold sync_file.
  apply framed_bind; [apply framed_lift|]. intros name.
  apply framed_bind; [apply framed_lift|]. intros text.
  apply framed_bind; [apply framed_lift|]. intros LMD.
  apply framed_http_pull_file.
Qed.

End Frame.

(** X1: with the log option off, however a run ends: every directory
    it found is still a directory; every file it found is still a file,
    and one it did not report for transfer is exactly as it was,
    contents, times and mode; and every path it found nothing at is
    still empty, or is a directory, or is a file the run reported.  So a
    run never removes a path, never turns a directory into a file or a
    file into a directory, and never touches or creates a file it did
    not report. *)
Theorem run_changes_only_what_it_reports (E : env) (a : args) (fs : FS) :
  let '(r, fs', out) := nsidc_icesat2_sync E a fs in
  touches_only_reported fs fs' out.
Proof.
  destruct (nsidc_icesat2_sync E a fs) as [[r fs'] out] eqn:Hrun.
  pose proof (framed_sync E a fs r fs' out Hrun) as Hc.
  intros x. split; [|split].
  - intros nd Hx Hk.
    destruct (Hc x) as [Eq|[(N & _)|(_ & F & _)]].
    + exists nd. split; [congruence | exact Hk].
    + congruence.
    + specialize (F nd Hx). congruence.
  - intros nd Hx Hk.
    destruct (Hc x) as [Eq|[(N & _)|(I & _ & nd' & S' & K')]].
    + exists nd. split; [congruence|]. split; [exact Hk | reflexivity].
    + congruence.
    + exists nd'. split; [exact S'|]. split; [exact K'|]. intros Hn. contradiction.
  - intros Hx nd' Hx' Hk'.
    destruct (Hc x) as [Eq|[(_ & nd & S & K)|(I & _)]].
    + congruence.
    + rewrite S in Hx'. injection Hx' as <-. congruence.
    + exact I.
Qed.

(** ** The order of the products *)

Section Order.

Lemma products_of_app (o1 o2 : list line) :
  products_of (o1 ++ o2) = products_of o1 ++ products_of o2.
Proof. unfold products_of. now rewrite map_app, concat_app. Qed.

Lemma announces_nothing_bind {A B : Type} (m : M A) (k : A -> M B) :
  announces_nothing m -> (forall a, announces_nothing (k a)) ->
  announces_nothing (bind m k).
Proof.
  intros Hm Hk fs r fs' out. unfold bind.
  destruct (m fs) as [[[a|e] fs1] out1] eqn:E1.
  - destruct (k a fs1) as [[r2 fs2] out2] eqn:E2. intros H. injection H as <- <- <-.
    rewrite products_of_app, (Hm _ _ _ _ E1), (Hk a _ _ _ _ E2). reflexivity.
  - intros H. injection H as <- <- <-. exact (Hm _ _ _ _ E1).
Qed.

Lemma announces_nothing_for_each {A : Type} (xs : list A) (body : A -> M unit) :
  (forall x, announces_nothing (body x)) -> announces_nothing (for_each xs body).
Proof.
  intros Hb. induction xs as [|x xs IH]; simpl.
  - intros fs r fs' out H. now injection H as <- <- <-.
  - apply announces_nothing_bind; [apply Hb | intros _; exact IH].
Qed.

Lemma announces_nothing_lift {A : Type} (e : exn) (o : option A) :
  announces_nothing (lift e o).
Proof. intros fs r fs' out. destruct o; intros H; now injection H as <- <- <-. Qed.

Lemma announces_nothing_makedirs (E : env) (path : string) (MODE : Z) :
  announces_nothing (makedirs_if_absent E path MODE).
Proof.
  intros fs r fs' out. rewrite makedirs_if_absent_run.
  destruct (fs !! path); intros H; now injection H as <- <- <-.
Qed.

Lemma announces_nothing_http_pull_file (E : env) (remote_file local_file : string)
    (remote_mtime MODE : Z) (LIST CLOBBER : bool) :
  announces_nothing
    (http_pull_file E remote_file remote_mtime local_file LIST CLOBBER MODE).
Proof.
  intros fs r fs' out. rewrite http_pull_file_unfold.
  destruct (warrants_transfer _ || CLOBBER).
  2:{ intros H. now injection H as <- <- <-. }
  unfold bind at 1 2, print. destruct LIST.
  { intros H. now injection H as <- <- <-. }
  destruct (transfer E remote_file remote_mtime local_file MODE fs)
    as [[r2 fs2] out2] eqn:Ht.
  apply transfer_frame in Ht as (-> & _).
  destruct r2; intros H; now injection H as <- <- <-.
Qed.

Lemma announces_nothing_R2_compile (a : args) : announces_nothing (R2_compile a).
Proof.
  unfold R2_compile. destruct (R2_pattern _ _); [apply announces_nothing_lift|].
  intros fs r fs' out H. now injection H as <- <- <-.
Qed.

(** a product announces itself first and nothing else after *)
Lemma sync_product_announces (E : env) (a : args) (R2 : regex) (p : string)
    (fs fs' : FS) (r : outcome unit) (out : list line) :
  sync_product E a R2 p fs = (r, fs', out) -> products_of out = [p].
Proof.
  unfold sync_product. unfold bind at 1, print at 1.
  match goal with
  | |- context [bind ?m ?k fs] =>
      assert (Hq : announces_nothing (bind m k))
  end.
  { apply announces_nothing_bind; [apply announces_nothing_lift|]. intros R1.
    apply announces_nothing_bind; [apply announces_nothing_lift|]. intros pg.
    apply announces_nothing_for_each. intros sd. unfold sync_subdirectory.
    apply announces_nothing_bind; [apply announces_nothing_makedirs|]. intros _.
    apply announces_nothing_bind; [apply announces_nothing_lift|]. intros pg'.
    apply announces_nothing_for_each. intros i. unfold sync_file.
    apply announces_nothing_bind; [apply announces_nothing_lift|]. intros name.
    apply announces_nothing_bind; [apply announces_nothing_lift|]. intros text.
    apply announces_nothing_bind; [apply announces_nothing_lift|]. intros LMD.
    apply announces_nothing_http_pull_file. }
  match goal with
  | |- context [bind ?m ?k fs] =>
      destruct (bind m k fs) as [[r2 fs2] out2] eqn:E2
  end.
  intros H. injection H as <- <- <-.
  change (products_of (LProduct p :: out2)) with (p :: products_of out2).
  now rewrite (Hq _ _ _ _ E2).
Qed.

Lemma for_each_products (E : env) (a : args) (R2 : regex) (ps : list string)
    (fs fs' : FS) (r : outcome unit) (out : list line) :
  for_each ps (sync_product E a R2) fs = (r, fs', out) ->
  (exists n, products_of out = firstn n ps) /\
  (r = Ok tt -> products_of out = ps).
Proof.
  revert fs out. induction ps as [|p ps IH]; intros fs out; simpl.
  - intros H. injection H as <- <- <-. split; [now exists 0%nat | reflexivity].
  - unfold bind.
    destruct (sync_product E a R2 p fs) as [[[[]|e] fs1] out1] eqn:E1.
    + destruct (for_each ps (sync_product E a R2) fs1) as [[r2 fs2] out2] eqn:E2.
      intros H. injection H as <- <- <-.
      rewrite products_of_app, (sync_product_announces _ _ _ _ _ _ _ _ E1).
      destruct (IH _ _ E2) as [[n Hn] Hok]. split.
      * exists (S n). cbn. now rewrite Hn.
      * intros Hr. cbn. now rewrite (Hok Hr).
    + intros H. injection H as <- <- <-.
      rewrite (sync_product_announces _ _ _ _ _ _ _ _ E1).
      split; [now exists 1%nat | discriminate].
Qed.

End Order.

(** X2: products are processed in the order the caller gave them: the
    products a run announces are an initial segment of [PRODUCTS], each
    announced once, and all of [PRODUCTS] when the run completes. *)
Theorem products_in_caller_order (E : env) (a : args) (fs : FS) :
  let '(r, fs', out) := nsidc_icesat2_sync E a fs in
  (exists n, products_of out = firstn n (PRODUCTS a)) /\
  (r = Ok tt -> products_of out = PRODUCTS a).
Proof.
  unfold nsidc_icesat2_sync. unfold bind at 1.
  destruct (makedirs_if_absent E (ddir a) (MODE a) fs) as [[[[]|e] fs1] out1] eqn:E1.
  2:{ rewrite (announces_nothing_makedirs _ _ _ _ _ _ _ E1).
      split; [now exists 0%nat | discriminate]. }
  pose proof (announces_nothing_makedirs _ _ _ _ _ _ _ E1) as H1.
  unfold bind.
  destruct (R2_compile a fs1) as [[[R2|e] fs2] out2] eqn:E2.
  - assert (H2 : products_of out2 = []).
    { exact (announces_nothing_R2_compile _ _ _ _ _ E2). }
    destruct (for_each (PRODUCTS a) (sync_product E a R2) fs2)
      as [[r3 fs3] out3] eqn:E3.
    rewrite !products_of_app, H1, H2. cbn [app].
    exact (for_each_products _ _ _ _ _ _ _ _ E3).
  - assert (H2 : products_of out2 = []).
    { exact (announces_nothing_R2_compile _ _ _ _ _ E2). }
    rewrite products_of_app, H1, H2.
    split; [now exists 0%nat | discriminate].
Qed.

(** ** What a completed transfer leaves behind *)

(** X3: when a live [http_pull_file] selects a file and returns, no
    exception was raised during the copy, and the local file is a regular
    file that holds what the response delivered before it ended
    (whatever the file held before): the whole body, or only its first
    bytes when the connection was closed early.  Its modification time
    is the remote timestamp, its mode is [MODE], the two report lines
    were printed, and the decision for the same timestamp is now
    UP_TO_DATE. *)
Theorem completed_pull_postcondition
    (E : env) (remote_file local_file : string) (remote_mtime MODE : Z)
    (CLOBBER : bool) (fs fs' : FS) (out : list line) :
  http_pull_file E remote_file remote_mtime local_file false CLOBBER MODE fs =
    (Ok tt, fs', out) ->
  warrants_transfer (decision_spec (local_mtime fs local_file) remote_mtime)
    || CLOBBER = true ->
  exists dl nd,
    body E remote_file = Some dl /\ fails_after dl = None /\
    fs' = <[local_file := nd]> fs /\
    nkind nd = KFile /\
    (cut_after dl = None -> contents nd = payload dl) /\
    (forall k, cut_after dl = Some k -> contents nd = take k (payload dl)) /\
    st_mtime nd = inject_Z remote_mtime /\
    st_mode nd = MODE /\
    out = [LRemote remote_file;
           LLocal local_file
             (label_of (decision_spec (local_mtime fs local_file) remote_mtime))] /\
    decision_spec (local_mtime fs' local_file) remote_mtime = UP_TO_DATE.
Proof.
  intros Hrun Hsel. rewrite http_pull_file_unfold, Hsel in Hrun.
  unfold bind at 1 2, print in Hrun. rewrite transfer_run in Hrun.
  destruct (body E remote_file) as [dl|]; [|discriminate].
  destruct (opened_node E fs local_file) as [nd0|] eqn:Ho; [|discriminate].
  destruct (fails_after dl) eqn:Hf; [discriminate|].
  injection Hrun as <- <-.
  eexists dl, _. split; [reflexivity|]. split; [exact Hf|].
  split; [reflexivity|]. cbn [nkind contents st_mtime st_mode].
  split; [reflexivity|].
  split; [intros Hc; unfold received; now rewrite Hc|].
  split; [intros k Hc; unfold received; now rewrite Hc|].
  split; [reflexivity|]. split; [reflexivity|]. split; [reflexivity|].
  unfold local_mtime. rewrite lookup_insert_eq. cbn.
  now rewrite Qltb_irrefl.
Qed.

Lemma completed_pull_postcondition_witness :
  exists dl nd,
    body Scenario.cut_world "u" = Some dl /\ fails_after dl = None /\
    Scenario.cut_tree = <["/data/f" := nd]> (∅ : FS) /\
    nkind nd = KFile /\
    (cut_after dl = None -> contents nd = payload dl) /\
    (forall k, cut_after dl = Some k -> contents nd = take k (payload dl)) /\
    st_mtime nd = inject_Z 1539594000 /\
    st_mode nd = 509 /\
    [LRemote "u"; LLocal "/data/f" " (new)"] =
    [LRemote "u";
     LLocal "/data/f"
       (label_of (decision_spec (local_mtime ∅ "/data/f") 1539594000))] /\
    decision_spec (local_mtime Scenario.cut_tree "/data/f") 1539594000 = UP_TO_DATE.
Proof.
  apply (completed_pull_postcondition Scenario.cut_world "u" "/data/f" 1539594000 509
           false ∅); reflexivity.
Defined.

(** ** The years of [main] *)

(** X4: [main] hands the years of [--year] over as a numpy array, and
    the test [elif YEARS:] of an array of two or more years raises
    ValueError: without explicit subdirectory names the run ends there,
    after the local root has been looked after and before any product is
    announced. *)
Theorem two_years_from_main_raise
    (E : env) (a : args) (y1 y2 : Z) (ys : list Z) (fs : FS) :
  SUBDIRECTORY a = None \/ SUBDIRECTORY a = Some [] ->
  YEARS a = YArray (y1 :: y2 :: ys) ->
  nsidc_icesat2_sync E a fs =
  (Raise ValueError,
   if path_exists fs (ddir a) then fs
   else <[ddir a := Node KDir (now E) (now E) (Z.ldiff (MODE a) (umask E)) ""]> fs,
   []).
Proof.
  intros HS HY. unfold nsidc_icesat2_sync, bind.
  rewrite makedirs_if_absent_run. unfold path_exists.
  assert (HR : forall fs1, R2_compile a fs1 = (Raise ValueError, fs1, [])).
  { intros fs1. unfold R2_compile, R2_pattern. rewrite HY.
    destruct HS as [-> | ->]; reflexivity. }
  destruct (fs !! ddir a); now rewrite HR.
Qed.

Lemma two_years_from_main_raise_witness :
  nsidc_icesat2_sync Scenario.world
    (Args "/data" ["ATL06"] "003" [1] [2] [235] (YArray [2018; 2019]) None
          false false 509 false) ∅ =
  (Raise ValueError,
   if path_exists ∅ "/data" then ∅
   else <["/data" := Node KDir (now Scenario.world) (now Scenario.world)
                          (Z.ldiff 509 (umask Scenario.world)) ""]> ∅,
   []).
Proof.
  apply (two_years_from_main_raise Scenario.world
           (Args "/data" ["ATL06"] "003" [1] [2] [235] (YArray [2018; 2019]) None
                 false false 509 false) 2018 2019 [] ∅).
  - now left.
  - reflexivity.
Defined.

(** ** Timestamps that are refused, and the order of those that are not *)

Section Timestamps.

#[local] Arguments Ascii.eqb : simpl nomatch.
#[local] Arguments is_space : simpl never.

Ltac enum_cases n lo hi tac :=
  let rec go k :=
    let over := eval compute in (hi <? k) in
    lazymatch over with
    | true => exfalso; lia
    | false =>
        let E := fresh "E" in
        destruct (Z.eq_dec n k) as [E|E];
        [ subst n; tac
        | let k' := eval compute in (k + 1) in go k' ]
    end in
  go lo.

Lemma format_regex_fields (Y m d H M : Z) :
  0 <= Y <= 9999 -> 1 <= m <= 12 -> 1 <= d <= 31 ->
  0 <= H <= 23 -> 0 <= M <= 59 ->
  exists tl,
    format_regex (lastmod_text Y m d H M) = (StructTime Y m d H M, "") :: tl.
Proof.
  intros HY Hm Hd HH HM. unfold format_regex, lastmod_text.
  repeat change ("-" +:+ ?x) with (String "-" x).
  change (" " +:+ ?x) with (String " " x).
  change (":" +:+ ?x) with (String ":" x).
  rewrite p_Y_lit by lia. cbv beta. rewrite p_m_lit by lia. cbv beta.
  rewrite p_d_spaces_H by lia. cbv beta. rewrite p_H_lit by lia. cbv beta.
  apply (p_M_end M (fun v => StructTime Y m d H v) HM).
Qed.

Lemma remote_mtime_of_fields (Y m d H M : Z) (ws : string) :
  0 <= Y <= 9999 -> 1 <= m <= 12 -> 1 <= d <= 31 ->
  0 <= H <= 23 -> 0 <= M <= 59 -> Str.all is_space ws = true ->
  remote_mtime_of (lastmod_text Y m d H M +:+ ws) =
  if valid_date Y m d then Some (utc_epoch Y m d H M) else None.
Proof.
  intros HY Hm Hd HH HM Hws. unfold remote_mtime_of.
  rewrite rstrip_app_spaces, rstrip_lastmod by assumption. unfold strptime.
  destruct (format_regex_fields Y m d H M HY Hm Hd HH HM) as (tl & ->).
  cbn [tm_year tm_mon tm_mday].
  destruct (valid_date Y m d); cbn [option_map]; [|reflexivity].
  now rewrite timegm_utc.
Qed.

Lemma rstrip_head (c : ascii) (rest : string) :
  rstrip (String c rest) = "" \/ exists r, rstrip (String c rest) = String c r.
Proof.
  cbn [rstrip]. destruct (rstrip rest).
  - destruct (is_space c); [now left | right; eauto].
  - right. eauto.
Qed.

Lemma strptime_needs_digit (s : string) :
  (forall c rest, s = String c rest -> is_digit c = false) -> strptime s = None.
Proof.
  intros Hs.
  assert (Hd : p_digit 0 9 s = []).
  { destruct s as [|c rest]; [reflexivity|].
    unfold p_digit. now rewrite (Hs c rest eq_refl). }
  assert (HY : p_Y s = []).
  { unfold p_Y. unfold p_bind at 1. now rewrite Hd. }
  unfold strptime, format_regex. unfold p_bind at 1. now rewrite HY.
Qed.

Lemma days_before_year_mono (a b : Z) :
  a <= b -> days_before_year a <= days_before_year b.
Proof.
  intros Hab. unfold days_before_year. Z.div_mod_to_equations. lia.
Qed.

Lemma day_of_year_le (Y m d : Z) :
  valid_date Y m d = true ->
  1 <= days_before_month Y m + d <= (if is_leap Y then 366 else 365).
Proof.
  intros Hv. apply valid_date_bounds in Hv as (HY & Hm & Hd & _).
  unfold days_before_month, days_in_month in *.
  enum_cases m 1 12 ltac:(destruct (is_leap Y); simpl in *; lia).
Qed.

Lemma days_before_month_mono (Y m m' d : Z) :
  valid_date Y m d = true -> 1 <= m' <= 12 -> m < m' ->
  days_before_month Y m + d <= days_before_month Y m'.
Proof.
  intros Hv Hm' Hlt. apply valid_date_bounds in Hv as (HY & Hm & Hd & _).
  unfold days_before_month, days_in_month in *.
  enum_cases m 1 12 ltac:(idtac);
  enum_cases m' 1 12 ltac:(idtac);
  destruct (is_leap Y);
  cbv [Z.to_nat Pos.to_nat Pos.iter_op Nat.add nth Z.ltb Z.eqb Z.compare
       Pos.compare Pos.compare_cont Pos.eqb andb] in *; lia.
Qed.

Lemma ymd2ord_lt (Y m d Y' m' d' : Z) :
  valid_date Y m d = true -> valid_date Y' m' d' = true ->
  Y < Y' \/ (Y = Y' /\ (m < m' \/ (m = m' /\ d < d'))) ->
  ymd2ord Y m d < ymd2ord Y' m' d'.
Proof.
  intros Hv Hv' Hlt. unfold ymd2ord.
  pose proof (day_of_year_le Y m d Hv) as Hdoy.
  pose proof (day_of_year_le Y' m' d' Hv') as Hdoy'.
  destruct Hlt as [HY|[-> [Hm|[-> Hd]]]].
  - pose proof (days_before_year_mono (Y + 1) Y' ltac:(lia)) as Hmono.
    rewrite days_before_next_year in Hmono.
    destruct (is_leap Y); lia.
  - pose proof (valid_date_bounds _ _ _ Hv') as (_ & Hm' & Hd' & _).
    pose proof (days_before_month_mono Y' m m' d Hv Hm' Hm). lia.
  - lia.
Qed.

Lemma utc_epoch_lt (t1 t2 : struct_time) :
  valid_time t1 -> valid_time t2 -> chron_lt t1 t2 ->
  utc_epoch (tm_year t1) (tm_mon t1) (tm_mday t1) (tm_hour t1) (tm_min t1) <
  utc_epoch (tm_year t2) (tm_mon t2) (tm_mday t2) (tm_hour t2) (tm_min t2).
Proof.
  destruct t1 as [Y m d H M], t2 as [Y' m' d' H' M'].
  unfold valid_time, chron_lt.
  cbn [tm_year tm_mon tm_mday tm_hour tm_min].
  intros (Hv & HH & HM) (Hv' & HH' & HM') Hlt.
  unfold utc_epoch.
  assert (Hdate : Y < Y' \/ (Y = Y' /\ (m < m' \/ (m = m' /\ d < d'))) \/
                  (Y = Y' /\ m = m' /\ d = d' /\
                   (H < H' \/ (H = H' /\ M < M')))) by lia.
  destruct Hdate as [Hd|[Hd|(-> & -> & -> & Ht)]].
  - pose proof (ymd2ord_lt Y m d Y' m' d' Hv Hv' (or_introl Hd)). lia.
  - pose proof (ymd2ord_lt Y m d Y' m' d' Hv Hv' (or_intror Hd)). lia.
  - lia.
Qed.

Lemma remote_mtime_of_text (t : struct_time) :
  valid_time t ->
  remote_mtime_of (text_of t) =
  Some (utc_epoch (tm_year t) (tm_mon t) (tm_mday t) (tm_hour t) (tm_min t)).
Proof.
  intros (Hv & HH & HM). unfold text_of.
  rewrite <- (str_app_nil_r (lastmod_text _ _ _ _ _)).
  now rewrite remote_mtime_of_lastmod by (assumption || reflexivity).
Qed.


End Timestamps.

(** X5: a last-modified text of the right shape that names a day the
    calendar does not have (30 February, 31 April, 29 February of a
    common year, a day of year 0000) is refused: [time.strptime] raises
    ValueError, the run ends at that file, and nothing is reported or
    changed for it. *)
Theorem impossible_date_raises
    (E : env) (a : args) (dd sd local_dir : string) (pg : page) (i : nat)
    (name ws : string) (Y m d H Mi : Z) (fs : FS) :
  0 <= Y <= 9999 -> 1 <= m <= 12 -> 1 <= d <= 31 ->
  0 <= H <= 23 -> 0 <= Mi <= 59 -> Str.all is_space ws = true ->
  valid_date Y m d = false ->
  colnames pg !! i = Some name ->
  collastmod pg !! i = Some (lastmod_text Y m d H Mi +:+ ws) ->
  remote_mtime_of (lastmod_text Y m d H Mi +:+ ws) = None /\
  sync_file E a dd sd local_dir pg i fs = (Raise ValueError, fs, []).
Proof.
  intros HY Hm Hd HH HM Hws Hv Hn Ht.
  pose proof (remote_mtime_of_fields Y m d H Mi ws HY Hm Hd HH HM Hws) as Hr.
  rewrite Hv in Hr. split; [exact Hr|].
  unfold remote_mtime_of in Hr.
  destruct (strptime (rstrip (lastmod_text Y m d H Mi +:+ ws))) as [tm|] eqn:Hs;
    [discriminate|].
  unfold sync_file. rewrite Hn, lift_some, bind_ret_l, Ht, lift_some, bind_ret_l, Hs.
  reflexivity.
Qed.

Lemma impossible_date_raises_witness :
  remote_mtime_of (lastmod_text 2019 2 29 10 30 +:+ "  ") = None /\
  sync_file Scenario.world (Scenario.run_args ["ATL06"] false false)
    "d" "sd" "l" (Page ["f"] ["2019-02-29 10:30  "]) 0 ∅ =
  (Raise ValueError, ∅, []).
Proof.
  apply (impossible_date_raises Scenario.world
           (Scenario.run_args ["ATL06"] false false) "d" "sd" "l"
           (Page ["f"] ["2019-02-29 10:30  "]) 0 "f" "  " 2019 2 29 10 30 ∅);
    try reflexivity; lia.
Defined.

(** X6: a last-modified text that is empty, blank, or starts with
    anything but a digit (a dash, a space, a non-breaking space) is
    refused: the run ends at that file with ValueError, and nothing is
    reported or changed for it. *)
Theorem lastmod_must_start_with_digit
    (E : env) (a : args) (dd sd local_dir : string) (pg : page) (i : nat)
    (name text : string) (fs : FS) :
  (forall c rest, text = String c rest -> is_digit c = false) ->
  colnames pg !! i = Some name ->
  collastmod pg !! i = Some text ->
  remote_mtime_of text = None /\
  sync_file E a dd sd local_dir pg i fs = (Raise ValueError, fs, []).
Proof.
  intros Hd Hn Ht.
  assert (Hs : strptime (rstrip text) = None).
  { apply strptime_needs_digit. intros c rest Hr.
    destruct text as [|c0 rest0]; [discriminate Hr|].
    destruct (rstrip_head c0 rest0) as [H0|(r & H0)]; rewrite H0 in Hr;
      [discriminate|]. injection Hr as <- _. now apply (Hd c0 rest0). }
  split; [unfold remote_mtime_of; now rewrite Hs|].
  unfold sync_file. rewrite Hn, lift_some, bind_ret_l, Ht, lift_some, bind_ret_l, Hs.
  reflexivity.
Qed.

Lemma lastmod_must_start_with_digit_witness :
  remote_mtime_of " 2018-10-15 09:00" = None /\
  sync_file Scenario.world (Scenario.run_args ["ATL06"] false false)
    "d" "sd" "l" (Page ["f"] [" 2018-10-15 09:00"]) 0 ∅ =
  (Raise ValueError, ∅, []).
Proof.
  apply (lastmod_must_start_with_digit Scenario.world
           (Scenario.run_args ["ATL06"] false false) "d" "sd" "l"
           (Page ["f"] [" 2018-10-15 09:00"]) 0 "f" " 2018-10-15 09:00" ∅);
    try reflexivity.
  intros c rest H. injection H as <- _. reflexivity.
Defined.

(** X7: the conversion to epoch seconds keeps the order of time: of two
    last-modified texts, the chronologically earlier one gives the
    strictly smaller [remote_mtime]. *)
Theorem earlier_text_smaller_mtime (t1 t2 : struct_time) :
  valid_time t1 -> valid_time t2 -> chron_lt t1 t2 ->
  exists e1 e2,
    remote_mtime_of (text_of t1) = Some e1 /\
    remote_mtime_of (text_of t2) = Some e2 /\
    e1 < e2.
Proof.
  intros H1 H2 Hlt. eexists _, _.
  split; [exact (remote_mtime_of_text t1 H1)|].
  split; [exact (remote_mtime_of_text t2 H2)|].
  exact (utc_epoch_lt t1 t2 H1 H2 Hlt).
Qed.

Lemma earlier_text_smaller_mtime_witness :
  exists e1 e2,
    remote_mtime_of (text_of (StructTime 2018 12 31 23 59)) = Some e1 /\
    remote_mtime_of (text_of (StructTime 2019 1 1 0 0)) = Some e2 /\
    e1 < e2.
Proof.
  apply earlier_text_smaller_mtime.
  - repeat split; try reflexivity; cbn; lia.
  - repeat split; try reflexivity; cbn; lia.
  - left. cbn. lia.
Defined.



(** ** How a pull can fail *)

(** X9: the three exceptions of a pull that are modelled, each with
    what it leaves.  Whichever of them [http_pull_file] raises, the call
    was live and the two report lines of the file had been printed.
    When the request for the file fails (URLError), the local tree is
    untouched, so a failed request never truncates the local copy.  When
    the local path is a directory (IsADirectoryError), the local tree is
    untouched.  When the stream raises while the body is copied, the
    local file is left holding what had arrived, stamped with the wall
    clock, with the mode it had, or [0o666] less the umask when it is
    new.  Other ways for a pull to fail (a permission that is refused, a
    mode that is not an integer) are not among the outcomes here, and
    nothing is said about them. *)
Theorem pull_fails_three_ways
    (E : env) (remote_file local_file : string) (remote_mtime MODE : Z)
    (LIST CLOBBER : bool) (fs fs' : FS) (e : exn) (out : list line) :
  http_pull_file E remote_file remote_mtime local_file LIST CLOBBER MODE fs =
    (Raise e, fs', out) ->
  (e = URLError ->
   LIST = false /\
   out = [LRemote remote_file;
          LLocal local_file
            (label_of (decision_spec (local_mtime fs local_file) remote_mtime))] /\
   body E remote_file = None /\ fs' = fs) /\
  (e = IsADirectoryError ->
   LIST = false /\
   out = [LRemote remote_file;
          LLocal local_file
            (label_of (decision_spec (local_mtime fs local_file) remote_mtime))] /\
   (exists nd, fs !! local_file = Some nd /\ nkind nd = KDir) /\ fs' = fs) /\
  (e = TransferInterrupted ->
   LIST = false /\
   out = [LRemote remote_file;
          LLocal local_file
            (label_of (decision_spec (local_mtime fs local_file) remote_mtime))] /\
   exists dl k nd,
     body E remote_file = Some dl /\ fails_after dl = Some k /\
     (forall nd0, fs !! local_file = Some nd0 -> nkind nd0 = KFile) /\
     fs' = <[local_file := nd]> fs /\
     nkind nd = KFile /\
     contents nd = take k (received dl) /\
     st_mtime nd = now E /\
     st_mode nd = from_option st_mode (Z.ldiff 438 (umask E)) (fs !! local_file)).
Proof.
  rewrite http_pull_file_unfold.
  destruct (warrants_transfer _ || CLOBBER); [|discriminate].
  unfold bind at 1 2, print.
  destruct LIST; [discriminate|]. rewrite transfer_run.
  destruct (body E remote_file) as [dl|] eqn:Hb.
  2:{ intros H. injection H as <- <- <-.
      split; [auto|]. split; discriminate. }
  unfold opened_node.
  destruct (fs !! local_file) as [nd|] eqn:Hl.
  - destruct (nkind nd) eqn:Hk.
    + destruct (fails_after dl) as [k|] eqn:Hf; [|discriminate].
      intros H. injection H as <- <- <-.
      split; [discriminate|]. split; [discriminate|]. intros _.
      split; [reflexivity|]. split; [reflexivity|].
      eexists dl, k, _. split; [reflexivity|]. split; [exact Hf|].
      split; [intros nd0 H0; now injection H0 as <-|].
      split; [reflexivity|]. cbn. auto.
    + intros H. injection H as <- <- <-.
      split; [discriminate|]. split; [|discriminate]. intros _.
      split; [reflexivity|]. split; [reflexivity|].
      split; [now exists nd | reflexivity].
  - destruct (fails_after dl) as [k|] eqn:Hf; [|discriminate].
    intros H. injection H as <- <- <-.
    split; [discriminate|]. split; [discriminate|]. intros _.
    split; [reflexivity|]. split; [reflexivity|].
    eexists dl, k, _. split; [reflexivity|]. split; [exact Hf|].
    split; [discriminate|].
    split; [reflexivity|]. cbn. auto.
Qed.

Lemma pull_fails_three_ways_witness :
  (TransferInterrupted = URLError ->
   false = false /\
   [LRemote "u"; LLocal "/data/f" " (overwrite)"] =
   [LRemote "u";
    LLocal "/data/f"
      (label_of (decision_spec (local_mtime Scenario.stale_tree "/data/f") 1539594000))] /\
   body Scenario.broken_world "u" = None /\
   <["/data/f" := Node KFile (1600000000 # 1) (1500000000 # 1) 420 "HDF5"]>
     Scenario.stale_tree = Scenario.stale_tree) /\
  (TransferInterrupted = IsADirectoryError ->
   false = false /\
   [LRemote "u"; LLocal "/data/f" " (overwrite)"] =
   [LRemote "u";
    LLocal "/data/f"
      (label_of (decision_spec (local_mtime Scenario.stale_tree "/data/f") 1539594000))] /\
   (exists nd, Scenario.stale_tree !! "/data/f" = Some nd /\ nkind nd = KDir) /\
   <["/data/f" := Node KFile (1600000000 # 1) (1500000000 # 1) 420 "HDF5"]>
     Scenario.stale_tree = Scenario.stale_tree) /\
  (TransferInterrupted = TransferInterrupted ->
   false = false /\
   [LRemote "u"; LLocal "/data/f" " (overwrite)"] =
   [LRemote "u";
    LLocal "/data/f"
      (label_of (decision_spec (local_mtime Scenario.stale_tree "/data/f") 1539594000))] /\
   exists dl k nd,
     body Scenario.broken_world "u" = Some dl /\ fails_after dl = Some k /\
     (forall nd0, Scenario.stale_tree !! "/data/f" = Some nd0 -> nkind nd0 = KFile) /\
     <["/data/f" := Node KFile (1600000000 # 1) (1500000000 # 1) 420 "HDF5"]>
       Scenario.stale_tree = <["/data/f" := nd]> Scenario.stale_tree /\
     nkind nd = KFile /\
     contents nd = take k (received dl) /\
     st_mtime nd = now Scenario.broken_world /\
     st_mode nd =
       from_option st_mode (Z.ldiff 438 (umask Scenario.broken_world))
         (Scenario.stale_tree !! "/data/f")).
Proof.
  apply (pull_fails_three_ways Scenario.broken_world "u" "/data/f" 1539594000 509
           false false Scenario.stale_tree).
  reflexivity.
Defined.

(** ** The year matcher and the file matcher *)

Section Matchers.

Lemma digit_plain (c : ascii) : is_digit c = true -> plain_char c = true.
Proof.
  destruct c as [[] [] [] [] [] [] [] []]; intros H; vm_compute in H;
    try discriminate H; reflexivity.
Qed.

Lemma all_app (q : ascii -> bool) (s1 s2 : string) :
  Str.all q (s1 +:+ s2) = Str.all q s1 && Str.all q s2.
Proof.
  induction s1 as [|c s1 IH]; simpl; [reflexivity|].
  now rewrite IH, andb_assoc.
Qed.

Lemma all_impl (q q' : ascii -> bool) (s : string) :
  (forall c, q c = true -> q' c = true) -> Str.all q s = true -> Str.all q' s = true.
Proof.
  intros Hq. induction s as [|c s IH]; simpl; [reflexivity|].
  intros H. apply andb_true_iff in H as [Hc Hs]. now rewrite (Hq c Hc), IH.
Qed.

Lemma string_of_uint_digits (d : Decimal.uint) :
  Str.all is_digit (NilEmpty.string_of_uint d) = true.
Proof. induction d; simpl; auto. Qed.

Lemma str_of_N_digits (n : N) : Str.all is_digit (str_of_N n) = true.
Proof.
  unfold str_of_N, NilZero.string_of_uint.
  destruct (N.to_uint n) eqn:E; try reflexivity;
    rewrite <- E; apply string_of_uint_digits.
Qed.

Lemma zeros_digits (k : nat) : Str.all is_digit (zeros k) = true.
Proof. induction k; simpl; auto. Qed.

Lemma plain_format_d (z : Z) : plain_name (format_d z) = true.
Proof.
  unfold plain_name, format_d. rewrite all_app.
  rewrite (all_impl _ _ _ digit_plain (str_of_N_digits _)).
  now destruct (z <? 0).
Qed.

Lemma plain_format_0wd (w : nat) (z : Z) : plain_name (format_0wd w z) = true.
Proof.
  unfold plain_name, format_0wd. rewrite !all_app.
  rewrite (all_impl _ _ _ digit_plain (str_of_N_digits _)).
  rewrite (all_impl _ _ _ digit_plain (zeros_digits _)).
  now destruct (z <? 0).
Qed.

Lemma plain_tame (n : string) : plain_name n = true -> tame_name n = true.
Proof.
  apply all_impl. intros c H. unfold plain_char in H.
  now apply andb_true_iff in H as [H _].
Qed.

Lemma map_plain_tame {A : Type} (f : A -> string) (xs : list A) :
  (forall x, plain_name (f x) = true) -> forallb tame_name (map f xs) = true.
Proof.
  intros Hf. induction xs as [|x xs IH]; simpl; [reflexivity|].
  now rewrite (plain_tame _ (Hf x)), IH.
Qed.

Lemma Lang_Chr_Cat (c : ascii) (r : regex) (s : string) :
  Lang (Cat (Chr c) r) s <-> exists t, s = String c t /\ Lang r t.
Proof.
  split.
  - intros H. apply Lang_Cat_inv in H as (s1 & s2 & -> & H1 & H2).
    apply Lang_Chr_inv in H1 as ->. now exists s2.
  - intros (t & -> & Ht). change (String c t) with (String c "" +:+ t).
    constructor; [constructor | exact Ht].
Qed.

Lemma Lang_plain_cat (n : string) (tail : regex) (s : string) :
  plain_name n = true ->
  Lang (name_cat n tail) s <-> exists t, s = n +:+ t /\ Lang tail t.
Proof.
  unfold plain_name. revert s. induction n as [|c n IH]; intros s Hn; simpl.
  - split; [intros H; now exists s | now intros (t & -> & H)].
  - simpl in Hn. apply andb_true_iff in Hn as [Hc Hn].
    unfold plain_char in Hc. apply andb_true_iff in Hc as [_ Hc].
    apply negb_true_iff in Hc. unfold item_of. rewrite Hc, Lang_Chr_Cat.
    split.
    + intros (t & -> & H). apply (IH t Hn) in H as (t' & -> & H). now exists t'.
    + intros (t & -> & H). exists (n +:+ t). split; [reflexivity|].
      apply (IH _ Hn). now exists t.
Qed.

Lemma Lang_plain (n s : string) :
  plain_name n = true -> Lang (name_cat n Eps) s <-> s = n.
Proof.
  intros Hn. rewrite (Lang_plain_cat n Eps s Hn). split.
  - intros (t & -> & H). apply Lang_Eps_inv in H as ->. apply str_app_nil_r.
  - intros ->. exists "". split; [now rewrite str_app_nil_r | constructor].
Qed.

(** A group of alternatives, read from just after its opening
    parenthesis, adds one item. *)
Lemma feed_alternatives (ns : list string) (rest : string) (st : pstate) :
  forallb tame_name ns = true -> mode st = PNormal ->
  exists g,
    feed (open_group st) (Str.join "|" ns +:+ String ")" rest) =
    feed (push_item g st) rest /\
    forall s, Lang g s <-> exists m, In m (alternatives ns) /\ Lang (name_cat m Eps) s.
Proof.
  intros Ht Hm. destruct ns as [|n ns].
  - exists Eps. split; [reflexivity|]. intros s. simpl. split.
    + intros H. exists "". auto.
    + now intros (m & [<-|[]] & H).
  - destruct (feed_join ns n (String ")" rest) (open_group st) Ht)
      as (st' & Hfeed & Hout & Hmode & Hlang); [reflexivity | reflexivity |].
    exists (close_frame (inner st')). split.
    + rewrite Hfeed. destruct st' as [o f m]. simpl in Hout, Hmode. subst o m.
      reflexivity.
    + intros s. rewrite Hlang. simpl. split; [|now right].
      now intros [(b & [] & _)|H].
Qed.

Lemma separated_tail_language (s : string) :
  Lang (Cat Dot (Cat (Cat (plus Digit) Eps)
                   (Cat Dot (Cat (Cat (plus Digit) Eps) Eps)))) s <->
  exists x b z c,
    is_dot x = true /\ digits1 b /\ is_dot z = true /\ digits1 c /\
    s = String x (b +:+ String z c).
Proof.
  split.
  - intros H.
    apply Lang_Dot_Cat in H as (x & t2 & Hx & -> & H).
    apply Lang_Cat_inv in H as (b & t3 & -> & Hb & H).
    apply Lang_Cat_Eps, Lang_plus_digit in Hb.
    apply Lang_Dot_Cat in H as (z & t4 & Hz & -> & H).
    apply Lang_Cat_Eps, Lang_Cat_Eps, Lang_plus_digit in H.
    now exists x, b, z, t4.
  - intros (x & b & z & c & Hx & Hb & Hz & Hc & ->).
    apply Lang_Dot_Cat. exists x, (b +:+ String z c). repeat split; [assumption|].
    constructor; [now apply Lang_Cat_Eps, Lang_plus_digit|].
    apply Lang_Dot_Cat. exists z, c. repeat split; [assumption|].
    now apply Lang_Cat_Eps, Lang_Cat_Eps, Lang_plus_digit.
Qed.

Lemma years_pattern_compiles (ns : list string) :
  forallb tame_name ns = true ->
  exists g,
    re_compile_verbose ("(" +:+ Str.join "|" ns +:+ ").(\d+).(\d+)") =
    Some (Cat g (Cat Dot (Cat (Cat (plus Digit) Eps)
                            (Cat Dot (Cat (Cat (plus Digit) Eps) Eps))))) /\
    forall s, Lang g s <-> exists m, In m (alternatives ns) /\ Lang (name_cat m Eps) s.
Proof.
  intros Ht. unfold re_compile_verbose.
  destruct (feed_alternatives ns ".(\d+).(\d+)" (PState [] (Frame [] []) PNormal) Ht)
    as (g & Hfeed & Hlang); [reflexivity|].
  exists g. split; [|exact Hlang].
  change ("(" +:+ Str.join "|" ns +:+ ").(\d+).(\d+)") with
    (String "(" (Str.join "|" ns +:+ String ")" ".(\d+).(\d+)")).
  cbn [feed]. change (step ?st "(") with (Some (open_group st)). cbv iota beta.
  rewrite Hfeed. reflexivity.
Qed.

Lemma years_truthy_values (YEARS : years_arg) :
  years_truth YEARS = Truthy -> years_values YEARS <> [].
Proof. destruct YEARS as [|[|y ys]|[|y ys]]; simpl; congruence. Qed.

End Matchers.

(** X10: when years are supplied as a list that is not empty, or as an
    array of one year other than 0, and no explicit subdirectory names
    are, the subdirectory matcher is built and accepts exactly the names
    that start with one of the years written in decimal, one character
    other than a line feed, a run of digits, one such character again,
    and a run of digits.  The year is matched as text at the start of
    the name and the separators need not be dots. *)
Theorem years_subdirectory_matcher
    (sub : option (list string)) (YEARS : years_arg) (sd : string) :
  sub = None \/ sub = Some [] ->
  years_truth YEARS = Truthy ->
  (exists b, R2_match sub YEARS sd = Some b) /\
  (R2_match sub YEARS sd = Some true <->
   year_separated_start (years_values YEARS) sd).
Proof.
  intros Hsub Hy.
  assert (HP : R2_pattern sub YEARS =
               Some ("(" +:+ Str.join "|" (map format_d (years_values YEARS)) +:+
                     ").(\d+).(\d+)")).
  { unfold R2_pattern. rewrite Hy. now destruct Hsub as [-> | ->]. }
  unfold R2_match. rewrite HP.
  destruct (years_pattern_compiles (map format_d (years_values YEARS))
              (map_plain_tame format_d _ plain_format_d))
    as (g & -> & Hlang).
  cbn [option_map]. split; [eauto|].
  assert (Hg : forall s, Lang g s <-> exists y, In y (years_values YEARS) /\ s = format_d y).
  { intros s. rewrite Hlang.
    destruct (years_values YEARS) as [|y0 ys] eqn:Hv;
      [now apply years_truthy_values in Hy|].
    change (alternatives (map format_d (y0 :: ys))) with (map format_d (y0 :: ys)).
    split.
    - intros (m & Hin & H). apply in_map_iff in Hin as (y & <- & Hin).
      apply Lang_plain in H; [|apply plain_format_d]. now exists y.
    - intros (y & Hin & ->). exists (format_d y). split; [now apply in_map|].
      apply Lang_plain; [apply plain_format_d | reflexivity]. }
  split.
  - intros H. injection H as H. apply re_match_spec in H as (pre & rest & -> & H).
    apply Lang_Cat_inv in H as (s1 & s2 & -> & H1 & H2).
    apply Hg in H1 as (y & Hin & ->).
    apply separated_tail_language in H2 as (x & b & z & c & Hx & Hb & Hz & Hc & ->).
    exists y, x, b, z, c, rest. do 5 (split; [assumption|]).
    repeat (rewrite str_app_assoc; simpl). reflexivity.
  - intros (y & x & b & z & c & rest & Hin & Hx & Hb & Hz & Hc & ->).
    f_equal. apply re_match_spec.
    exists (format_d y +:+ String x (b +:+ String z c)), rest. split.
    + repeat (rewrite str_app_assoc; simpl). reflexivity.
    + constructor; [apply Hg; now exists y|].
      apply separated_tail_language. now exists x, b, z, c.
Qed.

Lemma years_subdirectory_matcher_witness :
  (exists b, R2_match None (YList [2018; 2019]) "2019.01.02/" = Some b) /\
  (R2_match None (YList [2018; 2019]) "2019.01.02/" = Some true <->
   year_separated_start (years_values (YList [2018; 2019])) "2019.01.02/").
Proof.
  apply years_subdirectory_matcher; [now left | reflexivity].
Defined.

(** ** The file matcher, in general *)

Section FileMatcher.

Lemma feed_alternatives_tl (ns : list string) (tl rest : string) (st : pstate) :
  tl = String ")" rest ->
  forallb tame_name ns = true -> mode st = PNormal ->
  exists g,
    feed (open_group st) (Str.join "|" ns +:+ tl) = feed (push_item g st) rest /\
    forall s, Lang g s <-> exists m, In m (alternatives ns) /\ Lang (name_cat m Eps) s.
Proof. intros ->. apply feed_alternatives. Qed.

Lemma feed_single_tl (n tl rest : string) (st : pstate) :
  tl = String ")" rest ->
  plain_name n = true -> mode st = PNormal ->
  exists g,
    feed (open_group st) (n +:+ tl) = feed (push_item g st) rest /\
    forall s, Lang g s <-> s = n.
Proof.
  intros -> Hn Hm.
  destruct (feed_alternatives [n] rest st) as (g & Hf & Hg);
    [simpl; now rewrite (plain_tame n Hn) | exact Hm |].
  exists g. split; [exact Hf|]. intros s. rewrite Hg. simpl. split.
  - intros (m & [<-|[]] & H). now apply Lang_plain in H.
  - intros ->. exists n. split; [now left | now apply Lang_plain].
Qed.

Lemma feed_stamp (st : pstate) (X : string) :
  mode st = PNormal ->
  feed st ("_(\d{4})(\d{2})(\d{2})(\d{2})(\d{2})(\d{2})_(" +:+ X) =
  feed (open_group
          (push_item (Chr "_")
          (push_item (digits_group 2) (push_item (digits_group 2)
          (push_item (digits_group 2) (push_item (digits_group 2)
          (push_item (digits_group 2) (push_item (digits_group 4)
          (push_item (Chr "_") st))))))))) X.
Proof. destruct st as [o [bs its] m]. simpl. intros ->. reflexivity. Qed.

Lemma feed_cycle (st : pstate) (X : string) :
  mode st = PNormal ->
  feed st ("(\d{2})(" +:+ X) = feed (open_group (push_item (digits_group 2) st)) X.
Proof. destruct st as [o [bs its] m]. simpl. intros ->. reflexivity. Qed.

Lemma feed_underscore (st : pstate) (X : string) :
  mode st = PNormal ->
  feed st ("_(" +:+ X) = feed (open_group (push_item (Chr "_") st)) X.
Proof. destruct st as [o [bs its] m]. simpl. intros ->. reflexivity. Qed.

Lemma feed_suffix (st : pstate) (AUXILIARY : bool) :
  mode st = PNormal ->
  feed st ("(.*?)." +:+ regex_suffix AUXILIARY) =
  Some (push_item (suffix_group AUXILIARY) (push_item Dot (push_item lazy_group st))).
Proof.
  destruct st as [o [bs its] m]. simpl. intros ->. now destruct AUXILIARY.
Qed.

Lemma alternatives_plain {A : Type} (f : A -> string) (xs : list A) (m : string) :
  (forall x, plain_name (f x) = true) ->
  In m (alternatives (map f xs)) -> plain_name m = true.
Proof.
  intros Hf. destruct xs as [|x xs].
  - now intros [<-|[]].
  - change (alternatives (map f (x :: xs))) with (map f (x :: xs)).
    intros Hin. apply in_map_iff in Hin as (y & <- & _). apply Hf.
Qed.

Lemma Lang_alternatives {A : Type} (f : A -> string) (xs : list A) (g : regex) :
  (forall x, plain_name (f x) = true) ->
  (forall s, Lang g s <->
             exists m, In m (alternatives (map f xs)) /\ Lang (name_cat m Eps) s) ->
  forall s, Lang g s <-> In s (alternatives (map f xs)).
Proof.
  intros Hf Hg s. rewrite Hg. split.
  - intros (m & Hin & H).
    apply Lang_plain in H; [now subst | exact (alternatives_plain f xs m Hf Hin)].
  - intros Hin. exists s. split; [exact Hin|].
    apply Lang_plain; [exact (alternatives_plain f xs s Hf Hin) | reflexivity].
Qed.

Ltac eat_group Ht lit g Hg :=
  match goal with
  | |- context [feed (open_group ?S) (Str.join "|" ?l +:+ ?tl +:+ ?Y)] =>
      let Hf := fresh "Hf" in
      destruct (feed_alternatives_tl l (tl +:+ Y) (lit +:+ Y) S eq_refl Ht eq_refl)
        as (g & Hf & Hg);
      rewrite Hf; clear Hf
  end.

Lemma file_pattern_compiles (p RELEASE : string) (VERSIONS GRANULES TRACKS : list Z)
    (AUXILIARY : bool) :
  plain_name p = true -> plain_name RELEASE = true ->
  exists gT gG gR gV,
    R1_compile p RELEASE VERSIONS GRANULES TRACKS AUXILIARY =
      Some (file_regex p gT gG gR gV AUXILIARY) /\
    (forall s, Lang gT s <-> In s (alternatives (map (format_0wd 4) TRACKS))) /\
    (forall s, Lang gG s <-> In s (alternatives (map (format_0wd 2) GRANULES))) /\
    (forall s, Lang gR s <-> s = RELEASE) /\
    (forall s, Lang gV s <-> In s (alternatives (map (format_0wd 2) VERSIONS))).
Proof.
  intros Hp Hr.
  pose proof (map_plain_tame (format_0wd 4) TRACKS (plain_format_0wd 4)) as HT.
  pose proof (map_plain_tame (format_0wd 2) GRANULES (plain_format_0wd 2)) as HG.
  pose proof (map_plain_tame (format_0wd 2) VERSIONS (plain_format_0wd 2)) as HV.
  unfold R1_compile, remote_regex_pattern, re_compile_verbose.
  unfold regex_track, regex_granule, regex_version.
  rewrite (feed_name p _ (PState [] (Frame [] []) PNormal) (plain_tame p Hp) eq_refl).
  cbn [outer inner branches items].
  rewrite feed_stamp by reflexivity.
  eat_group HT "(\d{2})("%string gT HgT.
  rewrite feed_cycle by reflexivity.
  eat_group HG "_("%string gG HgG.
  rewrite feed_underscore by reflexivity.
  match goal with
  | |- context [feed (open_group ?S) (RELEASE +:+ ?tl +:+ ?Y)] =>
      destruct (feed_single_tl RELEASE (tl +:+ Y) ("_(" +:+ Y) S eq_refl Hr eq_refl)
        as (gR & Hf & HgR);
      rewrite Hf; clear Hf
  end.
  rewrite feed_underscore by reflexivity.
  match goal with
  | |- context [feed (open_group ?S) (Str.join "|" ?l +:+ ?tl)] =>
      destruct (feed_alternatives_tl l tl ("(.*?)." +:+ regex_suffix AUXILIARY)
                  S eq_refl HV eq_refl)
        as (gV & Hf & HgV);
      rewrite Hf; clear Hf
  end.
  rewrite feed_suffix by reflexivity.
  exists gT, gG, gR, gV. split.
  - cbv iota beta. unfold finish, close_frame, seq_of.
    cbn [outer mode inner items branches push_item open_group fold_left fst].
    rewrite seq_of_rev_items. reflexivity.
  - split; [exact (Lang_alternatives _ _ _ (plain_format_0wd 4) HgT)|].
    split; [exact (Lang_alternatives _ _ _ (plain_format_0wd 2) HgG)|].
    split; [exact HgR|].
    exact (Lang_alternatives _ _ _ (plain_format_0wd 2) HgV).
Qed.

Lemma Lang_Cat_iff (r1 r2 : regex) (s : string) :
  Lang (Cat r1 r2) s <-> exists s1 s2, s = s1 +:+ s2 /\ Lang r1 s1 /\ Lang r2 s2.
Proof.
  split; [apply Lang_Cat_inv|]. intros (s1 & s2 & -> & H1 & H2). now constructor.
Qed.

Lemma str_length_app (s1 s2 : string) :
  String.length (s1 +:+ s2) = (String.length s1 + String.length s2)%nat.
Proof. induction s1 as [|c s1 IH]; simpl; [reflexivity | now rewrite IH]. Qed.

Lemma str_split (k : nat) (s : string) :
  (k <= String.length s)%nat ->
  exists s1 s2, s = s1 +:+ s2 /\ String.length s1 = k.
Proof.
  revert s. induction k as [|k IH]; intros s Hk.
  - now exists "", s.
  - destruct s as [|c s]; simpl in Hk; [lia|].
    destruct (IH s ltac:(lia)) as (s1 & s2 & -> & Hl).
    exists (String c s1), s2. simpl. now rewrite Hl.
Qed.

Lemma Lang_rep_digit (k : nat) (s : string) :
  Lang (rep k Digit) s <-> String.length s = k /\ Str.all is_digit s = true.
Proof.
  revert s. induction k as [|k IH]; intros s; simpl.
  - split.
    + intros H. apply Lang_Eps_inv in H as ->. auto.
    + intros [H _]. destruct s; [constructor | discriminate].
  - rewrite Lang_Cat_iff. split.
    + intros (s1 & s2 & -> & H1 & H2). apply Lang_Digit_inv in H1 as (c & -> & Hc).
      apply IH in H2 as [Hl Hd]. simpl. now rewrite Hl, Hc, Hd.
    + intros [Hl Hd]. destruct s as [|c s]; [discriminate|].
      simpl in Hl, Hd. apply andb_true_iff in Hd as [Hc Hd].
      exists (String c ""), s. split; [reflexivity|].
      split; [now constructor|]. apply IH. split; [lia | exact Hd].
Qed.

Lemma Lang_digit_groups (ks : list nat) (r : regex) (s : string) :
  Lang (digit_groups ks r) s <->
  exists d t, s = d +:+ t /\ String.length d = list_sum ks /\
              Str.all is_digit d = true /\ Lang r t.
Proof.
  revert s. induction ks as [|k ks IH]; intros s; simpl.
  - split.
    + intros H. now exists "", s.
    + intros (d & t & -> & Hl & _ & H). now destruct d.
  - rewrite Lang_Cat_iff. split.
    + intros (s1 & s2 & -> & H1 & H2).
      apply Lang_Cat_Eps, Lang_rep_digit in H1 as [Hl1 Hd1].
      apply IH in H2 as (d & t & -> & Hl & Hd & H).
      exists (s1 +:+ d), t. rewrite str_app_assoc, str_length_app, all_app.
      rewrite Hl1, Hl, Hd1, Hd. auto.
    + intros (d & t & -> & Hl & Hd & H).
      destruct (str_split k d ltac:(lia)) as (d1 & d2 & -> & Hl1).
      rewrite str_length_app in Hl. rewrite all_app in Hd.
      apply andb_true_iff in Hd as [Hd1 Hd2].
      exists d1, (d2 +:+ t). split; [now rewrite str_app_assoc|]. split.
      * apply Lang_Cat_Eps, Lang_rep_digit. auto.
      * apply IH. exists d2, t. repeat split; [lia | assumption | assumption].
Qed.

Lemma Lang_star_dot (s : string) : Lang (Star Dot) s <-> Str.all is_dot s = true.
Proof.
  split.
  - intros H. remember (Star Dot) as q eqn:Hq.
    induction H as [| | | | | | | |r s1 s2 H1 _ H2 IH2]; try discriminate.
    + reflexivity.
    + injection Hq as ->. apply Lang_Dot_inv in H1 as (c & -> & Hc).
      simpl. rewrite Hc. now apply IH2.
  - induction s as [|c s IH]; simpl; intros H.
    + constructor.
    + apply andb_true_iff in H as [Hc Hs].
      change (String c s) with (String c "" +:+ s).
      constructor; [now constructor | auto].
Qed.

Lemma Lang_suffix_group (AUXILIARY : bool) (s : string) :
  Lang (suffix_group AUXILIARY) s <->
  if AUXILIARY then Str.all is_dot s = true else s = "h5".
Proof.
  destruct AUXILIARY; simpl.
  - unfold lazy_group. now rewrite Lang_Cat_Eps, Lang_star_dot.
  - rewrite Lang_Chr_Cat. split.
    + intros (t & -> & H). apply Lang_Chr_Cat in H as (t' & -> & H).
      now apply Lang_Eps_inv in H as ->.
    + intros ->. exists "5". split; [reflexivity|]. apply Lang_Chr_Cat.
      exists "". split; [reflexivity | constructor].
Qed.

Lemma stamp_groups (r : regex) :
  Cat (digits_group 4) (Cat (digits_group 2) (Cat (digits_group 2)
    (Cat (digits_group 2) (Cat (digits_group 2) (Cat (digits_group 2) r))))) =
  digit_groups [4; 2; 2; 2; 2; 2]%nat r.
Proof. reflexivity. Qed.

(** the language of the compiled file pattern *)
Lemma file_regex_language (p rel : string) (gT gG gR gV : regex) (AUXILIARY : bool)
    (LT LG LV : list string) (f : string) :
  plain_name p = true ->
  (forall s, Lang gT s <-> In s LT) ->
  (forall s, Lang gG s <-> In s LG) ->
  (forall s, Lang gR s <-> s = rel) ->
  (forall s, Lang gV s <-> In s LV) ->
  Lang (file_regex p gT gG gR gV AUXILIARY) f <->
  exists stamp t cycle g v mid x tail,
    String.length stamp = 14%nat /\ Str.all is_digit stamp = true /\
    In t LT /\
    String.length cycle = 2%nat /\ Str.all is_digit cycle = true /\
    In g LG /\ In v LV /\
    Str.all is_dot mid = true /\ is_dot x = true /\
    (if AUXILIARY then Str.all is_dot tail = true else tail = "h5") /\
    f = p +:+ "_" +:+ stamp +:+ "_" +:+ t +:+ cycle +:+ g +:+ "_" +:+
        rel +:+ "_" +:+ v +:+ mid +:+ String x tail.
Proof.
  intros Hp HgT HgG HgR HgV. unfold file_regex.
  rewrite (Lang_plain_cat p _ f Hp).
  rewrite stamp_groups.
  split.
  - intros (t0 & -> & H).
    apply Lang_Chr_Cat in H as (t1 & -> & H).
    apply Lang_digit_groups in H as (stamp & t2 & -> & Hls & Hds & H).
    apply Lang_Chr_Cat in H as (t3 & -> & H).
    apply Lang_Cat_iff in H as (t & t4 & -> & Ht & H). apply HgT in Ht.
    change (Cat (digits_group 2) ?r) with (digit_groups [2%nat] r) in H.
    apply Lang_digit_groups in H as (cycle & t5 & -> & Hlc & Hdc & H).
    apply Lang_Cat_iff in H as (g & t6 & -> & Hg & H). apply HgG in Hg.
    apply Lang_Chr_Cat in H as (t7 & -> & H).
    apply Lang_Cat_iff in H as (r & t8 & -> & Hr & H). apply HgR in Hr. subst r.
    apply Lang_Chr_Cat in H as (t9 & -> & H).
    apply Lang_Cat_iff in H as (v & t10 & -> & Hv & H). apply HgV in Hv.
    apply Lang_Cat_iff in H as (mid & t11 & -> & Hmid & H).
    apply Lang_Cat_Eps, Lang_star_dot in Hmid.
    apply Lang_Dot_Cat in H as (x & tail & Hx & -> & H).
    apply Lang_Cat_Eps, Lang_suffix_group in H.
    exists stamp, t, cycle, g, v, mid, x, tail.
    repeat (split; [assumption|]). reflexivity.
  - intros (stamp & t & cycle & g & v & mid & x & tail &
            Hls & Hds & Ht & Hlc & Hdc & Hg & Hv & Hmid & Hx & Htail & ->).
    eexists. split; [reflexivity|].
    apply Lang_Chr_Cat. eexists. split; [reflexivity|].
    apply Lang_digit_groups. exists stamp. eexists. split; [reflexivity|].
    repeat (split; [assumption|]).
    apply Lang_Chr_Cat. eexists. split; [reflexivity|].
    apply Lang_Cat_iff. exists t. eexists. split; [reflexivity|].
    split; [now apply HgT|].
    change (Cat (digits_group 2) ?r) with (digit_groups [2%nat] r).
    apply Lang_digit_groups. exists cycle. eexists. split; [reflexivity|].
    repeat (split; [assumption|]).
    apply Lang_Cat_iff. exists g. eexists. split; [reflexivity|].
    split; [now apply HgG|].
    apply Lang_Chr_Cat. eexists. split; [reflexivity|].
    apply Lang_Cat_iff. exists rel. eexists. split; [reflexivity|].
    split; [now apply HgR|].
    apply Lang_Chr_Cat. eexists. split; [reflexivity|].
    apply Lang_Cat_iff. exists v. eexists. split; [reflexivity|].
    split; [now apply HgV|].
    apply Lang_Cat_iff. exists mid. eexists. split; [reflexivity|].
    split; [now apply Lang_Cat_Eps, Lang_star_dot|].
    apply Lang_Dot_Cat. exists x, tail. split; [assumption|].
    split; [reflexivity|]. now apply Lang_Cat_Eps, Lang_suffix_group.
Qed.

End FileMatcher.

(** X11: for a product and a release written with plain characters
    (none that a verbose pattern skips or reads as an operator, no dot),
    the file matcher is built whatever the numeric filters are, and it
    accepts exactly the names that start with the product, an
    underscore, fourteen digits, an underscore, one of the tracks on
    four digits, two digits, one of the granule regions on two digits,
    an underscore, the release, an underscore, one of the versions on
    two digits, any number of characters other than line feeds, one
    more such character, and then [h5] unless auxiliary files are
    wanted.  An empty filter list stands for the empty text. *)
Theorem file_matcher_characterised
    (p RELEASE : string) (VERSIONS GRANULES TRACKS : list Z) (AUXILIARY : bool)
    (f : string) :
  plain_name p = true -> plain_name RELEASE = true ->
  (exists b, R1_match p RELEASE VERSIONS GRANULES TRACKS AUXILIARY f = Some b) /\
  (R1_match p RELEASE VERSIONS GRANULES TRACKS AUXILIARY f = Some true <->
   granule_name_start p RELEASE VERSIONS GRANULES TRACKS AUXILIARY f).
Proof.
  intros Hp Hr. unfold R1_match.
  destruct (file_pattern_compiles p RELEASE VERSIONS GRANULES TRACKS AUXILIARY Hp Hr)
    as (gT & gG & gR & gV & -> & HgT & HgG & HgR & HgV).
  cbn [option_map]. split; [eauto|].
  split.
  - intros H. injection H as H. apply re_match_spec in H as (pre & rest & -> & H).
    apply (file_regex_language p RELEASE gT gG gR gV AUXILIARY _ _ _ pre
             Hp HgT HgG HgR HgV) in H
      as (stamp & t & cycle & g & v & mid & x & tail &
          Hls & Hds & Ht & Hlc & Hdc & Hg & Hv & Hmid & Hx & Htail & ->).
    exists stamp, t, cycle, g, v, mid, x,
      (if AUXILIARY then tail +:+ rest else rest).
    repeat (split; [assumption|]).
    destruct AUXILIARY; [|subst tail];
      repeat (rewrite str_app_assoc; simpl); reflexivity.
  - intros (stamp & t & cycle & g & v & mid & x & rest &
            Hls & Hds & Ht & Hlc & Hdc & Hg & Hv & Hmid & Hx & ->).
    f_equal. apply re_match_spec.
    exists (p +:+ "_" +:+ stamp +:+ "_" +:+ t +:+ cycle +:+ g +:+ "_" +:+
            RELEASE +:+ "_" +:+ v +:+ mid +:+
            String x (if AUXILIARY then "" else "h5")), rest.
    split.
    + destruct AUXILIARY; repeat (rewrite str_app_assoc; simpl); reflexivity.
    + apply (file_regex_language p RELEASE gT gG gR gV AUXILIARY _ _ _ _
               Hp HgT HgG HgR HgV).
      exists stamp, t, cycle, g, v, mid, x, (if AUXILIARY then "" else "h5").
      repeat (split; [assumption|]). split; [now destruct AUXILIARY | reflexivity].
Qed.

Lemma file_matcher_characterised_witness :
  (exists b, R1_match "ATL06" "003" [1] [2] [235] false
               "ATL06_20181014001049_02350102_003_01.h5" = Some b) /\
  (R1_match "ATL06" "003" [1] [2] [235] false
     "ATL06_20181014001049_02350102_003_01.h5" = Some true <->
   granule_name_start "ATL06" "003" [1] [2] [235] false
     "ATL06_20181014001049_02350102_003_01.h5").
Proof.
  apply file_matcher_characterised; reflexivity.
Defined.

(** ** The report of a run *)

Section Report.

Lemma mirrored_app (a : args) (o1 o2 : list line) :
  mirrored a o1 -> mirrored a o2 -> mirrored a (o1 ++ o2).
Proof.
  intros H1 H2. induction H1; simpl; [exact H2 | |]; now constructor.
Qed.

Lemma prints_mirrored_bind {A B : Type} (a : args) (m : M A) (k : A -> M B) :
  prints_mirrored a m -> (forall x, prints_mirrored a (k x)) ->
  prints_mirrored a (bind m k).
Proof.
  intros Hm Hk fs r fs' out. unfold bind.
  destruct (m fs) as [[[x|e] fs1] out1] eqn:E1.
  - destruct (k x fs1) as [[r2 fs2] out2] eqn:E2. intros H. injection H as <- <- <-.
    exact (mirrored_app a _ _ (Hm _ _ _ _ E1) (Hk x _ _ _ _ E2)).
  - intros H. injection H as <- <- <-. exact (Hm _ _ _ _ E1).
Qed.

Lemma prints_mirrored_quiet {A : Type} (a : args) (m : M A) :
  (forall fs, exists r fs', m fs = (r, fs', [])) -> prints_mirrored a m.
Proof.
  intros Hm fs r fs' out H. destruct (Hm fs) as (r0 & fs0 & H0).
  rewrite H0 in H. injection H as <- <- <-. constructor.
Qed.

Lemma prints_mirrored_lift {A : Type} (a : args) (e : exn) (o : option A) :
  prints_mirrored a (lift e o).
Proof. apply prints_mirrored_quiet. intros fs. destruct o; eexists _, _; reflexivity. Qed.

Lemma prints_mirrored_makedirs (a : args) (E : env) (path : string) (MODE : Z) :
  prints_mirrored a (makedirs_if_absent E path MODE).
Proof.
  apply prints_mirrored_quiet. intros fs. rewrite makedirs_if_absent_run.
  destruct (fs !! path); eexists _, _; reflexivity.
Qed.

Lemma prints_mirrored_for_each {A : Type} (a : args) (xs : list A)
    (body : A -> M unit) :
  (forall x, In x xs -> prints_mirrored a (body x)) ->
  prints_mirrored a (for_each xs body).
Proof.
  induction xs as [|x xs IH]; intros Hb; simpl.
  - apply prints_mirrored_quiet. intros fs. eexists _, _; reflexivity.
  - apply prints_mirrored_bind; [apply Hb; now left|].
    intros _. apply IH. intros y Hy. apply Hb. now right.
Qed.

Lemma label_of_known (dec : TransferDecision) :
  In (label_of dec) [" (new)"; " (overwrite)"; " (clobber)"].
Proof. destruct dec; simpl; auto. Qed.

Lemma prints_mirrored_http_pull_file (a : args) (E : env) (p sd name : string)
    (remote_mtime : Z) :
  In p (PRODUCTS a) ->
  prints_mirrored a
    (http_pull_file E
       (path_join (path_join HOST ["ATLAS"; p +:+ "." +:+ RELEASE a]) [sd; name])
       remote_mtime
       (path_join (path_join (path_join (ddir a) [p +:+ "." +:+ RELEASE a]) [sd]) [name])
       (LIST a) (CLOBBER a) (MODE a)).
Proof.
  intros Hp fs r fs' out. rewrite http_pull_file_unfold.
  destruct (warrants_transfer _ || CLOBBER a).
  2:{ intros H. injection H as <- <- <-. constructor. }
  unfold bind at 1 2, print.
  assert (Hout : mirrored a
            ([LRemote (path_join (path_join HOST ["ATLAS"; p +:+ "." +:+ RELEASE a])
                         [sd; name])] ++
             [LLocal (path_join (path_join (path_join (ddir a)
                                   [p +:+ "." +:+ RELEASE a]) [sd]) [name])
                     (label_of (decision_spec
                        (local_mtime fs
                           (path_join (path_join (path_join (ddir a)
                              [p +:+ "." +:+ RELEASE a]) [sd]) [name]))
                        remote_mtime))] ++ [])).
  { apply (mirrored_file a p sd name); [exact Hp | apply label_of_known | constructor]. }
  destruct (LIST a).
  - intros H. injection H as <- <- <-. exact Hout.
  - rewrite transfer_run.
    destruct (body E _) as [dl|]; [|intros H; injection H as <- <- <-; exact Hout].
    destruct (opened_node E fs _) as [nd|];
      [|intros H; injection H as <- <- <-; exact Hout].
    destruct (fails_after dl); intros H; injection H as <- <- <-; exact Hout.
Qed.

Lemma prints_mirrored_sync (E : env) (a : args) :
  prints_mirrored a (nsidc_icesat2_sync E a).
Proof.
  unfold nsidc_icesat2_sync.
  apply prints_mirrored_bind; [apply prints_mirrored_makedirs|]. intros _.
  apply prints_mirrored_bind.
  { apply prints_mirrored_quiet. intros fs. unfold R2_compile.
    destruct (R2_pattern _ _) as [pat|];
      [destruct (re_compile_verbose pat)|]; eexists _, _; reflexivity. }
  intros R2. apply prints_mirrored_for_each. intros p Hp. unfold sync_product.
  intros fs r fs' out. unfold bind at 1, print at 1.
  match goal with
  | |- context [bind ?m ?k fs] =>
      destruct (bind m k fs) as [[r2 fs2] out2] eqn:E2
  end.
  intros H. injection H as <- <- <-.
  apply (mirrored_product a p out2 Hp).
  revert fs r2 fs2 out2 E2.
  match goal with
  | |- forall fs r2 fs2 out2, ?m fs = _ -> _ => change (prints_mirrored a m)
  end.
  apply prints_mirrored_bind; [apply prints_mirrored_lift|]. intros R1.
  apply prints_mirrored_bind; [apply prints_mirrored_lift|]. intros pg.
  apply prints_mirrored_for_each. intros sd _. unfold sync_subdirectory.
  apply prints_mirrored_bind; [apply prints_mirrored_makedirs|]. intros _.
  apply prints_mirrored_bind; [apply prints_mirrored_lift|]. intros pg'.
  apply prints_mirrored_for_each. intros i _. unfold sync_file.
  apply prints_mirrored_bind; [apply prints_mirrored_lift|]. intros name.
  apply prints_mirrored_bind; [apply prints_mirrored_lift|]. intros text.
  apply prints_mirrored_bind; [apply prints_mirrored_lift|]. intros LMD.
  now apply prints_mirrored_http_pull_file.
Qed.

End Report.

(** X13: however a run ends, its report is made of product lines, each
    naming a requested product, and of files reported by two
    consecutive lines: the remote address, built from the host,
    [ATLAS], the product with its release, a subdirectory and a file
    name, and the local path built from the local root and the same
    product, subdirectory and file name, marked new, overwrite or
    clobber.  The local tree mirrors the layout of the archive. *)
Theorem report_mirrors_archive (E : env) (a : args) (fs : FS) :
  let '(r, fs', out) := nsidc_icesat2_sync E a fs in mirrored a out.
Proof.
  destruct (nsidc_icesat2_sync E a fs) as [[r fs'] out] eqn:Hrun.
  exact (prints_mirrored_sync E a fs r fs' out Hrun).
Qed.

(** ** What a completed live run leaves *)

Section Delivery.

Lemma delivers_bind {A B : Type} (E : env) (a : args) (m : M A) (k : A -> M B) :
  delivers E a m -> (forall x, delivers E a (k x)) -> delivers E a (bind m k).
Proof.
  intros Hm Hk fs b fs' out. unfold bind.
  destruct (m fs) as [[[x|e] fs1] out1] eqn:E1; [|discriminate].
  destruct (k x fs1) as [[r2 fs2] out2] eqn:E2. intros H. injection H as -> <- <-.
  destruct (Hm _ _ _ _ E1) as [K1 D1], (Hk x _ _ _ _ E2) as [K2 D2]. split.
  - auto.
  - intros y Hy. rewrite reported_app in Hy.
    apply in_app_iff in Hy as [Hy|Hy]; auto.
Qed.

Lemma delivers_quiet {A : Type} (E : env) (a : args) (m : M A) :
  (forall fs, exists r out, m fs = (r, fs, out) /\ reported out = []) ->
  delivers E a m.
Proof.
  intros Hm fs b fs' out H. destruct (Hm fs) as (r0 & out0 & H0 & Hrep).
  rewrite H0 in H. injection H as _ <- <-. rewrite Hrep. split; [auto | intros x []].
Qed.

(** what follows a lookup that raises when it fails runs with what the
    lookup found *)
Lemma delivers_lift_bind {A B : Type} (E : env) (a : args) (e : exn)
    (o : option A) (k : A -> M B) :
  (forall x, o = Some x -> delivers E a (k x)) -> delivers E a (bind (lift e o) k).
Proof.
  intros Hk. destruct o as [x|]; intros fs b fs' out.
  - unfold bind, lift, ret. destruct (k x fs) as [[r2 fs2] out2] eqn:E2.
    intros H. injection H as -> <- <-. exact (Hk x eq_refl _ _ _ _ E2).
  - discriminate.
Qed.

Lemma delivers_for_each {A : Type} (E : env) (a : args) (xs : list A)
    (body : A -> M unit) :
  (forall x, In x xs -> delivers E a (body x)) -> delivers E a (for_each xs body).
Proof.
  induction xs as [|x xs IH]; intros Hb; simpl.
  - apply delivers_quiet. intros fs. eexists _, _; split; reflexivity.
  - apply delivers_bind; [apply Hb; now left|].
    intros _. apply IH. intros y Hy. apply Hb. now right.
Qed.

Lemma delivers_makedirs (E : env) (a : args) (MODE' : Z) (path : string) :
  delivers E a (makedirs_if_absent E path MODE').
Proof.
  intros fs b fs' out. rewrite makedirs_if_absent_run.
  destruct (fs !! path) eqn:Hp; intros H; injection H as _ <- <-;
    (split; [|intros x []]); [auto|].
  intros l (p & sd & pg & i & name & text & LMD & dl & nd & H1 & H2 & H3 & H4 & H5 &
            H6 & H7 & H8 & Hl & Hrest).
  exists p, sd, pg, i, name, text, LMD, dl, nd.
  repeat (split; [assumption|]). split; [|exact Hrest].
  rewrite lookup_insert_ne; [exact Hl | intros <-; congruence].
Qed.

Lemma delivers_http_pull_file (E : env) (a : args) (p sd name text : string)
    (pg : page) (i : nat) (LMD : struct_time) :
  In p (PRODUCTS a) ->
  listing E (path_join HOST ["ATLAS"; p +:+ "." +:+ RELEASE a; sd]) = Some pg ->
  colnames pg !! i = Some name ->
  collastmod pg !! i = Some text ->
  strptime (rstrip text) = Some LMD ->
  delivers E a
    (http_pull_file E
       (path_join HOST ["ATLAS"; p +:+ "." +:+ RELEASE a; sd; name]) (timegm LMD)
       (path_join (ddir a) [p +:+ "." +:+ RELEASE a; sd; name])
       false (CLOBBER a) (MODE a)).
Proof.
  intros Hp Hpg Hname Htext HLMD fs b fs' out. rewrite http_pull_file_unfold.
  destruct (warrants_transfer _ || CLOBBER a).
  2:{ intros H. injection H as _ <- <-. split; [auto | intros x []]. }
  unfold bind at 1 2, print. rewrite transfer_run.
  destruct (body E _) as [dl|] eqn:Hb; [|discriminate].
  destruct (opened_node E fs _) as [nd0|]; [|discriminate].
  destruct (fails_after dl) eqn:Hf; [discriminate|].
  intros H. injection H as _ <- <-.
  set (l := path_join (ddir a) [p +:+ "." +:+ RELEASE a; sd; name]) in *.
  set (nd1 := Node KFile (inject_Z (timegm LMD)) (utime_atime E (st_atime nd0))
                   (MODE a) (received dl)).
  assert (Hnew : delivered E a (<[l := nd1]> fs) l).
  { exists p, sd, pg, i, name, text, LMD, dl, nd1.
    repeat (split; [assumption || reflexivity|]).
    split; [apply lookup_insert_eq|]. repeat split. }
  split.
  - intros x Hx. destruct (decide (l = x)) as [<-|Hne]; [exact Hnew|].
    destruct Hx as (p' & sd' & pg' & i' & name' & text' & LMD' & dl' & nd' &
                    H1 & H2 & H3 & H4 & H5 & H6 & H7 & H8 & Hl & Hrest).
    exists p', sd', pg', i', name', text', LMD', dl', nd'.
    repeat (split; [assumption|]). split; [|exact Hrest].
    now rewrite lookup_insert_ne.
  - intros x [<-|[]]. exact Hnew.
Qed.

Lemma delivers_sync (E : env) (a : args) :
  LIST a = false -> delivers E a (nsidc_icesat2_sync E a).
Proof.
  intros HL. unfold nsidc_icesat2_sync.
  apply delivers_bind; [apply delivers_makedirs|]. intros _.
  apply delivers_bind.
  { apply delivers_quiet. intros fs. unfold R2_compile.
    destruct (R2_pattern _ _) as [pat|];
      [destruct (re_compile_verbose pat)|]; eexists _, _; split; reflexivity. }
  intros R2. apply delivers_for_each. intros p Hp. unfold sync_product.
  apply delivers_bind.
  { apply delivers_quiet. intros fs. eexists _, _; split; reflexivity. }
  intros _.
  apply delivers_lift_bind. intros R1 _.
  apply delivers_lift_bind. intros pg _.
  apply delivers_for_each. intros sd _. unfold sync_subdirectory.
  apply delivers_bind; [apply delivers_makedirs|]. intros _.
  apply delivers_lift_bind. intros pg' Hpg'.
  apply delivers_for_each. intros i _. unfold sync_file.
  apply delivers_lift_bind. intros name Hname.
  apply delivers_lift_bind. intros text Htext.
  apply delivers_lift_bind. intros LMD HLMD.
  rewrite HL.
  exact (delivers_http_pull_file E a p sd name text pg' i LMD Hp Hpg' Hname Htext HLMD).
Qed.

End Delivery.

(** X14: when a live run completes, every file it reported is in place
    afterwards as the local copy of its own entry of the archive: its
    path is the local path of a file listed under a requested product,
    and it is a regular file with mode [MODE], whose modification time
    is the time the last-modified text of that entry names, and which
    holds what the response for the address of that entry handed over:
    the whole body, or its first bytes when the connection was closed
    early. *)
Theorem completed_run_delivers (E : env) (a : args) (fs fs' : FS) (out : list line) :
  LIST a = false ->
  nsidc_icesat2_sync E a fs = (Ok tt, fs', out) ->
  forall l, In l (reported out) -> delivered E a fs' l.
Proof.
  intros HL Hrun.
  destruct (delivers_sync E a HL fs tt fs' out Hrun) as [K D]. exact D.
Qed.

Lemma completed_run_delivers_witness :
  delivered Scenario.world (Scenario.narrow_args ["ATL06"] false false)
    Scenario.after_ATL06 Scenario.local_ATL06.
Proof.
  apply (completed_run_delivers Scenario.world
           (Scenario.narrow_args ["ATL06"] false false) ∅ Scenario.after_ATL06
           Scenario.report_ATL06).
  - reflexivity.
  - vm_compute. reflexivity.
  - left. reflexivity.
Defined.
